(** * Multi-class classification notebook: a shallow embedding

    The notebook [Multi-Class-Classification.ipynb] wires library calls
    together: [make_blobs] and [train_test_split] (scikit-learn), a
    [BlobModel] built from five [nn.Linear] layers, [nn.CrossEntropyLoss],
    [torch.optim.SGD], a training loop, [torch.softmax] / [argmax], and two
    accuracy metrics.

    Conventions of the embedding.
    - A float tensor is a list of reals ([vec]), a batch or a weight
      matrix a list of rows ([mat]); arithmetic is exact real arithmetic.
      What depends on rounding, overflow or NaN (equal probabilities for
      different logits, an infinite loss, the two accuracy values) is
      stated on binary32 values instead, in the modules [float32],
      [torch_float32] and [float_metrics].
    - The one place where the notebook computes on a Python float to take
      an integer decision, [ceil(test_size * n_samples)] inside
      [train_test_split], is modelled bit for bit on binary64 floats.
    - A library call that raises (shape mismatch, label out of range, an
      invalid split) returns [None].
    - Random draws (parameter initialisation, the shuffle of the split)
      are inputs: a stream of reals and a permutation. *)

From Stdlib Require Import Reals Lra Lia List ZArith NArith Bool Arith.
From Stdlib Require Import Permutation QArith.
From Stdlib Require Import Floats ROrderedType.
Import ListNotations.

(** ** Hyperparameters (notebook cell "Import dependencies") *)

Definition NUM_SAMPLES : nat := 4000.
Definition NUM_CLASSES : nat := 10.
Definition CLUSTER_STD : R := 1%R.
Definition NUM_FEATURES : nat := 2.
Definition NUM_NODES : nat := 4.
Definition RANDOM_SEED : Z := 999%Z.
Definition LEARNING_RATE : R := (5 / 100)%R.
Definition NUM_EPOCHS : N := 150000%N.

(** ** Lists *)

(** Element-wise combination of two lists, up to the shorter one. *)
Fixpoint zip_with {A B C : Type} (f : A -> B -> C) (la : list A) (lb : list B)
  : list C :=
  match la, lb with
  | a :: la', b :: lb' => f a b :: zip_with f la' lb'
  | _, _ => []
  end.

(** Sequencing of calls that may raise. *)
Fixpoint mapM {A B : Type} (f : A -> option B) (l : list A) : option (list B) :=
  match l with
  | [] => Some []
  | a :: l' =>
      match f a, mapM f l' with
      | Some b, Some r => Some (b :: r)
      | _, _ => None
      end
  end.

(** ** Tensors *)

Definition vec := list R.
Definition mat := list vec.

Module Tensor.
Local Open Scope R_scope.

Definition vsum (v : vec) : R := fold_right Rplus 0 v.

Fixpoint dot (u v : vec) : R :=
  match u, v with
  | a :: u', b :: v' => a * b + dot u' v'
  | _, _ => 0
  end.

Fixpoint vadd (u v : vec) : vec :=
  match u, v with
  | a :: u', b :: v' => (a + b) :: vadd u' v'
  | _, _ => []
  end.

Definition vscale (c : R) (v : vec) : vec := map (Rmult c) v.

Definition vsub (u v : vec) : vec := vadd u (vscale (-1) v).

Definition zeros (n : nat) : vec := repeat 0 n.

(** [mat_vec W x] is [W @ x]: one dot product per row of [W]. *)
Definition mat_vec (W : mat) (x : vec) : vec := map (fun row => dot row x) W.

(** [vec_mat g W] is [g @ W]: the combination of the rows of [W] with the
    coefficients [g]; [cols] is the width of [W]. *)
Fixpoint vec_mat (cols : nat) (g : vec) (W : mat) : vec :=
  match g, W with
  | a :: g', row :: W' => vadd (vscale a row) (vec_mat cols g' W')
  | _, _ => zeros cols
  end.

(** [mat_mul cols A B] is [A @ B] for [B] of width [cols]. *)
Definition mat_mul (cols : nat) (A B : mat) : mat :=
  map (fun row => vec_mat cols row B) A.

Fixpoint madd (A B : mat) : mat :=
  match A, B with
  | r :: A', s :: B' => vadd r s :: madd A' B'
  | _, _ => []
  end.

Definition mscale (c : R) (A : mat) : mat := map (vscale c) A.

Definition outer (g x : vec) : mat := map (fun gi => vscale gi x) g.

Definition mzeros (rows cols : nat) : mat := repeat (zeros cols) rows.

(** Shape predicates. *)
Definition has_rows (rows cols : nat) (A : mat) : Prop :=
  length A = rows /\ Forall (fun r => length r = cols) A.

End Tensor.
Import Tensor.

(** ** [torch.nn]: linear layers and their sequential container *)

Module nn.
Local Open Scope R_scope.

(** [nn.Linear]: [weight] has shape (out_features, in_features), [bias]
    has shape (out_features). *)
Record Linear := mkLinear {
  in_features : nat;
  out_features : nat;
  weight : mat;
  bias : vec
}.

(** The global generator of torch, as the stream of its draws. *)
Definition Generator := nat -> R.

Definition draw_vec (g : Generator) (pos n : nat) : vec :=
  map (fun j => g (pos + j)%nat) (seq 0 n).

Definition draw_mat (g : Generator) (pos rows cols : nat) : mat :=
  map (fun i => draw_vec g (pos + i * cols)%nat cols) (seq 0 rows).

(** [nn.Linear(in_features, out_features)]: allocates the two parameters
    and fills them from the generator, weight first; returns the layer and
    the position of the next unused draw. *)
Definition Linear_init (in_f out_f : nat) (g : Generator) (pos : nat)
  : Linear * nat :=
  let w := draw_mat g pos out_f in_f in
  let b := draw_vec g (pos + out_f * in_f)%nat out_f in
  (mkLinear in_f out_f w b, (pos + out_f * in_f + out_f)%nat).

(** [F.linear(x, weight, bias)] on one sample. *)
Definition Linear_apply (l : Linear) (x : vec) : vec :=
  vadd (mat_vec (weight l) x) (bias l).

(** [Linear.forward] on one sample; a sample of the wrong width raises. *)
Definition Linear_forward (l : Linear) (x : vec) : option vec :=
  if (length x =? in_features l)%nat then Some (Linear_apply l x) else None.

(** [nn.Sequential]: the layers in call order. *)
Definition Sequential := list Linear.

Fixpoint Sequential_forward (m : Sequential) (x : vec) : option vec :=
  match m with
  | [] => Some x
  | l :: m' =>
      match Linear_forward l x with
      | Some y => Sequential_forward m' y
      | None => None
      end
  end.

Definition shape (l : Linear) : nat * nat := (in_features l, out_features l).

End nn.
Import nn.

(** ** The model (notebook cell "Build model") *)

(** [BlobModel] is an [nn.Module]: its layer stack and the train/eval flag
    every module carries. *)
Record BlobModel := mkBlobModel {
  linear_layer_stack : Sequential;
  training : bool
}.

(** [BlobModel.__init__(input_features, output_features, hidden_units=8)];
    [hidden_units = None] stands for the omitted keyword.  The four
    [nn.ReLU()] lines are commented out in the source, so the stack holds
    the five linear layers only. *)
Definition BlobModel_init (input_features output_features : nat)
    (hidden_units : option nat) (g : Generator) : BlobModel :=
  let h := match hidden_units with Some h => h | None => 8%nat end in
  let '(l1, p1) := Linear_init input_features h g 0 in
  let '(l2, p2) := Linear_init h h g p1 in
  let '(l3, p3) := Linear_init h h g p2 in
  let '(l4, p4) := Linear_init h h g p3 in
  let '(l5, _) := Linear_init h output_features g p4 in
  mkBlobModel [l1; l2; l3; l4; l5] true.

Definition BlobModel_forward (self : BlobModel) (x : vec) : option vec :=
  Sequential_forward (linear_layer_stack self) x.

(** [model_4 = BlobModel(input_features=NUM_FEATURES,
    output_features=NUM_CLASSES, hidden_units=NUM_NODES)]. *)
Definition model_4 (g : Generator) : BlobModel :=
  BlobModel_init NUM_FEATURES NUM_CLASSES (Some NUM_NODES) g.

Definition layer_shapes (m : BlobModel) : list (nat * nat) :=
  map shape (linear_layer_stack m).

(** ** [torch]: softmax, argmax, cross-entropy *)

Module torch.
Local Open Scope R_scope.

(** [torch.softmax(z, dim=-1)] on one row. *)
Definition softmax (z : vec) : vec :=
  let total := vsum (map exp z) in
  map (fun zi => exp zi / total) z.

(** Scan of [argmax]: [best] is the largest entry seen so far, at index
    [best_i]; a later entry replaces it only when strictly larger, so the
    first maximal entry wins. *)
Fixpoint argmax_scan (best_i : nat) (best : R) (i : nat) (v : vec) : nat :=
  match v with
  | [] => best_i
  | x :: v' =>
      if Rlt_dec best x then argmax_scan i x (S i) v'
      else argmax_scan best_i best (S i) v'
  end.

(** [torch.argmax] along a row; a row without entries raises. *)
Definition argmax (v : vec) : option nat :=
  match v with
  | [] => None
  | x :: v' => Some (argmax_scan 0 x 1 v')
  end.

(** [tensor.softmax(dim=1)] and [tensor.argmax(dim=1)] on a batch. *)
Definition softmax_rows (Z : list vec) : list vec := map softmax Z.
Definition argmax_rows (Z : list vec) : option (list nat) := mapM argmax Z.

(** [torch.log_softmax] on one row. *)
Definition log_softmax (z : vec) : vec :=
  let lse := ln (vsum (map exp z)) in
  map (fun zi => zi - lse) z.

(** Negative log-likelihood of each sample: the entry of the row at the
    class index; a class index outside the row raises. *)
Fixpoint nll_terms (logp : list vec) (target : list nat) : option (list R) :=
  match logp, target with
  | [], [] => Some []
  | r :: logp', t :: target' =>
      match nth_error r t, nll_terms logp' target' with
      | Some x, Some rest => Some (- x :: rest)
      | _, _ => None
      end
  | _, _ => None
  end.

(** [nn.CrossEntropyLoss()] with the default mean reduction:
    [nll_loss(log_softmax(input), target)].  [None] stands for every
    outcome that is not a real number: a raised error (batch sizes
    differ, class index out of range) and the NaN of an empty batch. *)
Definition CrossEntropyLoss (input : list vec) (target : list nat) : option R :=
  match nll_terms (map log_softmax input) target with
  | Some [] => None
  | Some terms => Some (vsum terms / INR (length terms))
  | None => None
  end.

End torch.
Import torch.

(** ** Autograd: the backward pass of the loss through the layer stack *)

Module autograd.
Local Open Scope R_scope.

(** Gradients of one layer: (d weight, d bias). *)
Definition LinearGrad := (mat * vec)%type.

Definition onehot (n t : nat) : vec :=
  map (fun j => if (j =? t)%nat then 1 else 0) (seq 0 n).

(** Backward of the mean cross-entropy: the gradient with respect to the
    logits of sample n is [(softmax(z_n) - onehot(t_n)) / N]. *)
Definition CrossEntropyLoss_backward (input : list vec) (target : list nat)
  : list vec :=
  zip_with
    (fun z t => vscale (/ INR (length input))
                       (vsub (softmax z) (onehot (length z) t)))
    input target.

(** Backward of [F.linear] over a batch: [A] are the inputs the layer saw
    and [G] the gradients with respect to its outputs.  The weight
    gradient is the sum over the batch of the outer products, the bias
    gradient the sum of the output gradients, and the input gradient of
    each sample is [G_n @ weight]. *)
Definition Linear_backward (l : Linear) (A G : list vec)
  : LinearGrad * list vec :=
  let gw := fold_right madd (mzeros (out_features l) (in_features l))
                       (zip_with outer G A) in
  let gb := fold_right vadd (zeros (out_features l)) G in
  let gin := map (fun g => vec_mat (in_features l) g (weight l)) G in
  ((gw, gb), gin).

(** Reverse-mode pass over the stack: the forward values are computed on
    the way down, the gradients are produced on the way back, last layer
    first.  [dloss] gives the gradient of the loss with respect to the
    logits.  Returns the gradient of every layer, in layer order, and the
    gradient with respect to the inputs. *)
Fixpoint Sequential_backward (m : Sequential) (A : list vec)
    (dloss : list vec -> list vec) : list LinearGrad * list vec :=
  match m with
  | [] => ([], dloss A)
  | l :: m' =>
      let '(gs, G) := Sequential_backward m' (map (Linear_apply l) A) dloss in
      let '(g, gin) := Linear_backward l A G in
      (g :: gs, gin)
  end.

(** The gradient [loss.backward()] computes for [loss = loss_fn(model(X), y)]. *)
Definition gradient (m : Sequential) (X : list vec) (y : list nat)
  : list LinearGrad :=
  fst (Sequential_backward m X (fun logits => CrossEntropyLoss_backward logits y)).

(** [.grad] accumulation: [backward] adds into the buffers that exist. *)
Definition accumulate (old : option (list LinearGrad)) (new : list LinearGrad)
  : list LinearGrad :=
  match old with
  | None => new
  | Some o => zip_with (fun a b => (madd (fst a) (fst b), vadd (snd a) (snd b))) o new
  end.

End autograd.
Import autograd.

(** ** [torch.optim.SGD] (no momentum, no weight decay) *)

Module optim.
Local Open Scope R_scope.

(** [optimizer.zero_grad(set_to_none)]: every existing [.grad] buffer is
    dropped when [set_to_none] holds and filled with zeros otherwise (the
    default of the keyword differs between releases of the library). *)
Definition zero_grad (set_to_none : bool) (grads : option (list LinearGrad))
  : option (list LinearGrad) :=
  if set_to_none then None
  else
    option_map
      (map (fun g : LinearGrad =>
              (map (map (fun _ => 0)) (fst g), map (fun _ => 0) (snd g))))
      grads.

(** The update of one layer: [p.add_(p.grad, alpha=-lr)] on weight and bias. *)
Definition update_layer (lr : R) (l : Linear) (g : LinearGrad) : Linear :=
  mkLinear (in_features l) (out_features l)
           (madd (weight l) (mscale (- lr) (fst g)))
           (vadd (bias l) (vscale (- lr) (snd g))).

(** [optimizer.step()]: every parameter that has a gradient is updated. *)
Fixpoint SGD_step (lr : R) (m : Sequential) (gs : list LinearGrad) : Sequential :=
  match m, gs with
  | l :: m', g :: gs' => update_layer lr l g :: SGD_step lr m' gs'
  | _, _ => m
  end.

End optim.
Import optim.

(** ** scikit-learn: [train_test_split] (notebook cell "Import dependencies")

    The splitter is the library's; it is modelled after its shuffle
    split: the number of test samples is [ceil(test_size * n_samples)]
    computed on Python floats, the training set takes the rest, the
    samples are shuffled by a permutation drawn from [random_state], the
    first [n_test] shuffled indices form the test set and the following
    [n_train] the training set. *)

Module sklearn.
Local Open Scope Z_scope.

(** [math.ceil] on a binary64 float; infinities and NaN raise. *)
Definition ceil (x : float) : option Z :=
  match Prim2SF x with
  | S754_zero _ => Some 0
  | S754_finite s m e =>
      let a := if s then Z.neg m else Z.pos m in
      if 0 <=? e then Some (a * 2 ^ e) else Some (- ((- a) / 2 ^ (- e)))
  | S754_infinity _ | S754_nan => None
  end.

(** Conversion of a sample count to a float (exact below 2^53). *)
Definition float_of_nat (n : nat) : float :=
  PrimFloat.of_uint63 (Uint63.of_Z (Z.of_nat n)).

(** [_validate_shuffle_split(n_samples, test_size, train_size=None)] for
    a float [test_size]: the fraction must lie strictly between 0 and 1,
    and both parts must be non-empty.  Returns [(n_train, n_test)]. *)
Definition validate_shuffle_split (n_samples : nat) (test_size : float)
  : option (nat * nat) :=
  if (PrimFloat.leb test_size 0 || PrimFloat.leb 1 test_size)%bool then None
  else
    match ceil (PrimFloat.mul test_size (float_of_nat n_samples)) with
    | None => None
    | Some n_test =>
        let n_train := Z.of_nat n_samples - n_test in
        if (n_test <=? 0) || (Z.of_nat n_samples <=? n_test) then None
        else if n_train <=? 0 then None
        else Some (Z.to_nat n_train, Z.to_nat n_test)
    end.

(** [a[idx]] for an index array; an index out of range raises. *)
Fixpoint safe_indexing {A : Type} (a : list A) (idx : list nat)
  : option (list A) :=
  match idx with
  | [] => Some []
  | i :: idx' =>
      match nth_error a i, safe_indexing a idx' with
      | Some x, Some r => Some (x :: r)
      | _, _ => None
      end
  end.

(** The index sets of the shuffle split: [permutation[:n_test]] is the
    test set and [permutation[n_test:n_test + n_train]] the training
    set.  Returns [(ind_train, ind_test)]. *)
Definition shuffle_split_indices (n_train n_test : nat) (permutation : list nat)
  : list nat * list nat :=
  (firstn n_train (skipn n_test permutation), firstn n_test permutation).

(** [train_test_split(X, y, test_size=..., random_state=...)];
    [permutation] is what the generator seeded with [random_state]
    returns for [permutation(n_samples)].  Arrays of different lengths
    raise.  Returns [(X_train, X_test, y_train, y_test)]. *)
Definition train_test_split {A B : Type} (X : list A) (y : list B)
    (test_size : float) (permutation : list nat)
  : option (list A * list A * list B * list B) :=
  if negb (length X =? length y)%nat then None
  else
    match validate_shuffle_split (length X) test_size with
    | None => None
    | Some (n_train, n_test) =>
        let '(train, test) := shuffle_split_indices n_train n_test permutation in
        match safe_indexing X train, safe_indexing X test,
              safe_indexing y train, safe_indexing y test with
        | Some Xtr, Some Xte, Some ytr, Some yte => Some (Xtr, Xte, ytr, yte)
        | _, _, _, _ => None
        end
    end.

End sklearn.

(** The binary64 float closest to 0.2, the [test_size] of the notebook. *)
Definition TEST_SIZE : float := 0x1.999999999999ap-3%float.

(** Step 3 of the data cell: the split of the generated blobs. *)
Definition blob_split {A B : Type} (X_blob : list A) (y_blob : list B)
    (permutation : list nat) :=
  sklearn.train_test_split X_blob y_blob TEST_SIZE permutation.

(** ** Loss, optimizer and the training loop (cells "Create loss and
    optimizer" and "Fit the model") *)

Notation "x <- e ;; k" :=
  (match e with Some x => k | None => None end)
  (at level 61, e at next level, right associativity).

(** [loss_fn = nn.CrossEntropyLoss()]. *)
Definition loss_fn := CrossEntropyLoss.

(** [model_4(X)]: the module called on a batch, one row per sample. *)
Definition BlobModel_call (self : BlobModel) (X : list vec) : option (list vec) :=
  mapM (BlobModel_forward self) X.

(** [model.train()] and [model.eval()] only set the mode flag. *)
Definition BlobModel_train (self : BlobModel) : BlobModel :=
  mkBlobModel (linear_layer_stack self) true.
Definition BlobModel_eval (self : BlobModel) : BlobModel :=
  mkBlobModel (linear_layer_stack self) false.

(** What the loop reads and writes: the model, the [.grad] buffers of
    [model_4.parameters()] the optimizer works on ([None] before the first
    backward pass), and the lines printed so far, each an
    (epoch, loss, test_loss) triple. *)
Record Session := mkSession {
  model : BlobModel;
  grads : option (list LinearGrad);
  stdout : list (nat * R * R)
}.

(** The "Training" half of the loop body; returns the new session and
    the training loss of this epoch. *)
Definition training_step (set_to_none : bool) (X_blob_train : list vec)
    (y_blob_train : list nat) (s : Session) : option (Session * R) :=
  let m := BlobModel_train (model s) in
  y_logits <- BlobModel_call m X_blob_train ;;
  y_pred <- argmax_rows (softmax_rows y_logits) ;;
  loss <- loss_fn y_logits y_blob_train ;;
  let g0 := zero_grad set_to_none (grads s) in
  let g1 := accumulate g0 (gradient (linear_layer_stack m) X_blob_train y_blob_train) in
  let m1 := mkBlobModel (SGD_step LEARNING_RATE (linear_layer_stack m) g1)
                        (training m) in
  Some (mkSession m1 (Some g1) (stdout s), loss).

(** The "Testing" half, inside [torch.inference_mode()]: nothing is
    recorded for autograd, the losses are printed. *)
Definition testing_step (X_blob_test : list vec) (y_blob_test : list nat)
    (epoch : nat) (loss : R) (s : Session) : option Session :=
  let m := BlobModel_eval (model s) in
  test_logits <- BlobModel_call m X_blob_test ;;
  test_pred <- argmax_rows (softmax_rows test_logits) ;;
  test_loss <- loss_fn test_logits y_blob_test ;;
  Some (mkSession m (grads s) (stdout s ++ [(epoch, loss, test_loss)])).

(** One pass of the body of [for epoch in range(epochs)]. *)
Definition epoch_body (set_to_none : bool)
    (X_blob_train : list vec) (y_blob_train : list nat)
    (X_blob_test : list vec) (y_blob_test : list nat)
    (epoch : nat) (s : Session) : option Session :=
  r <- training_step set_to_none X_blob_train y_blob_train s ;;
  if (epoch mod 100 =? 0)%nat
  then testing_step X_blob_test y_blob_test epoch (snd r) (fst r)
  else Some (fst r).

(** [for epoch in range(epochs): body]; an exception in the body ends
    the loop. *)
Definition for_range (epochs : nat) (body : nat -> Session -> option Session)
    (s : Session) : option Session :=
  fold_left (fun acc epoch => s' <- acc ;; body epoch s') (seq 0 epochs) (Some s).

(** The whole training cell, started on a fresh model. *)
Definition fit (set_to_none : bool) (m : BlobModel)
    (X_blob_train : list vec) (y_blob_train : list nat)
    (X_blob_test : list vec) (y_blob_test : list nat) : option Session :=
  let epochs := N.to_nat NUM_EPOCHS in
  for_range epochs
    (epoch_body set_to_none X_blob_train y_blob_train X_blob_test y_blob_test)
    (mkSession m None []).

(** One step of plain gradient descent on the full training set: the
    mathematical description the loop is compared with. *)
Definition gradient_descent_step (learning_rate : R) (X : list vec) (y : list nat)
    (m : Sequential) : Sequential :=
  SGD_step learning_rate m (gradient m X y).

(** The line the loop prints at [epoch]: the training loss of the model
    before the update of that epoch, and the test loss of the model after
    it.  [before] and [after] are the layer stacks around the update. *)
Definition reported (X_blob_train : list vec) (y_blob_train : list nat)
    (X_blob_test : list vec) (y_blob_test : list nat)
    (epoch : nat) (before after : Sequential) (line : nat * R * R) : Prop :=
  exists y_logits test_logits loss test_loss,
    mapM (Sequential_forward before) X_blob_train = Some y_logits /\
    CrossEntropyLoss y_logits y_blob_train = Some loss /\
    mapM (Sequential_forward after) X_blob_test = Some test_logits /\
    CrossEntropyLoss test_logits y_blob_test = Some test_loss /\
    line = (epoch, loss, test_loss).

(** ** Predictions (cells "Make predictions" and "Turn predicted logits
    in prediction probabilities") *)

(** Returns [(y_logits, y_pred_probs, y_preds)]. *)
Definition make_predictions (m : BlobModel) (X_blob_test : list vec)
  : option (list vec * list vec * list nat) :=
  let m := BlobModel_eval m in
  y_logits <- BlobModel_call m X_blob_test ;;
  let y_pred_probs := softmax_rows y_logits in
  y_preds <- argmax_rows y_pred_probs ;;
  Some (y_logits, y_pred_probs, y_preds).

(** [x], at index [i], is the first maximal entry of [v]: no entry is
    larger, and every entry before it is strictly smaller. *)
Definition first_max_at (v : vec) (i : nat) (x : R) : Prop :=
  nth_error v i = Some x /\
  (forall j y, nth_error v j = Some y -> (y <= x)%R) /\
  (forall j y, (j < i)%nat -> nth_error v j = Some y -> (y < x)%R).

(** [i] is the index of the first maximal entry of [v]. *)
Definition first_max (v : vec) (i : nat) : Prop :=
  exists x, first_max_at v i x.

(** ** The five layers as one affine map *)

(** Composition of an affine map [x -> W x + b] on inputs of width [n]
    with a following layer. *)
Definition compose_affine (n : nat) (Wb : mat * vec) (l : Linear) : mat * vec :=
  (mat_mul n (weight l) (fst Wb), vadd (mat_vec (weight l) (snd Wb)) (bias l)).

(** The single weight matrix and bias of a non-empty stack: the product
    of the weight matrices, and the bias pushed through the later layers. *)
Definition single_affine (m : Sequential) : option (mat * vec) :=
  match m with
  | [] => None
  | l :: m' => Some (fold_left (compose_affine (in_features l)) m' (weight l, bias l))
  end.

(** ** Shapes

    The shapes the library checks when tensors are built and multiplied;
    the statements below assume them of the data and prove them of the
    model. *)

Definition wf_linear (l : Linear) : Prop :=
  has_rows (out_features l) (in_features l) (weight l) /\
  length (bias l) = out_features l.

(** A stack taking inputs of width [n_in] to outputs of width [n_out]. *)
Fixpoint wf_stack (n_in n_out : nat) (m : Sequential) : Prop :=
  match m with
  | [] => n_in = n_out
  | l :: m' =>
      in_features l = n_in /\ wf_linear l /\ wf_stack (out_features l) n_out m'
  end.

Definition wf_model (m : BlobModel) : Prop :=
  wf_stack NUM_FEATURES NUM_CLASSES (linear_layer_stack m).

(** A gradient with the shapes of the parameters of its layer. *)
Definition grad_like (l : Linear) (g : LinearGrad) : Prop :=
  has_rows (out_features l) (in_features l) (fst g) /\
  length (snd g) = out_features l.

(** A non-empty batch of [NUM_FEATURES]-wide samples with one label below
    [NUM_CLASSES] for each. *)
Definition wf_batch (X : list vec) (y : list nat) : Prop :=
  X <> [] /\ length X = length y /\
  Forall (fun x => length x = NUM_FEATURES) X /\
  Forall (fun t => (t < NUM_CLASSES)%nat) y.

(** Entry [(i, j)] of a matrix, when there is one. *)
Definition entry (A : mat) (i j : nat) : option R :=
  match nth_error A i with
  | Some row => nth_error row j
  | None => None
  end.

(** The epochs at which the loop prints. *)
Definition reporting_epoch (epoch : nat) : bool := (epoch mod 100 =? 0)%nat.

(** ** The loss as a function of one parameter entry

    What "the gradient of the loss with respect to a parameter" refers
    to: the loss of the model in which one entry of one weight matrix, or
    of one bias, is replaced by a variable. *)

(** [l] with position [i] replaced by [x]. *)
Fixpoint set_nth {A : Type} (i : nat) (x : A) (l : list A) : list A :=
  match l, i with
  | [], _ => []
  | _ :: l', O => x :: l'
  | a :: l', S i' => a :: set_nth i' x l'
  end.

Definition set_entry (A : mat) (i j : nat) (x : R) : mat :=
  match nth_error A i with
  | Some row => set_nth i (set_nth j x row) A
  | None => A
  end.

Definition set_weight_entry (i j : nat) (x : R) (l : Linear) : Linear :=
  mkLinear (in_features l) (out_features l) (set_entry (weight l) i j x) (bias l).

Definition set_bias_entry (i : nat) (x : R) (l : Linear) : Linear :=
  mkLinear (in_features l) (out_features l) (weight l) (set_nth i x (bias l)).

(** The stack with layer [k] replaced by [f] of it. *)
Definition map_layer (k : nat) (f : Linear -> Linear) (m : Sequential) : Sequential :=
  match nth_error m k with
  | Some l => set_nth k (f l) m
  | None => m
  end.

(** [loss_fn(model(X), y)] as a real number ([0] where it is none). *)
Definition loss_value (m : Sequential) (X : list vec) (y : list nat) : R :=
  match mapM (Sequential_forward m) X with
  | Some logits =>
      match CrossEntropyLoss logits y with
      | Some loss => loss
      | None => 0%R
      end
  | None => 0%R
  end.

(** The loss of one sample, in closed form: log-sum-exp of the logits
    minus the logit of the true class. *)
Definition sample_loss (z : vec) (t : nat) : R :=
  (ln (vsum (map exp z)) - nth t z 0)%R.

(** The batch [A] moved by [s] along the directions [D]. *)
Definition shift (A : list vec) (s : R) (D : list vec) : list vec :=
  zip_with (fun a d => vadd a (vscale s d)) A D.

(** ** Small concrete inputs, used to exercise the statements *)

Definition zero_draws : Generator := fun _ => 0%R.
Definition toy_X_train : list vec := [[0; 0]; [1; 2]]%R.
Definition toy_y_train : list nat := [0; 7]%nat.
Definition toy_X_test : list vec := [[1; 1]]%R.
Definition toy_y_test : list nat := [3]%nat.

(** ** Accuracy metrics (cell "Calculate accuracy") *)

Module metrics.
Local Open Scope nat_scope.

Definition count_true (l : list bool) : nat := length (filter (fun b => b) l).

(** [sklearn.metrics.accuracy_score(y_true, y_pred)]: the mean of the
    element-wise comparison.  Arrays of different lengths raise; the
    mean of an empty comparison is not a number. *)
Definition accuracy_score (y_true y_pred : list nat) : option Q :=
  if negb (length y_true =? length y_pred) then None
  else
    match zip_with Nat.eqb y_true y_pred with
    | [] => None
    | score => Some (Z.of_nat (count_true score) # Pos.of_nat (length score))
    end.

(** [torchmetrics]: integer labels are turned into one-hot rows over
    [num_classes] columns. *)
Definition to_onehot (labels : list nat) (num_classes : nat) : list (list bool) :=
  map (fun y => map (fun c => c =? y) (seq 0 num_classes)) labels.

(** Micro-averaged statistics: true positives, false positives, true
    negatives and false negatives counted over every cell of the one-hot
    matrices.  Returns [(tp, fp, tn, fn)]. *)
Definition stat_scores (preds target : list (list bool)) : nat * nat * nat * nat :=
  let cells := concat (zip_with (zip_with pair) preds target) in
  (count_true (map (fun c => fst c && snd c) cells),
   count_true (map (fun c => fst c && negb (snd c)) cells),
   count_true (map (fun c => negb (fst c) && negb (snd c)) cells),
   count_true (map (fun c => negb (fst c) && snd c) cells)).

End metrics.

(** [sk_acc = sklearn.metrics.accuracy_score(y_preds, y_blob_test)]: the
    predictions are passed in the [y_true] position of [accuracy_score].
    This is the fraction before it is rounded to a float; the floats the
    two metrics return are [tm_acc] and [sk_acc_float] below. *)
Definition sk_acc (y_preds y_blob_test : list nat) : option Q :=
  metrics.accuracy_score y_preds y_blob_test.

(** ** Parameters, as [model_4.parameters()] lists them *)

(** The scalars of one layer: the weight, row by row, then the bias. *)
Definition Linear_parameters (l : Linear) : vec := concat (weight l) ++ bias l.

Definition parameters (m : Sequential) : vec := concat (map Linear_parameters m).

(** ** scikit-learn: [make_blobs] (notebook cell "Import dependencies",
    step 1)

    The generator is the library's; it is modelled after its code for an
    integer [n_samples] and an integer [centers]: the centers are drawn,
    every center gets [n_samples // centers] samples and the first
    [n_samples % centers] centers one more, the samples of center [i] are
    the center plus [cluster_std] times standard normal noise and carry the
    label [i], and samples and labels are shuffled together. *)

Module datasets.
Local Open Scope nat_scope.

(** The draws of the generator: the coordinates of the centers, the
    standard normal noise of every sample, and the final shuffle. *)
Record BlobDraws := mkBlobDraws {
  center_draw : nat -> nat -> R;
  noise_draw : nat -> nat -> R;
  shuffle_draw : list nat
}.

Definition n_samples_per_center (n_samples n_centers : nat) : list nat :=
  map (fun i => n_samples / n_centers + (if i <? n_samples mod n_centers then 1 else 0))
      (seq 0 n_centers).

(** Entry [i] of [n_samples_per_center], in closed form. *)
Definition samples_of_center (n_samples n_centers i : nat) : nat :=
  n_samples / n_centers + (if i <? n_samples mod n_centers then 1 else 0).

(** The labels before the shuffle: [y[start:end] = i] for every center. *)
Definition blob_labels (n_samples n_centers : nat) : list nat :=
  concat (map (fun i => repeat i (nth i (n_samples_per_center n_samples n_centers) 0))
              (seq 0 n_centers)).

(** Sample [s] of center [c]: [normal(loc=centers[c], scale=std)]. *)
Definition blob_point (n_features : nat) (cluster_std : R) (d : BlobDraws)
    (s c : nat) : vec :=
  map (fun k => (center_draw d c k + cluster_std * noise_draw d s k)%R)
      (seq 0 n_features).

(** [make_blobs(n_samples, n_features, centers, cluster_std, random_state)];
    no center at all raises.  Returns [(X, y)]. *)
Definition make_blobs (n_samples n_features centers : nat) (cluster_std : R)
    (d : BlobDraws) : option (list vec * list nat) :=
  if centers =? 0 then None
  else
    let y := blob_labels n_samples centers in
    let X := map (fun sc => blob_point n_features cluster_std d (fst sc) (snd sc))
                 (combine (seq 0 (length y)) y) in
    match sklearn.safe_indexing X (shuffle_draw d),
          sklearn.safe_indexing y (shuffle_draw d) with
    | Some X', Some y' => Some (X', y')
    | _, _ => None
    end.

End datasets.

(** Step 1 of the data cell. *)
Definition blob_data (d : datasets.BlobDraws) : option (list vec * list nat) :=
  datasets.make_blobs NUM_SAMPLES NUM_FEATURES NUM_CLASSES CLUSTER_STD d.

(** ** The spiral dataset of the exercises (code block of exercise 7) *)

Module spiral.
Local Open Scope R_scope.

(** [np.linspace(start, stop, num)]. *)
Definition linspace (start stop : R) (num : nat) : vec :=
  map (fun k => start + INR k * ((stop - start) / INR (num - 1))) (seq 0 num).

(** The points of class [j]: radius [r], angle [t] with the noise
    [randn(N) * 0.2] added, at [(r sin t, r cos t)]. *)
Definition class_points (N j : nat) (randn : nat -> R) : list vec :=
  let r := linspace 0 1 N in
  let t := vadd (linspace (INR (j * 4)) (INR ((j + 1) * 4)) N)
                (map (fun k => randn k * (2 / 10)) (seq 0 N)) in
  zip_with (fun a b => [a; b])
           (zip_with Rmult r (map sin t)) (zip_with Rmult r (map cos t)).

(** The loop [for j in range(K)]: rows [N*j .. N*(j+1)-1] of [X] and [y]
    belong to class [j].  [randn j] is the noise drawn in pass [j].  The
    labels are stored as unsigned bytes ([dtype='uint8']): a class index
    is kept modulo 256.  Returns [(X, y)]. *)
Definition dataset (N K : nat) (randn : nat -> nat -> R) : list vec * list nat :=
  (concat (map (fun j => class_points N j (randn j)) (seq 0 K)),
   concat (map (fun j => repeat (j mod 256)%nat N) (seq 0 K))).

(** The snippet as written: [N = 100], [D = 2], [K = 3]. *)
Definition N : nat := 100.
Definition D : nat := 2.
Definition K : nat := 3.
Definition spiral_data (randn : nat -> nat -> R) : list vec * list nat :=
  dataset N K randn.

End spiral.

(** * Float32 values

    The tensors of the notebook hold binary32 numbers.  Where a statement
    depends on rounding, overflow or NaN, the cell is modelled on binary32
    itself: a value is a [spec_float]; addition, subtraction,
    multiplication, division and comparison are the IEEE 754 operations
    of the standard library at precision 24 and maximal exponent 128;
    [exp] and [log] are the real functions rounded to the nearest
    binary32, ties to even, with the special values of C99 (Annex F).
    The exponential of a kernel may be one unit in the last place away
    from the rounded one; the rows evaluated below need it at [+-0],
    [-inf] and [-2^-40] only, where the kernels agree with it. *)

Module float32.

Definition prec : Z := 24.
Definition emax : Z := 128.
Definition t := spec_float.

Definition zero : t := S754_zero false.
Definition of_Z (n : Z) : t := binary_normalize prec emax n 0 false.
Definition of_nat (n : nat) : t := of_Z (Z.of_nat n).
Definition one : t := of_Z 1.

Definition add : t -> t -> t := SFadd prec emax.
Definition sub : t -> t -> t := SFsub prec emax.
Definition mul : t -> t -> t := SFmul prec emax.
Definition div : t -> t -> t := SFdiv prec emax.
Definition neg : t -> t := SFopp.

Definition is_nan (x : t) : bool :=
  match x with S754_nan => true | _ => false end.

(** The values of binary32 among the [spec_float]: the finite ones carry
    the mantissa and exponent of their normal form. *)
Definition valid (x : t) : bool := SpecFloat.valid_binary prec emax x.

(** The real number a finite value stands for. *)
Definition to_R (x : t) : R :=
  match x with
  | S754_finite s m e => IZR (if s then Z.neg m else Z.pos m) * powerRZ 2 e
  | _ => 0
  end.

(** The rational number a finite value of any precision stands for. *)
Definition to_Q (x : spec_float) : option Q :=
  match x with
  | S754_zero _ => Some 0%Q
  | S754_finite s m e =>
      Some (inject_Z (if s then Z.neg m else Z.pos m) * Qpower 2 e)%Q
  | S754_infinity _ | S754_nan => None
  end.

Definition Zfloor (x : R) : Z := (up x - 1)%Z.

(** The binary magnitude of a positive real:
    [2^(mag a - 1) <= a < 2^(mag a)]. *)
Definition mag (a : R) : Z := (Zfloor (ln a / ln 2) + 1)%Z.

(** Rounding of a real to the nearest binary32, ties to even: the real is
    truncated at the exponent of its binade, and the position of the rest
    with respect to one half decides the direction; [binary_round_aux]
    renormalises and overflows to an infinity. *)
Definition round (x : R) : t :=
  if Req_EM_T x 0 then zero
  else
    let a := Rabs x in
    let e := fexp prec emax (mag a) in
    let scaled := (a * powerRZ 2 (- e))%R in
    let m := Zfloor scaled in
    let rest := (scaled - IZR m)%R in
    let l := match Rcompare rest 0 with
             | Eq => loc_Exact
             | _ => loc_Inexact (Rcompare rest (1 / 2))
             end in
    binary_round_aux prec emax (if Rlt_dec x 0 then true else false) m e l.

(** [expf]: [exp(+-0) = 1], [exp(-inf) = +0], [exp(+inf) = +inf]. *)
Definition exp (x : t) : t :=
  match x with
  | S754_nan => S754_nan
  | S754_infinity false => x
  | S754_infinity true => zero
  | S754_zero _ => one
  | S754_finite _ _ _ => round (Rtrigo_def.exp (to_R x))
  end.

(** [logf]: [log(+-0) = -inf], [log(1) = +0], [log(x) = NaN] for
    [x < 0], [log(+inf) = +inf]. *)
Definition log (x : t) : t :=
  match x with
  | S754_nan => S754_nan
  | S754_zero _ => S754_infinity true
  | S754_infinity false => x
  | S754_infinity true => S754_nan
  | S754_finite true _ _ => S754_nan
  | S754_finite false _ _ =>
      if SFeqb x one then zero else round (ln (to_R x))
  end.

(** [max] as the kernels take it: a NaN wins. *)
Definition maximum (a b : t) : t :=
  if is_nan a then a
  else if is_nan b then b
  else if SFltb a b then b else a.

End float32.

(** ** [torch] on float32 rows

    The kernels of the library, written out for one row.  A reduction
    (maximum, sum) is written as running from the first entry to the
    last; the vectorised kernels combine the entries in another order,
    which gives the same result whenever the partial results are exact,
    as they are in the rows evaluated below. *)

Module torch_float32.
Import float32.

(** [torch.softmax(z, dim=1)]: the maximum is subtracted, the
    exponentials are summed, and every exponential is multiplied by the
    reciprocal of the sum (the CPU kernel; the CUDA kernel divides by the
    sum, which differs by at most one rounding and not at all when the
    sum is a power of two). *)
Definition softmax (z : list t) : list t :=
  match z with
  | [] => []
  | z0 :: z' =>
      let m := fold_left maximum z' z0 in
      let e0 := exp (sub z0 m) in
      let e' := map (fun zi => exp (sub zi m)) z' in
      let r := div one (fold_left add e' e0) in
      map (fun ei => mul ei r) (e0 :: e')
  end.

(** The comparison of the [argmax] reduction: [a], at index [idx_a],
    stays ahead of [b], at index [idx_b], when it is larger, or equal
    with the lower index; a NaN is ahead of every number. *)
Definition greater_or_nan (a b : t) (idx_a idx_b : nat) : bool :=
  if is_nan a then (if is_nan b then idx_a <? idx_b else true)
  else if SFeqb a b then idx_a <? idx_b else SFltb b a.

Fixpoint argmax_scan (best_i : nat) (best : t) (i : nat) (v : list t) : nat :=
  match v with
  | [] => best_i
  | x :: v' =>
      if greater_or_nan best x best_i i then argmax_scan best_i best (S i) v'
      else argmax_scan i x (S i) v'
  end.

(** [tensor.argmax] along a row; a row without entries raises. *)
Definition argmax (v : list t) : option nat :=
  match v with
  | [] => None
  | x :: v' => Some (argmax_scan 0 x 1 v')
  end.

(** [y_pred_probs = torch.softmax(y_logits, dim=1)] and
    [y_preds = y_pred_probs.argmax(dim=1)]. *)
Definition softmax_rows (Z : list (list t)) : list (list t) := map softmax Z.
Definition argmax_rows (P : list (list t)) : option (list nat) := mapM argmax P.

(** [torch.log_softmax]: [(z - max) - log(sum(exp(z - max)))]. *)
Definition log_softmax (z : list t) : list t :=
  match z with
  | [] => []
  | z0 :: z' =>
      let m := fold_left maximum z' z0 in
      let s := fold_left add (map (fun zi => exp (sub zi m)) z')
                         (exp (sub z0 m)) in
      let l := log s in
      map (fun zi => sub (sub zi m) l) z
  end.

Fixpoint nll_terms (logp : list (list t)) (target : list nat)
  : option (list t) :=
  match logp, target with
  | [], [] => Some []
  | r :: logp', c :: target' =>
      match nth_error r c, nll_terms logp' target' with
      | Some x, Some rest => Some (neg x :: rest)
      | _, _ => None
      end
  | _, _ => None
  end.

(** [nn.CrossEntropyLoss()], mean reduction: the terms are summed and the
    sum is divided by their number; for an empty batch that is [0 / 0],
    a NaN.  [None] is a raised error. *)
Definition CrossEntropyLoss (input : list (list t)) (target : list nat)
  : option t :=
  match nll_terms (map log_softmax input) target with
  | Some terms =>
      Some (div (fold_left add terms zero) (of_nat (length terms)))
  | None => None
  end.

(** [nn.Linear] with float32 parameters: [x @ weight.T + bias]. *)
Record Linear := mkLinear {
  in_features : nat;
  out_features : nat;
  weight : list (list t);
  bias : list t
}.

Definition dot (u v : list t) : t :=
  fold_left add (zip_with mul u v) zero.

Definition Linear_forward (l : Linear) (x : list t) : option (list t) :=
  if (length x =? in_features l)%nat
  then Some (zip_with add (map (fun row => dot row x) (weight l)) (bias l))
  else None.

Fixpoint Sequential_forward (m : list Linear) (x : list t) : option (list t) :=
  match m with
  | [] => Some x
  | l :: m' =>
      match Linear_forward l x with
      | Some y => Sequential_forward m' y
      | None => None
      end
  end.

(** The evaluation block of the loop: [test_logits = model_4(X_blob_test)]
    and [test_loss = loss_fn(test_logits, y_blob_test)]. *)
Definition test_loss (m : list Linear) (X_blob_test : list (list t))
    (y_blob_test : list nat) : option t :=
  test_logits <- mapM (Sequential_forward m) X_blob_test ;;
  CrossEntropyLoss test_logits y_blob_test.

End torch_float32.






(** ** The accuracy metrics as floats *)

Module float_metrics.
Import metrics.

(** [torchmetrics.Accuracy()(preds, target)] on integer labels: the
    number of classes is inferred from the largest label, the
    micro-averaged counts are taken over the one-hot matrices, and the
    score is [tp.float() / (tp + fn).float()], a float32 division. *)
Definition Accuracy (preds target : list nat) : option float32.t :=
  if negb (length preds =? length target)%nat then None
  else
    match preds with
    | [] => None
    | _ =>
        let num_classes := Nat.max 2 (S (Nat.max (list_max preds) (list_max target))) in
        let '(tp, fp, tn, fn) :=
          stat_scores (to_onehot preds num_classes) (to_onehot target num_classes) in
        Some (float32.div (float32.of_nat tp) (float32.of_nat (tp + fn)))
    end.

(** [sklearn.metrics.accuracy_score(y_true, y_pred)]: the mean of the
    element-wise comparison, taken in float64: the number of matches
    divided by the number of samples ([0 / 0], a NaN, for empty
    arrays). *)
Definition accuracy_score (y_true y_pred : list nat) : option float :=
  if negb (length y_true =? length y_pred)%nat then None
  else
    let score := zip_with Nat.eqb y_true y_pred in
    Some (PrimFloat.div (sklearn.float_of_nat (count_true score))
                        (sklearn.float_of_nat (length score))).

End float_metrics.

(** [tm_acc = torchmetrics_accuracy(y_preds, y_blob_test)] and the float
    [sk_acc = sklearn.metrics.accuracy_score(y_preds, y_blob_test)]. *)
Definition tm_acc (y_preds y_blob_test : list nat) : option float32.t :=
  float_metrics.Accuracy y_preds y_blob_test.
Definition sk_acc_float (y_preds y_blob_test : list nat) : option float :=
  float_metrics.accuracy_score y_preds y_blob_test.

(** * Properties *)

(** ** Vectors and matrices *)

Module TensorFacts.
Local Open Scope R_scope.

Lemma length_vadd u v : length (vadd u v) = Nat.min (length u) (length v).
Proof.
  revert v. induction u as [|a u IH]; intros [|b v]; simpl; try reflexivity.
  f_equal. apply IH.
Qed.

Lemma length_vscale c v : length (vscale c v) = length v.
Proof. apply length_map. Qed.

Lemma length_zeros n : length (zeros n) = n.
Proof. apply repeat_length. Qed.

Lemma length_mat_vec W x : length (mat_vec W x) = length W.
Proof. apply length_map. Qed.

Lemma vadd_assoc u v w : vadd (vadd u v) w = vadd u (vadd v w).
Proof.
  revert v w. induction u as [|a u IH]; intros [|b v] [|c w]; simpl;
    try reflexivity.
  f_equal; [ring|apply IH].
Qed.

Lemma vadd_zeros_l v : vadd (zeros (length v)) v = v.
Proof.
  induction v as [|a v IH]; simpl; [reflexivity|].
  f_equal; [ring|exact IH].
Qed.

Lemma dot_nil_r u : dot u [] = 0.
Proof. destruct u; reflexivity. Qed.

Lemma dot_zeros_l n x : dot (zeros n) x = 0.
Proof.
  revert x. induction n as [|n IH]; intros [|b x]; simpl; try reflexivity.
  unfold zeros in IH. rewrite IH. ring.
Qed.

Lemma dot_vscale_l c u x : dot (vscale c u) x = c * dot u x.
Proof.
  revert x. induction u as [|a u IH]; intros [|b x]; simpl; try ring.
  unfold vscale in IH. rewrite IH. ring.
Qed.

Lemma dot_vadd_l u v x :
  length u = length v -> dot (vadd u v) x = dot u x + dot v x.
Proof.
  revert v x. induction u as [|a u IH]; intros [|b v] [|c x] H; simpl in *;
    try discriminate; try ring.
  rewrite IH by lia. ring.
Qed.

Lemma dot_vadd_r a u v :
  length u = length v -> dot a (vadd u v) = dot a u + dot a v.
Proof.
  revert u v. induction a as [|c a IH]; intros [|b u] [|d v] H; simpl in *;
    try discriminate; try ring.
  rewrite IH by lia. ring.
Qed.

Lemma length_vec_mat n g W :
  Forall (fun r => length r = n) W -> length (vec_mat n g W) = n.
Proof.
  revert W. induction g as [|a g IH]; intros [|r W] H; simpl;
    try apply length_zeros.
  inversion H; subst.
  rewrite length_vadd, length_vscale, IH by assumption. lia.
Qed.

(** [(g @ W) . x = g . (W @ x)]. *)
Lemma dot_vec_mat n g W x :
  Forall (fun r => length r = n) W ->
  dot (vec_mat n g W) x = dot g (mat_vec W x).
Proof.
  revert W. induction g as [|a g IH]; intros [|r W] H; simpl;
    try apply dot_zeros_l.
  inversion H; subst.
  rewrite dot_vadd_l, dot_vscale_l, IH; try assumption; [reflexivity|].
  rewrite length_vscale, length_vec_mat by assumption. reflexivity.
Qed.

Lemma mat_vec_vadd W u v :
  length u = length v ->
  mat_vec W (vadd u v) = vadd (mat_vec W u) (mat_vec W v).
Proof.
  intros H. induction W as [|r W IH]; simpl; [reflexivity|].
  rewrite dot_vadd_r by assumption. f_equal. exact IH.
Qed.

Lemma mat_vec_mat_mul n A W x :
  Forall (fun r => length r = n) W ->
  mat_vec (mat_mul n A W) x = mat_vec A (mat_vec W x).
Proof.
  intros H. unfold mat_vec, mat_mul. rewrite map_map.
  apply map_ext. intros a. apply dot_vec_mat, H.
Qed.

Lemma has_rows_mat_mul n k A W :
  length A = k -> Forall (fun r => length r = n) W ->
  has_rows k n (mat_mul n A W).
Proof.
  intros HA HW. split.
  - unfold mat_mul. rewrite length_map. exact HA.
  - unfold mat_mul. apply Forall_forall. intros r Hr.
    apply in_map_iff in Hr as (a & <- & _). apply length_vec_mat, HW.
Qed.

End TensorFacts.


(** C1 (as stated, refuted): the layer shapes of [model_4] are not
    (2,8), (8,8), (8,8), (8,8), (8,10): the notebook passes
    [hidden_units = NUM_NODES], and [NUM_NODES] is 4. *)
Lemma model_4_hidden_width_is_not_8 :
  layer_shapes (model_4 (fun _ => 0%R))
  <> [(2, 8); (8, 8); (8, 8); (8, 8); (8, 10)]%nat.
Proof. cbv [layer_shapes model_4 BlobModel_init Linear_init linear_layer_stack
            map shape in_features out_features NUM_FEATURES NUM_CLASSES NUM_NODES].
  discriminate. Qed.

(** C1 (amended): [model_4] is a stack of five linear layers of shapes
    (2,4), (4,4), (4,4), (4,4), (4,K) with K = NUM_CLASSES = 10; a model
    built without the [hidden_units] keyword has hidden width 8. *)
Theorem model_4_layer_shapes (g : Generator) :
  layer_shapes (model_4 g)
    = [(2, 4); (4, 4); (4, 4); (4, 4); (4, NUM_CLASSES)]%nat
  /\ NUM_CLASSES = 10%nat
  /\ layer_shapes (BlobModel_init NUM_FEATURES NUM_CLASSES None g)
    = [(2, 8); (8, 8); (8, 8); (8, 8); (8, NUM_CLASSES)]%nat.
Proof. repeat split. Qed.

(** ** The train/test split *)

Module SplitFacts.
Import sklearn.

Lemma validate_shuffle_split_sizes n ts n_train n_test :
  validate_shuffle_split n ts = Some (n_train, n_test) ->
  (0 < n_train /\ 0 < n_test /\ n_train + n_test = n)%nat.
Proof.
  unfold validate_shuffle_split.
  destruct (_ || _)%bool; [discriminate|].
  destruct (ceil _) as [k|]; [|discriminate].
  destruct (k <=? 0)%Z eqn:Ea; [discriminate|].
  destruct (Z.of_nat n <=? k)%Z eqn:Eb; [discriminate|].
  destruct (Z.of_nat n - k <=? 0)%Z eqn:Ec; [discriminate|].
  simpl. intros H. injection H as <- <-.
  apply Z.leb_gt in Ea, Eb, Ec. lia.
Qed.

Lemma safe_indexing_length {A : Type} (a : list A) idx r :
  safe_indexing a idx = Some r -> length r = length idx.
Proof.
  revert r. induction idx as [|i idx IH]; intros r H; simpl in H.
  - injection H as <-. reflexivity.
  - destruct (nth_error a i); [|discriminate].
    destruct (safe_indexing a idx) as [r'|]; [|discriminate].
    injection H as <-. simpl. f_equal. apply IH. reflexivity.
Qed.

Lemma safe_indexing_total {A : Type} (a : list A) idx :
  Forall (fun i => (i < length a)%nat) idx ->
  exists r, safe_indexing a idx = Some r.
Proof.
  induction 1 as [|i idx Hi _ [r IH]]; simpl.
  - eexists; reflexivity.
  - destruct (nth_error a i) eqn:E.
    + rewrite IH. eexists; reflexivity.
    + apply nth_error_None in E. lia.
Qed.

(** The gathered elements, seen through [nth_error]. *)
Lemma safe_indexing_spec {A : Type} (a : list A) idx r :
  safe_indexing a idx = Some r -> map Some r = map (nth_error a) idx.
Proof.
  revert r. induction idx as [|i idx IH]; intros r H; simpl in H.
  - injection H as <-. reflexivity.
  - destruct (nth_error a i) eqn:E; [|discriminate].
    destruct (safe_indexing a idx) as [r'|]; [|discriminate].
    injection H as <-. simpl. rewrite E. f_equal. apply IH. reflexivity.
Qed.

Lemma safe_indexing_app {A : Type} (a : list A) i1 i2 r1 r2 :
  safe_indexing a i1 = Some r1 -> safe_indexing a i2 = Some r2 ->
  safe_indexing a (i1 ++ i2) = Some (r1 ++ r2).
Proof.
  revert r1. induction i1 as [|i i1 IH]; intros r1 H1 H2; simpl in *.
  - injection H1 as <-. exact H2.
  - destruct (nth_error a i); [|discriminate].
    destruct (safe_indexing a i1) as [r'|]; [|discriminate].
    injection H1 as <-. rewrite (IH r' eq_refl H2). reflexivity.
Qed.

Lemma map_nth_error_seq {A : Type} (a : list A) :
  map (nth_error a) (seq 0 (length a)) = map Some a.
Proof.
  induction a as [|x a IH]; [reflexivity|].
  simpl. f_equal. rewrite <- seq_shift, map_map. exact IH.
Qed.

Lemma map_Some_inj {A : Type} (l1 l2 : list A) :
  map Some l1 = map Some l2 -> l1 = l2.
Proof.
  revert l2. induction l1 as [|x l1 IH]; intros [|y l2] H; simpl in H;
    try discriminate; [reflexivity|].
  injection H as -> H. f_equal. apply IH, H.
Qed.

(** Gathering along a permutation of all the indices permutes the array. *)
Lemma safe_indexing_permutation {A : Type} (a : list A) idx r :
  Permutation idx (seq 0 (length a)) ->
  safe_indexing a idx = Some r -> Permutation r a.
Proof.
  intros Hp Hr. apply safe_indexing_spec in Hr.
  apply (Permutation_map (nth_error a)) in Hp.
  rewrite <- Hr, map_nth_error_seq in Hp.
  apply Permutation_sym, Permutation_map_inv in Hp as (l3 & E & Hp).
  apply map_Some_inj in E. subst l3. exact Hp.
Qed.

(** The two index sets cut the permutation in two. *)
Lemma shuffle_split_indices_app n_train n_test perm :
  length perm = (n_train + n_test)%nat ->
  let '(train, test) := shuffle_split_indices n_train n_test perm in
  test ++ train = perm /\ length train = n_train /\ length test = n_test.
Proof.
  intros Hl. unfold shuffle_split_indices.
  assert (E : firstn n_train (skipn n_test perm) = skipn n_test perm).
  { apply firstn_all2. rewrite length_skipn. lia. }
  rewrite E. split; [apply firstn_skipn|].
  rewrite length_skipn, length_firstn. lia.
Qed.

Lemma permutation_indices_in_range perm n :
  Permutation perm (seq 0 n) -> Forall (fun i => (i < n)%nat) perm.
Proof.
  intros Hp. apply Forall_forall. intros i Hi.
  apply (Permutation_in _ Hp), in_seq in Hi. lia.
Qed.

(** A valid split succeeds, and its parts have the validated sizes. *)
Lemma train_test_split_succeeds {A B : Type} (X : list A) (y : list B)
    ts perm n_train n_test :
  length y = length X ->
  Permutation perm (seq 0 (length X)) ->
  validate_shuffle_split (length X) ts = Some (n_train, n_test) ->
  exists Xtr Xte ytr yte,
    train_test_split X y ts perm = Some (Xtr, Xte, ytr, yte) /\
    length Xtr = n_train /\ length Xte = n_test /\
    length ytr = n_train /\ length yte = n_test.
Proof.
  intros Hy Hp Hv. unfold train_test_split.
  rewrite Hy, Nat.eqb_refl, Hv. simpl negb. cbv iota.
  pose proof (validate_shuffle_split_sizes _ _ _ _ Hv) as (_ & _ & Hsum).
  pose proof (Permutation_length Hp) as Hl. rewrite length_seq in Hl.
  pose proof (shuffle_split_indices_app n_train n_test perm) as Hs.
  destruct (shuffle_split_indices n_train n_test perm) as [train test].
  destruct Hs as (Happ & Hltr & Hlte); [lia|].
  pose proof (permutation_indices_in_range _ _ Hp) as Hr.
  rewrite <- Happ in Hr. apply Forall_app in Hr as [Hte Htr].
  destruct (safe_indexing_total X _ Htr) as [Xtr EXtr].
  destruct (safe_indexing_total X _ Hte) as [Xte EXte].
  rewrite <- Hy in Htr, Hte.
  destruct (safe_indexing_total y _ Htr) as [ytr Eytr].
  destruct (safe_indexing_total y _ Hte) as [yte Eyte].
  rewrite EXtr, EXte, Eytr, Eyte.
  exists Xtr, Xte, ytr, yte.
  rewrite (safe_indexing_length _ _ _ EXtr), (safe_indexing_length _ _ _ EXte),
          (safe_indexing_length _ _ _ Eytr), (safe_indexing_length _ _ _ Eyte).
  repeat split; assumption.
Qed.

(** Gathered samples keep the properties of the samples. *)
Lemma safe_indexing_Forall {A : Type} (P : A -> Prop) (a : list A) idx r :
  Forall P a -> safe_indexing a idx = Some r -> Forall P r.
Proof.
  intros Ha. revert r. induction idx as [|i idx IH]; intros r H; simpl in H.
  - injection H as <-. constructor.
  - destruct (nth_error a i) as [x|] eqn:E; [|discriminate].
    destruct (safe_indexing a idx) as [r'|]; [|discriminate].
    injection H as <-. constructor; [|apply IH; reflexivity].
    rewrite Forall_forall in Ha. apply Ha, (nth_error_In _ _ E).
Qed.

Lemma validate_4000 :
  validate_shuffle_split NUM_SAMPLES TEST_SIZE = Some (3200, 800)%nat.
Proof. vm_compute. reflexivity. Qed.

End SplitFacts.

(** C5: the train and test subsets of a split are disjoint and together
    make up the original sample set.  With [ind_train] and [ind_test] the
    index sets the subsets are gathered from: no index occurs twice or in
    both, every index of the original set occurs in one of them, and the
    subsets, put together, are a rearrangement of the original arrays. *)
Theorem train_test_split_partition {A B : Type} (X : list A) (y : list B)
    (test_size : float) (perm : list nat) Xtr Xte ytr yte :
  Permutation perm (seq 0 (length X)) ->
  sklearn.train_test_split X y test_size perm = Some (Xtr, Xte, ytr, yte) ->
  exists ind_train ind_test,
    sklearn.safe_indexing X ind_train = Some Xtr /\
    sklearn.safe_indexing X ind_test = Some Xte /\
    sklearn.safe_indexing y ind_train = Some ytr /\
    sklearn.safe_indexing y ind_test = Some yte /\
    NoDup (ind_train ++ ind_test) /\
    (forall i, In i ind_train -> ~ In i ind_test) /\
    (forall i, (i < length X)%nat <-> In i ind_train \/ In i ind_test) /\
    Permutation (Xtr ++ Xte) X /\ Permutation (ytr ++ yte) y.
Proof.
  intros Hp H. unfold sklearn.train_test_split in H.
  destruct (length X =? length y)%nat eqn:Hy; [|discriminate].
  apply Nat.eqb_eq in Hy. cbn [negb] in H.
  destruct (sklearn.validate_shuffle_split _ _) as [[n_train n_test]|] eqn:Hv;
    [|discriminate].
  pose proof (SplitFacts.validate_shuffle_split_sizes _ _ _ _ Hv) as (_ & _ & Hsum).
  pose proof (Permutation_length Hp) as Hl. rewrite length_seq in Hl.
  pose proof (SplitFacts.shuffle_split_indices_app n_train n_test perm) as Hs.
  destruct (sklearn.shuffle_split_indices n_train n_test perm) as [train test].
  destruct Hs as (Happ & _ & _); [lia|].
  destruct (sklearn.safe_indexing X train) as [a|] eqn:E1; [|discriminate].
  destruct (sklearn.safe_indexing X test) as [b|] eqn:E2; [|discriminate].
  destruct (sklearn.safe_indexing y train) as [c|] eqn:E3; [|discriminate].
  destruct (sklearn.safe_indexing y test) as [d|] eqn:E4; [|discriminate].
  injection H as <- <- <- <-.
  assert (Hp' : Permutation (train ++ test) (seq 0 (length X))).
  { rewrite <- Hp, <- Happ. apply Permutation_app_comm. }
  assert (Hnd : NoDup (train ++ test)).
  { apply (Permutation_NoDup (Permutation_sym Hp')), seq_NoDup. }
  exists train, test. repeat split; try assumption.
  - intros i Hi Hi'. apply NoDup_app_remove_l in Hnd as Hnd'.
    clear - Hnd Hi Hi'. induction train as [|t train IH]; [destruct Hi|].
    simpl in Hnd. inversion Hnd as [|? ? Hn Hnd']; subst.
    destruct Hi as [->|Hi]; [|auto].
    apply Hn, in_or_app. right. exact Hi'.
  - intros Hi. apply in_app_or. apply (Permutation_in _ (Permutation_sym Hp')).
    apply in_seq. lia.
  - intros Hi. apply in_or_app in Hi. apply (Permutation_in _ Hp'), in_seq in Hi. lia.
  - apply (SplitFacts.safe_indexing_permutation X _ _ Hp').
    apply SplitFacts.safe_indexing_app; assumption.
  - rewrite Hy in Hp'.
    apply (SplitFacts.safe_indexing_permutation y _ _ Hp').
    apply SplitFacts.safe_indexing_app; assumption.
Qed.

(** A split of five samples: one goes to the test set, four to the
    training set. *)
Lemma train_test_split_partition_witness :
  exists ind_train ind_test,
    sklearn.safe_indexing [10; 11; 12; 13; 14]%nat ind_train = Some [11; 14; 13; 10]%nat /\
    sklearn.safe_indexing [10; 11; 12; 13; 14]%nat ind_test = Some [12]%nat /\
    sklearn.safe_indexing [true; false; true; false; true] ind_train
      = Some [false; true; false; true] /\
    sklearn.safe_indexing [true; false; true; false; true] ind_test = Some [true] /\
    NoDup (ind_train ++ ind_test) /\
    (forall i, In i ind_train -> ~ In i ind_test) /\
    (forall i, (i < 5)%nat <-> In i ind_train \/ In i ind_test) /\
    Permutation ([11; 14; 13; 10] ++ [12])%nat [10; 11; 12; 13; 14]%nat /\
    Permutation ([false; true; false; true] ++ [true])
                [true; false; true; false; true].
Proof.
  apply (@train_test_split_partition nat bool [10; 11; 12; 13; 14]%nat
           [true; false; true; false; true] TEST_SIZE [2; 1; 4; 3; 0]%nat).
  - simpl. apply Permutation_sym.
    apply (perm_trans (l' := [1; 0; 2; 3; 4]%nat)); [apply perm_swap|].
    apply (perm_trans (l' := [1; 2; 0; 3; 4]%nat)); [apply perm_skip, perm_swap|].
    apply (perm_trans (l' := [2; 1; 0; 3; 4]%nat)); [apply perm_swap|].
    do 2 apply perm_skip.
    apply (perm_trans (l' := [3; 0; 4]%nat)); [apply perm_swap|].
    apply (perm_trans (l' := [3; 4; 0]%nat)); [apply perm_skip, perm_swap|].
    apply perm_swap.
  - vm_compute. reflexivity.
Defined.

(** C6: with 4000 generated samples and test fraction 0.2 the split
    succeeds and yields exactly 3200 training and 800 test samples, for
    features and labels alike, whatever the generated values and whatever
    the shuffle the seed produces. *)
Theorem blob_split_sizes {A B : Type} (X_blob : list A) (y_blob : list B)
    (perm : list nat) :
  length X_blob = NUM_SAMPLES -> length y_blob = NUM_SAMPLES ->
  Permutation perm (seq 0 NUM_SAMPLES) ->
  exists X_blob_train X_blob_test y_blob_train y_blob_test,
    blob_split X_blob y_blob perm
      = Some (X_blob_train, X_blob_test, y_blob_train, y_blob_test) /\
    length X_blob_train = 3200%nat /\ length X_blob_test = 800%nat /\
    length y_blob_train = 3200%nat /\ length y_blob_test = 800%nat.
Proof.
  intros HX Hy Hp. unfold blob_split.
  apply SplitFacts.train_test_split_succeeds.
  - congruence.
  - rewrite HX. exact Hp.
  - rewrite HX. exact SplitFacts.validate_4000.
Qed.

Lemma blob_split_sizes_witness :
  exists X_blob_train X_blob_test y_blob_train y_blob_test,
    blob_split (repeat [0%R; 0%R] NUM_SAMPLES) (repeat 0%nat NUM_SAMPLES)
               (seq 0 NUM_SAMPLES)
      = Some (X_blob_train, X_blob_test, y_blob_train, y_blob_test) /\
    length X_blob_train = 3200%nat /\ length X_blob_test = 800%nat /\
    length y_blob_train = 3200%nat /\ length y_blob_test = 800%nat.
Proof.
  apply (@blob_split_sizes vec nat).
  - apply repeat_length.
  - apply repeat_length.
  - apply Permutation_refl.
Defined.

(** ** Accuracy metrics *)

Module MetricFacts.
Import metrics.

Lemma count_true_app l1 l2 :
  count_true (l1 ++ l2) = (count_true l1 + count_true l2)%nat.
Proof. unfold count_true. rewrite filter_app, length_app. reflexivity. Qed.

Lemma count_true_all_false {A : Type} (l : list A) :
  count_true (map (fun _ => false) l) = 0%nat.
Proof. induction l; [reflexivity|exact IHl]. Qed.

Lemma zip_with_length {A B C : Type} (f : A -> B -> C) la lb :
  length la = length lb -> length (zip_with f la lb) = length la.
Proof.
  revert lb. induction la as [|a la IH]; intros [|b lb] H; simpl in *;
    try discriminate; [reflexivity|].
  f_equal. apply IH. lia.
Qed.

Lemma zip_with_map_same {A B C D : Type} (h : B -> C -> D) (f : A -> B)
    (g : A -> C) l :
  zip_with h (map f l) (map g l) = map (fun a => h (f a) (g a)) l.
Proof. induction l; simpl; [reflexivity|]. f_equal. exact IHl. Qed.

Lemma zip_with_eqb_sym a b : zip_with Nat.eqb a b = zip_with Nat.eqb b a.
Proof.
  revert b. induction a as [|x a IH]; intros [|y b]; simpl; try reflexivity.
  rewrite Nat.eqb_sym. f_equal. apply IH.
Qed.

(** One column matches a label exactly when the label is in range. *)
Lemma count_hits s len p :
  count_true (map (fun c => c =? p)%nat (seq s len))
  = if ((s <=? p) && (p <? s + len))%nat then 1%nat else 0%nat.
Proof.
  unfold count_true. revert s. induction len as [|len IH]; intros s.
  - cbn [seq map filter length].
    destruct (Nat.leb_spec s p), (Nat.ltb_spec p (s + 0)); cbn [andb];
      try reflexivity; lia.
  - cbn [seq map filter]. destruct (Nat.eqb_spec s p) as [E|E];
      cbn [length]; rewrite IH;
      destruct (Nat.leb_spec (S s) p), (Nat.ltb_spec p (S s + len)),
               (Nat.leb_spec s p), (Nat.ltb_spec p (s + S len));
      cbn [andb]; try reflexivity; lia.
Qed.

(** The cells of one sample: a true positive when the labels agree, a
    false negative when they differ. *)
Lemma row_true_positive C p t :
  (p < C)%nat ->
  count_true (map (fun c => fst c && snd c)
                  (zip_with pair (map (fun c => c =? p)%nat (seq 0 C))
                                 (map (fun c => c =? t)%nat (seq 0 C))))
  = if (p =? t)%nat then 1%nat else 0%nat.
Proof.
  intros Hp. rewrite zip_with_map_same, map_map. simpl.
  destruct (p =? t)%nat eqn:E.
  - apply Nat.eqb_eq in E. subst t.
    rewrite (map_ext _ (fun c => c =? p)%nat) by (intros; apply andb_diag).
    rewrite count_hits.
    replace (p <? 0 + C)%nat with true by (symmetry; apply Nat.ltb_lt; lia).
    reflexivity.
  - apply Nat.eqb_neq in E.
    rewrite (map_ext _ (fun _ => false)); [apply count_true_all_false|].
    intros c. destruct (c =? p)%nat eqn:E1, (c =? t)%nat eqn:E2; try reflexivity.
    apply Nat.eqb_eq in E1, E2. lia.
Qed.

Lemma row_false_negative C p t :
  (t < C)%nat ->
  count_true (map (fun c => negb (fst c) && snd c)
                  (zip_with pair (map (fun c => c =? p)%nat (seq 0 C))
                                 (map (fun c => c =? t)%nat (seq 0 C))))
  = if (p =? t)%nat then 0%nat else 1%nat.
Proof.
  intros Ht. rewrite zip_with_map_same, map_map. simpl.
  destruct (p =? t)%nat eqn:E.
  - apply Nat.eqb_eq in E. subst t.
    rewrite (map_ext _ (fun _ => false)); [apply count_true_all_false|].
    intros c. destruct (c =? p)%nat; reflexivity.
  - apply Nat.eqb_neq in E.
    rewrite (map_ext _ (fun c => c =? t)%nat).
    + rewrite count_hits.
      replace (t <? 0 + C)%nat with true by (symmetry; apply Nat.ltb_lt; lia).
      reflexivity.
    + intros c. destruct (c =? p)%nat eqn:E1, (c =? t)%nat eqn:E2; try reflexivity.
      apply Nat.eqb_eq in E1, E2. lia.
Qed.

(** Over the whole batch: the true positives count the matches, and
    true positives and false negatives together count the samples. *)
Lemma stat_scores_micro C preds target :
  length preds = length target ->
  Forall (fun p => (p < C)%nat) preds -> Forall (fun t => (t < C)%nat) target ->
  let '(tp, _, _, fn) := stat_scores (to_onehot preds C) (to_onehot target C) in
  tp = count_true (zip_with Nat.eqb preds target) /\
  (tp + fn)%nat = length preds.
Proof.
  unfold stat_scores, to_onehot. revert target.
  induction preds as [|p preds IH]; intros [|t target] Hl Hp Ht;
    simpl in Hl; try discriminate.
  - simpl. split; reflexivity.
  - inversion Hp as [|? ? Hp1 Hp2]; inversion Ht as [|? ? Ht1 Ht2]; subst.
    specialize (IH target (eq_add_S _ _ Hl) Hp2 Ht2).
    cbn [map zip_with concat] in *.
    rewrite !map_app, !count_true_app.
    rewrite (row_true_positive C p t Hp1), (row_false_negative C p t Ht1).
    destruct IH as [IH1 IH2]. split.
    + rewrite IH1. unfold count_true. cbn [filter].
      destruct (p =? t)%nat; cbn [length]; lia.
    + cbn [length]. rewrite <- IH2. destruct (p =? t)%nat; lia.
Qed.

Lemma labels_below_num_classes preds target :
  let C := Nat.max 2 (S (Nat.max (list_max preds) (list_max target))) in
  Forall (fun p => (p < C)%nat) preds /\ Forall (fun t => (t < C)%nat) target.
Proof.
  intros C. split; apply Forall_forall; intros x Hx.
  - assert (H : (x <= list_max preds)%nat).
    { pose proof (proj1 (list_max_le preds (list_max preds)) (Nat.le_refl _)) as F.
      rewrite Forall_forall in F. apply F, Hx. }
    subst C. lia.
  - assert (H : (x <= list_max target)%nat).
    { pose proof (proj1 (list_max_le target (list_max target)) (Nat.le_refl _)) as F.
      rewrite Forall_forall in F. apply F, Hx. }
    subst C. lia.
Qed.

End MetricFacts.

(** ** The model: shapes and the forward pass *)

Module ModelFacts.
Import TensorFacts.
Local Open Scope R_scope.

Lemma length_draw_vec g pos n : length (draw_vec g pos n) = n.
Proof. unfold draw_vec. rewrite length_map, length_seq. reflexivity. Qed.

Lemma has_rows_draw_mat g pos rows cols :
  has_rows rows cols (draw_mat g pos rows cols).
Proof.
  unfold draw_mat. split.
  - rewrite length_map, length_seq. reflexivity.
  - apply Forall_forall. intros r Hr.
    apply in_map_iff in Hr as (i & <- & _). apply length_draw_vec.
Qed.

Lemma Linear_init_wf in_f out_f g pos :
  let l := fst (Linear_init in_f out_f g pos) in
  in_features l = in_f /\ out_features l = out_f /\ wf_linear l.
Proof.
  simpl. repeat split; simpl.
  - apply has_rows_draw_mat.
  - apply has_rows_draw_mat.
  - apply length_draw_vec.
Qed.

(** A freshly built model has the shapes its constructor was given. *)
Lemma BlobModel_init_wf i o h g :
  wf_stack i o (linear_layer_stack (BlobModel_init i o (Some h) g)).
Proof.
  unfold BlobModel_init, Linear_init. cbn [linear_layer_stack wf_stack].
  unfold wf_linear. cbn [in_features out_features weight bias].
  repeat split; try apply has_rows_draw_mat; apply length_draw_vec.
Qed.

Lemma model_4_wf g : wf_model (model_4 g).
Proof. apply BlobModel_init_wf. Qed.

Lemma length_Linear_apply l x :
  wf_linear l -> length (Linear_apply l x) = out_features l.
Proof.
  intros [[Hw _] Hb]. unfold Linear_apply.
  rewrite length_vadd, length_mat_vec, Hw, Hb. apply Nat.min_id.
Qed.

(** On inputs of the right width the forward pass of a well-shaped stack
    returns, and its result has the output width. *)
Lemma Sequential_forward_total n_in n_out m x :
  wf_stack n_in n_out m -> length x = n_in ->
  exists z, Sequential_forward m x = Some z /\ length z = n_out.
Proof.
  revert n_in x. induction m as [|l m IH]; intros n_in x Hwf Hx; simpl in *.
  - exists x. split; [reflexivity|congruence].
  - destruct Hwf as (Hin & Hl & Hm). unfold Linear_forward.
    rewrite Hx, Hin, Nat.eqb_refl.
    apply (IH (out_features l)); [exact Hm|].
    apply length_Linear_apply, Hl.
Qed.

(** The checked forward pass agrees with the unchecked fold of
    [Linear_apply] whenever it returns. *)
Lemma Sequential_forward_fold m x z :
  Sequential_forward m x = Some z ->
  z = fold_left (fun a l => Linear_apply l a) m x.
Proof.
  revert x. induction m as [|l m IH]; intros x H; simpl in *.
  - congruence.
  - unfold Linear_forward in H.
    destruct (length x =? in_features l)%nat; [|discriminate].
    apply IH, H.
Qed.

Lemma mapM_total {A B : Type} (f : A -> option B) (P : A -> Prop) (Q : B -> Prop) l :
  (forall a, P a -> exists b, f a = Some b /\ Q b) ->
  Forall P l ->
  exists r, mapM f l = Some r /\ length r = length l /\ Forall Q r.
Proof.
  intros Hf. induction 1 as [|a l Ha _ (r & Hr & Hlen & HQ)]; simpl.
  - exists []. repeat split. constructor.
  - destruct (Hf a Ha) as (b & Hb & Qb). rewrite Hb, Hr.
    exists (b :: r). repeat split; simpl; [congruence|constructor; assumption].
Qed.

Lemma mapM_length {A B : Type} (f : A -> option B) l r :
  mapM f l = Some r -> length r = length l.
Proof.
  revert r. induction l as [|a l IH]; intros r H; simpl in H.
  - injection H as <-. reflexivity.
  - destruct (f a); [|discriminate]. destruct (mapM f l); [|discriminate].
    injection H as <-. simpl. f_equal. apply IH. reflexivity.
Qed.

Lemma mapM_nth_error {A B : Type} (f : A -> option B) l r n b :
  mapM f l = Some r -> nth_error r n = Some b ->
  exists a, nth_error l n = Some a /\ f a = Some b.
Proof.
  revert r n. induction l as [|a l IH]; intros r n H Hn; simpl in H.
  - injection H as <-. destruct n; discriminate.
  - destruct (f a) as [b'|] eqn:E; [|discriminate].
    destruct (mapM f l) as [r'|]; [|discriminate].
    injection H as <-. destruct n as [|n]; simpl in *.
    + injection Hn as <-. exists a. split; [reflexivity|exact E].
    + apply (IH r' n eq_refl Hn).
Qed.



(** Pushing an affine map through the remaining layers keeps it affine. *)
Lemma fold_compose_affine m n k n_out W b :
  has_rows k n W -> length b = k -> wf_stack k n_out m ->
  let Wb := fold_left (compose_affine n) m (W, b) in
  has_rows n_out n (fst Wb) /\ length (snd Wb) = n_out /\
  forall x, length x = n ->
    Sequential_forward m (vadd (mat_vec W x) b)
    = Some (vadd (mat_vec (fst Wb) x) (snd Wb)).
Proof.
  revert k W b. induction m as [|l m IH]; intros k W b HW Hb Hwf; simpl in *.
  - subst n_out. repeat split; try apply HW; assumption.
  - destruct Hwf as (Hin & [[Hwl Hrl] Hbl] & Hm).
    destruct HW as [HWl HWr].
    specialize (IH (out_features l) (mat_mul n (weight l) W)
                   (vadd (mat_vec (weight l) b) (bias l))).
    destruct IH as (H1 & H2 & H3).
    + apply has_rows_mat_mul; assumption.
    + rewrite length_vadd, length_mat_vec, Hwl, Hbl. apply Nat.min_id.
    + exact Hm.
    + change (compose_affine n (W, b) l)
        with (mat_mul n (weight l) W, vadd (mat_vec (weight l) b) (bias l)).
      repeat split; try apply H1; try exact H2.
      intros x Hx. unfold Linear_forward.
      rewrite length_vadd, length_mat_vec, HWl, Hb, Nat.min_id, Hin, Nat.eqb_refl.
      etransitivity; [|apply (H3 x Hx)]. f_equal. unfold Linear_apply.
      rewrite mat_vec_vadd by (rewrite length_mat_vec; congruence).
      rewrite <- (mat_vec_mat_mul n) by exact HWr.
      apply vadd_assoc.
Qed.

End ModelFacts.

(** C4: no nonlinearity sits between the five linear layers, so the
    forward function of a well-shaped model is one affine map from R^2 to
    R^K: the matrix [W] (K rows of width 2, the product of the five weight
    matrices) and the bias [b] (width K) computed by [single_affine]
    satisfy forward(x) = W x + b for every input x of width 2. *)
Theorem forward_is_single_affine_map (m : BlobModel) :
  wf_model m ->
  exists W b,
    single_affine (linear_layer_stack m) = Some (W, b) /\
    has_rows NUM_CLASSES NUM_FEATURES W /\ length b = NUM_CLASSES /\
    forall x, length x = NUM_FEATURES ->
      BlobModel_forward m x = Some (vadd (mat_vec W x) b).
Proof.
  unfold wf_model, BlobModel_forward.
  destruct (linear_layer_stack m) as [|l rest]; simpl.
  - intros H. discriminate H.
  - intros (Hin & [HW Hb] & Hrest).
    rewrite Hin in *.
    pose proof (ModelFacts.fold_compose_affine rest NUM_FEATURES (out_features l)
                  NUM_CLASSES (weight l) (bias l) HW Hb Hrest) as H.
    cbv zeta in H. destruct H as (H1 & H2 & H3).
    destruct (fold_left _ rest _) as [W b] eqn:E. cbn [fst snd] in *.
    exists W, b. repeat split; try apply H1; try exact H2.
    intros x Hx. unfold Linear_forward.
    rewrite Hx, Hin, Nat.eqb_refl. apply H3, Hx.
Qed.

(** The freshly built notebook model, all draws equal to zero. *)
Lemma forward_is_single_affine_map_witness :
  exists W b,
    single_affine (linear_layer_stack (model_4 (fun _ => 0%R))) = Some (W, b) /\
    has_rows NUM_CLASSES NUM_FEATURES W /\ length b = NUM_CLASSES /\
    forall x, length x = NUM_FEATURES ->
      BlobModel_forward (model_4 (fun _ => 0%R)) x = Some (vadd (mat_vec W x) b).
Proof.
  apply (forward_is_single_affine_map (model_4 (fun _ => 0%R))).
  apply ModelFacts.model_4_wf.
Defined.

(** ** Softmax and argmax *)

Module SoftmaxFacts.
Local Open Scope R_scope.

Lemma vsum_exp_nonneg z : 0 <= vsum (map exp z).
Proof.
  induction z as [|a z IH]; simpl; [lra|].
  pose proof (exp_pos a). lra.
Qed.

Lemma vsum_exp_pos z : z <> [] -> 0 < vsum (map exp z).
Proof.
  destruct z as [|a z]; [contradiction|]. intros _. simpl.
  pose proof (exp_pos a). pose proof (vsum_exp_nonneg z). lra.
Qed.

Lemma exp_le_vsum_exp z x : In x z -> exp x <= vsum (map exp z).
Proof.
  induction z as [|a z IH]; [contradiction|]. intros [->|H]; simpl.
  - pose proof (vsum_exp_nonneg z). lra.
  - specialize (IH H). pose proof (exp_pos a). lra.
Qed.


Lemma length_softmax z : length (softmax z) = length z.
Proof. apply length_map. Qed.



(** Each softmax entry is an increasing function of its logit. *)
Lemma softmax_scale_increasing total x y :
  0 < total -> (x < y <-> exp x / total < exp y / total).
Proof.
  intros Ht. split; intros H.
  - apply Rmult_lt_compat_r; [apply Rinv_0_lt_compat, Ht|apply exp_increasing, H].
  - apply exp_lt_inv. apply (Rmult_lt_reg_r (/ total));
      [apply Rinv_0_lt_compat, Ht|exact H].
Qed.

(** The scan makes the same choices on a row and on its image under an
    increasing function. *)
Lemma argmax_scan_increasing (f : R -> R) :
  (forall x y, x < y <-> f x < f y) ->
  forall v best_i best i,
    argmax_scan best_i (f best) i (map f v) = argmax_scan best_i best i v.
Proof.
  intros Hf. induction v as [|x v IH]; intros best_i best i; simpl;
    [reflexivity|].
  destruct (Rlt_dec (f best) (f x)) as [H|H], (Rlt_dec best x) as [H'|H'].
  - apply IH.
  - exfalso. apply H', (proj2 (Hf best x)), H.
  - exfalso. apply H, (proj1 (Hf best x)), H'.
  - apply IH.
Qed.

Lemma argmax_softmax z : argmax (softmax z) = argmax z.
Proof.
  destruct z as [|x z]; [reflexivity|].
  unfold softmax. set (total := vsum (map exp (x :: z))).
  assert (Ht : 0 < total) by (apply vsum_exp_pos; discriminate).
  cbn [map argmax]. f_equal.
  apply (argmax_scan_increasing (fun zi => exp zi / total)).
  intros a b. apply softmax_scale_increasing, Ht.
Qed.

Lemma argmax_scan_first_max v :
  forall pre best_i best,
    first_max_at pre best_i best ->
    exists x, first_max_at (pre ++ v) (argmax_scan best_i best (length pre) v) x.
Proof.
  induction v as [|x v IH]; intros pre best_i best (Hn & Hmax & Hfirst).
  - simpl. rewrite app_nil_r. exists best. repeat split; assumption.
  - assert (Hlt : (best_i < length pre)%nat)
      by (apply nth_error_Some; congruence).
    assert (Hsplit : pre ++ x :: v = (pre ++ [x]) ++ v)
      by (rewrite <- app_assoc; reflexivity).
    assert (Hlen : S (length pre) = length (pre ++ [x]))
      by (rewrite length_app; simpl; lia).
    simpl. rewrite Hsplit, Hlen.
    destruct (Rlt_dec best x) as [H|H]; apply IH.
    + repeat split.
      * rewrite nth_error_app2, Nat.sub_diag by lia. reflexivity.
      * intros j y Hj. destruct (Nat.lt_ge_cases j (length pre)) as [Hjl|Hjl].
        -- rewrite nth_error_app1 in Hj by exact Hjl.
           specialize (Hmax j y Hj). lra.
        -- rewrite nth_error_app2 in Hj by exact Hjl.
           destruct (j - length pre)%nat as [|[|?]]; simpl in Hj;
             try discriminate. injection Hj as <-. lra.
      * intros j y Hjl Hj. rewrite nth_error_app1 in Hj by exact Hjl.
        specialize (Hmax j y Hj). lra.
    + repeat split.
      * rewrite nth_error_app1 by exact Hlt. exact Hn.
      * intros j y Hj. destruct (Nat.lt_ge_cases j (length pre)) as [Hjl|Hjl].
        -- rewrite nth_error_app1 in Hj by exact Hjl. apply (Hmax j y Hj).
        -- rewrite nth_error_app2 in Hj by exact Hjl.
           destruct (j - length pre)%nat as [|[|?]]; simpl in Hj;
             try discriminate. injection Hj as <-. lra.
      * intros j y Hjl Hj. rewrite nth_error_app1 in Hj by lia.
        apply (Hfirst j y Hjl Hj).
Qed.

(** [argmax] returns the index of the first maximal entry. *)
Lemma argmax_first_max v i : argmax v = Some i -> first_max v i.
Proof.
  destruct v as [|x v]; [discriminate|]. intros H. injection H as <-.
  destruct (argmax_scan_first_max v [x] 0%nat x) as (y & Hy).
  - repeat split.
    + intros [|[|j]] y Hj; simpl in Hj; try discriminate.
      injection Hj as <-. lra.
    + intros j y Hj. lia.
  - exists y. exact Hy.
Qed.

Lemma argmax_total v : v <> [] -> exists i, argmax v = Some i.
Proof. destruct v; [contradiction|]. intros _. eexists. reflexivity. Qed.

(** Two indices of a first maximum coincide. *)
Lemma first_max_unique v i j : first_max v i -> first_max v j -> i = j.
Proof.
  intros (x & Hx & Hxm & Hxf) (y & Hy & Hym & Hyf).
  destruct (Nat.lt_trichotomy i j) as [H|[H|H]]; [|exact H|].
  - pose proof (Hyf i x H Hx). pose proof (Hxm j y Hy). lra.
  - pose proof (Hxf j y H Hy). pose proof (Hym i x Hx). lra.
Qed.

End SoftmaxFacts.



(** ** Shapes of gradients and of the updated model *)

Module ShapeFacts.
Import TensorFacts ModelFacts.
Local Open Scope R_scope.

Lemma length_madd A B : length (madd A B) = Nat.min (length A) (length B).
Proof.
  revert B. induction A as [|r A IH]; intros [|s B]; simpl; try reflexivity.
  f_equal. apply IH.
Qed.

Lemma Forall_madd c A B :
  Forall (fun r => length r = c) A -> Forall (fun r => length r = c) B ->
  Forall (fun r => length r = c) (madd A B).
Proof.
  intros HA. revert B. induction HA as [|r A Hr HA IH]; intros B HB.
  - constructor.
  - destruct HB as [|s B Hs HB]; simpl; constructor.
    + rewrite length_vadd, Hr, Hs. apply Nat.min_id.
    + apply IH, HB.
Qed.

Lemma has_rows_madd r c A B :
  has_rows r c A -> has_rows r c B -> has_rows r c (madd A B).
Proof.
  intros [HA1 HA2] [HB1 HB2]. split.
  - rewrite length_madd, HA1, HB1. apply Nat.min_id.
  - apply Forall_madd; assumption.
Qed.

Lemma has_rows_mscale r c k A : has_rows r c A -> has_rows r c (mscale k A).
Proof.
  intros [H1 H2]. unfold mscale. split.
  - rewrite length_map. exact H1.
  - apply Forall_forall. intros x Hx. apply in_map_iff in Hx as (y & <- & Hy).
    rewrite length_vscale. rewrite Forall_forall in H2. apply H2, Hy.
Qed.

Lemma has_rows_mzeros r c : has_rows r c (mzeros r c).
Proof.
  unfold mzeros. split.
  - apply repeat_length.
  - apply Forall_forall. intros x Hx. apply repeat_spec in Hx. subst x.
    apply length_zeros.
Qed.

Lemma has_rows_outer g x : has_rows (length g) (length x) (outer g x).
Proof.
  unfold outer. split.
  - apply length_map.
  - apply Forall_forall. intros r Hr. apply in_map_iff in Hr as (a & <- & _).
    apply length_vscale.
Qed.

Lemma Forall_zip_with_outer r c G A :
  Forall (fun g => length g = r) G -> Forall (fun x => length x = c) A ->
  Forall (has_rows r c) (zip_with outer G A).
Proof.
  intros HG. revert A. induction HG as [|g G Hg HG IH]; intros A HA.
  - constructor.
  - destruct HA as [|x A Hx HA]; simpl; constructor.
    + rewrite <- Hg, <- Hx. apply has_rows_outer.
    + apply IH, HA.
Qed.

Lemma has_rows_sum r c Ms :
  Forall (has_rows r c) Ms -> has_rows r c (fold_right madd (mzeros r c) Ms).
Proof.
  induction 1 as [|M Ms HM _ IH]; simpl.
  - apply has_rows_mzeros.
  - apply has_rows_madd; assumption.
Qed.

Lemma length_vsum_rows n G :
  Forall (fun g => length g = n) G -> length (fold_right vadd (zeros n) G) = n.
Proof.
  induction 1 as [|g G Hg _ IH]; simpl.
  - apply length_zeros.
  - rewrite length_vadd, Hg, IH. apply Nat.min_id.
Qed.

Lemma Linear_backward_shapes l A G :
  wf_linear l ->
  Forall (fun g => length g = out_features l) G ->
  Forall (fun x => length x = in_features l) A ->
  grad_like l (fst (Linear_backward l A G)) /\
  Forall (fun x => length x = in_features l) (snd (Linear_backward l A G)).
Proof.
  intros [[_ Hw] _] HG HA. unfold Linear_backward, grad_like. cbn [fst snd].
  repeat split.
  - apply has_rows_sum, Forall_zip_with_outer; assumption.
  - apply has_rows_sum, Forall_zip_with_outer; assumption.
  - apply length_vsum_rows, HG.
  - apply Forall_forall. intros x Hx. apply in_map_iff in Hx as (g & <- & _).
    apply length_vec_mat, Hw.
Qed.

Lemma length_onehot n t : length (onehot n t) = n.
Proof. unfold onehot. rewrite length_map, length_seq. reflexivity. Qed.

Lemma softmax_minus_onehot_shapes n c Z y :
  Forall (fun z => length z = n) Z ->
  Forall (fun g => length g = n)
    (zip_with (fun z t => vscale c (vsub (softmax z) (onehot (length z) t))) Z y).
Proof.
  intros HZ. revert y. induction HZ as [|z Z Hz _ IH]; intros [|t y]; simpl;
    constructor.
  - unfold vsub. rewrite length_vscale, length_vadd, length_vscale.
    unfold softmax. rewrite length_map, length_onehot, Hz. apply Nat.min_id.
  - apply IH.
Qed.

Lemma CrossEntropyLoss_backward_shapes n Z y :
  Forall (fun z => length z = n) Z ->
  Forall (fun g => length g = n) (CrossEntropyLoss_backward Z y).
Proof. apply softmax_minus_onehot_shapes. Qed.

Lemma Sequential_backward_shapes m :
  forall n_in n_out A dloss,
    wf_stack n_in n_out m ->
    Forall (fun x => length x = n_in) A ->
    (forall Z, Forall (fun z => length z = n_out) Z ->
               Forall (fun g => length g = n_out) (dloss Z)) ->
    Forall2 grad_like m (fst (Sequential_backward m A dloss)) /\
    Forall (fun g => length g = n_in) (snd (Sequential_backward m A dloss)).
Proof.
  induction m as [|l m IH]; intros n_in n_out A dloss Hwf HA Hd;
    cbn [Sequential_backward wf_stack] in *.
  - subst n_out. split; [constructor|apply Hd, HA].
  - destruct Hwf as (Hin & Hl & Hm).
    specialize (IH (out_features l) n_out (map (Linear_apply l) A) dloss Hm).
    destruct IH as [IH1 IH2]; [|exact Hd|].
    { apply Forall_forall. intros x Hx. apply in_map_iff in Hx as (a & <- & _).
      apply length_Linear_apply, Hl. }
    destruct (Sequential_backward m (map (Linear_apply l) A) dloss) as [gs G].
    cbn [fst snd] in *. rewrite <- Hin in HA.
    pose proof (Linear_backward_shapes l A G Hl IH2 HA) as [H1 H2].
    destruct (Linear_backward l A G) as [g gin]. cbn [fst snd] in *.
    rewrite <- Hin. split; [constructor; assumption|exact H2].
Qed.

Lemma gradient_shapes m n_in n_out X y :
  wf_stack n_in n_out m -> Forall (fun x => length x = n_in) X ->
  Forall2 grad_like m (gradient m X y).
Proof.
  intros Hwf HX. unfold gradient.
  apply (Sequential_backward_shapes m n_in n_out); try assumption.
  intros Z HZ. apply CrossEntropyLoss_backward_shapes, HZ.
Qed.

Lemma update_layer_wf lr l g :
  wf_linear l -> grad_like l g -> wf_linear (update_layer lr l g).
Proof.
  intros [HW Hb] [Hgw Hgb]. unfold update_layer, wf_linear.
  cbn [in_features out_features weight bias]. split.
  - apply has_rows_madd; [exact HW|apply has_rows_mscale, Hgw].
  - rewrite length_vadd, length_vscale, Hb, Hgb. apply Nat.min_id.
Qed.

Lemma SGD_step_wf lr m :
  forall n_in n_out gs,
    wf_stack n_in n_out m -> Forall2 grad_like m gs ->
    wf_stack n_in n_out (SGD_step lr m gs).
Proof.
  induction m as [|l m IH]; intros n_in n_out gs Hwf Hg.
  - inversion Hg; subst. exact Hwf.
  - inversion Hg as [|? g ? gs' Hlg Hrest]; subst.
    destruct Hwf as (Hin & Hl & Hm). cbn [SGD_step wf_stack].
    split; [exact Hin|]. split; [apply (update_layer_wf lr l g Hl Hlg)|].
    apply IH; assumption.
Qed.

Lemma gradient_descent_step_wf lr X y m n_in n_out :
  wf_stack n_in n_out m -> Forall (fun x => length x = n_in) X ->
  wf_stack n_in n_out (gradient_descent_step lr X y m).
Proof.
  intros Hwf HX. apply SGD_step_wf; [exact Hwf|].
  apply (gradient_shapes m n_in n_out X y Hwf HX).
Qed.

End ShapeFacts.

(** ** The cross-entropy loss *)

Module LossFacts.
Import TensorFacts SoftmaxFacts.
Local Open Scope R_scope.

Lemma ln_monotone x y : 0 < x -> x <= y -> ln x <= ln y.
Proof.
  intros Hx [H| ->]; [|lra]. left. apply ln_increasing; assumption.
Qed.

(** Log-probabilities are never positive. *)
Lemma log_softmax_entry_nonpos z t x :
  nth_error (log_softmax z) t = Some x -> x <= 0.
Proof.
  unfold log_softmax. rewrite nth_error_map.
  destruct (nth_error z t) as [zt|] eqn:E; [|discriminate].
  intros H. injection H as <-. apply nth_error_In in E.
  pose proof (exp_le_vsum_exp z zt E) as Hle.
  pose proof (ln_monotone _ _ (exp_pos zt) Hle) as Hln.
  rewrite ln_exp in Hln. lra.
Qed.

Lemma length_log_softmax z : length (log_softmax z) = length z.
Proof. apply length_map. Qed.

Lemma nll_terms_nonneg Z y terms :
  nll_terms (map log_softmax Z) y = Some terms ->
  Forall (fun t => 0 <= t) terms /\ length terms = length Z.
Proof.
  revert y terms. induction Z as [|z Z IH]; intros [|t y] terms H; simpl in H;
    try discriminate.
  - injection H as <-. split; [constructor|reflexivity].
  - destruct (nth_error (log_softmax z) t) as [x|] eqn:E; [|discriminate].
    destruct (nll_terms (map log_softmax Z) y) as [rest|] eqn:E'; [|discriminate].
    injection H as <-. destruct (IH y rest E') as [H1 H2]. split.
    + constructor; [|exact H1].
      pose proof (log_softmax_entry_nonpos z t x E). lra.
    + simpl. f_equal. exact H2.
Qed.



Lemma nll_terms_total n Z y :
  length Z = length y ->
  Forall (fun z => length z = n) Z -> Forall (fun t => (t < n)%nat) y ->
  exists terms, nll_terms (map log_softmax Z) y = Some terms.
Proof.
  intros Hl HZ. revert y Hl. induction HZ as [|z Z Hz _ IH];
    intros [|t y] Hl Hy; simpl in Hl; try discriminate.
  - exists []. reflexivity.
  - inversion Hy as [|? ? Ht Hy']; subst.
    destruct (IH y (eq_add_S _ _ Hl) Hy') as [rest Hrest].
    simpl. rewrite Hrest.
    destruct (nth_error (log_softmax z) t) as [x|] eqn:E.
    + eexists. reflexivity.
    + apply nth_error_None in E. rewrite length_log_softmax in E. lia.
Qed.

(** On a non-empty batch of rows of width [n] with labels below [n] the
    loss is a number. *)
Lemma CrossEntropyLoss_total n Z y :
  Z <> [] -> length Z = length y ->
  Forall (fun z => length z = n) Z -> Forall (fun t => (t < n)%nat) y ->
  exists loss, CrossEntropyLoss Z y = Some loss.
Proof.
  intros Hne Hl HZ Hy. unfold CrossEntropyLoss.
  destruct (nll_terms_total n Z y Hl HZ Hy) as [terms E]. rewrite E.
  destruct (nll_terms_nonneg Z y terms E) as [_ Hlen].
  destruct terms as [|a terms].
  - destruct Z; [contradiction|discriminate].
  - eexists. reflexivity.
Qed.

End LossFacts.

(** ** The training loop *)

Module TrainFacts.
Import TensorFacts ModelFacts SoftmaxFacts ShapeFacts LossFacts.
Local Open Scope R_scope.

Lemma vadd_zero_like (u v : vec) :
  length u = length v -> vadd (map (fun _ => 0) u) v = v.
Proof.
  revert v. induction u as [|a u IH]; intros [|b v] H; simpl in *;
    try discriminate; [reflexivity|].
  f_equal; [ring|apply IH; lia].
Qed.

Lemma madd_zero_like c (A B : mat) :
  length A = length B ->
  Forall (fun r => length r = c) A -> Forall (fun r => length r = c) B ->
  madd (map (map (fun _ => 0)) A) B = B.
Proof.
  intros Hl HA. revert B Hl. induction HA as [|r A Hr _ IH];
    intros [|s B] Hl HB; simpl in *; try discriminate; [reflexivity|].
  inversion HB; subst. f_equal.
  - apply vadd_zero_like. congruence.
  - apply IH; [lia|assumption].
Qed.

(** After [zero_grad], the buffers hold exactly the gradient the next
    backward pass computes: nothing is left over from earlier epochs. *)
Lemma accumulate_zero_grad set_to_none m old new :
  (forall o, old = Some o -> Forall2 grad_like m o) ->
  Forall2 grad_like m new ->
  accumulate (zero_grad set_to_none old) new = new.
Proof.
  intros Hold Hnew. destruct set_to_none; [reflexivity|].
  destruct old as [o|]; [|reflexivity].
  specialize (Hold o eq_refl). unfold zero_grad, option_map, accumulate.
  revert o new Hold Hnew. induction m as [|l m IH]; intros o new Ho Hn.
  - inversion Ho; inversion Hn; subst. reflexivity.
  - inversion Ho as [|? g ? o' [Hg1 Hg2] Ho']; subst.
    inversion Hn as [|? g' ? new' [Hn1 Hn2] Hn']; subst.
    cbn [map zip_with fst snd]. f_equal; [|apply IH; assumption].
    destruct g' as [gw gb]. cbn [fst snd] in *. f_equal.
    + destruct Hg1 as [Ha Hb], Hn1 as [Hc Hd].
      apply (madd_zero_like (in_features l)); try assumption. congruence.
    + apply vadd_zero_like. congruence.
Qed.

(** The update keeps the shapes the gradients are measured against. *)
Lemma grad_like_after_step lr m gs gs' :
  Forall2 grad_like m gs -> Forall2 grad_like m gs' ->
  Forall2 grad_like (SGD_step lr m gs') gs.
Proof.
  intros H. revert gs'. induction H as [|l g m gs Hg _ IH]; intros gs' H'.
  - inversion H'; subst. constructor.
  - inversion H' as [|? g' ? gs'' _ Hrest]; subst. simpl.
    constructor; [exact Hg|apply IH, Hrest].
Qed.

(** Forward pass, predictions and loss of a well-shaped model on a
    well-shaped batch all return. *)
Lemma evaluate_batch m X y :
  wf_stack NUM_FEATURES NUM_CLASSES m -> wf_batch X y ->
  exists logits pred loss,
    mapM (Sequential_forward m) X = Some logits /\
    argmax_rows (softmax_rows logits) = Some pred /\
    CrossEntropyLoss logits y = Some loss.
Proof.
  intros Hwf (Hne & Hlen & HX & Hy).
  destruct (mapM_total (Sequential_forward m)
              (fun x => length x = NUM_FEATURES)
              (fun z => length z = NUM_CLASSES) X)
    as (logits & Hlog & Hl & Hz); [|exact HX|].
  { intros x Hx. apply (Sequential_forward_total _ _ _ _ Hwf Hx). }
  destruct (mapM_total argmax (fun p => p <> []) (fun _ => True)
              (map softmax logits)) as (pred & Hpred & _).
  { intros p Hp. destruct (argmax_total p Hp) as [i Hi].
    exists i. split; [exact Hi|exact I]. }
  { apply Forall_forall. intros p Hp.
    apply in_map_iff in Hp as (z & <- & Hin).
    rewrite Forall_forall in Hz. specialize (Hz z Hin).
    intros E. apply (f_equal (@length R)) in E.
    rewrite length_softmax, Hz in E. discriminate E. }
  destruct (CrossEntropyLoss_total NUM_CLASSES logits y) as [loss Hloss];
    try assumption.
  { intros ->. destruct X; [contradiction|discriminate]. }
  { etransitivity; [exact Hl|exact Hlen]. }
  exists logits, pred, loss. repeat split; assumption.
Qed.

Lemma training_step_spec set_to_none X y s :
  wf_model (model s) ->
  (forall o, grads s = Some o -> Forall2 grad_like (linear_layer_stack (model s)) o) ->
  wf_batch X y ->
  exists y_logits loss,
    mapM (Sequential_forward (linear_layer_stack (model s))) X = Some y_logits /\
    CrossEntropyLoss y_logits y = Some loss /\
    training_step set_to_none X y s
    = Some (mkSession
              (mkBlobModel
                 (gradient_descent_step LEARNING_RATE X y
                    (linear_layer_stack (model s))) true)
              (Some (gradient (linear_layer_stack (model s)) X y))
              (stdout s),
            loss).
Proof.
  intros Hwf Hg Hb.
  destruct (evaluate_batch _ X y Hwf Hb) as (logits & pred & loss & H1 & H2 & H3).
  exists logits, loss. split; [exact H1|]. split; [exact H3|].
  unfold training_step, BlobModel_call, loss_fn.
  change (BlobModel_forward (BlobModel_train (model s)))
    with (Sequential_forward (linear_layer_stack (model s))).
  rewrite H1, H2, H3.
  cbn [BlobModel_train linear_layer_stack training].
  rewrite (accumulate_zero_grad set_to_none (linear_layer_stack (model s))).
  - reflexivity.
  - exact Hg.
  - destruct Hb as (_ & _ & HX & _).
    apply (gradient_shapes _ _ _ X y Hwf HX).
Qed.

Lemma testing_step_spec X y epoch loss s :
  wf_model (model s) -> wf_batch X y ->
  exists test_logits test_loss,
    mapM (Sequential_forward (linear_layer_stack (model s))) X = Some test_logits /\
    CrossEntropyLoss test_logits y = Some test_loss /\
    testing_step X y epoch loss s
    = Some (mkSession (BlobModel_eval (model s)) (grads s)
                      (stdout s ++ [(epoch, loss, test_loss)])).
Proof.
  intros Hwf Hb.
  destruct (evaluate_batch _ X y Hwf Hb) as (logits & pred & tl & H1 & H2 & H3).
  exists logits, tl. split; [exact H1|]. split; [exact H3|].
  unfold testing_step, BlobModel_call, loss_fn.
  change (BlobModel_forward (BlobModel_eval (model s)))
    with (Sequential_forward (linear_layer_stack (model s))).
  rewrite H1, H2, H3. reflexivity.
Qed.

End TrainFacts.

Module FitFacts.
Import TensorFacts ModelFacts ShapeFacts LossFacts TrainFacts.

Section Loop.

Variable set_to_none : bool.
Variables (X : list vec) (y : list nat) (Xt : list vec) (yt : list nat).
Variable m0 : BlobModel.
Hypothesis m0_wf : wf_model m0.
Hypothesis train_wf : wf_batch X y.
Hypothesis test_wf : wf_batch Xt yt.

Local Abbreviation gd := (gradient_descent_step LEARNING_RATE X y).
Local Abbreviation body := (epoch_body set_to_none X y Xt yt).
Local Abbreviation stack0 := (linear_layer_stack m0).

Lemma iterate_wf k : wf_stack NUM_FEATURES NUM_CLASSES (Nat.iter k gd stack0).
Proof.
  induction k as [|k IH]; [exact m0_wf|].
  cbn [Nat.iter nat_rect]. apply gradient_descent_step_wf; [exact IH|].
  apply train_wf.
Qed.

Lemma for_range_S k (f : nat -> Session -> option Session) s :
  for_range (S k) f s = (s' <- for_range k f s ;; f k s').
Proof.
  unfold for_range. rewrite seq_S, fold_left_app. reflexivity.
Qed.

(** One pass of the loop body: the layers take one gradient-descent
    step; a line is printed exactly when the epoch is a multiple of 100. *)
Lemma epoch_body_spec epoch s :
  wf_model (model s) ->
  (forall o, grads s = Some o -> Forall2 grad_like (linear_layer_stack (model s)) o) ->
  exists s',
    body epoch s = Some s' /\
    linear_layer_stack (model s') = gd (linear_layer_stack (model s)) /\
    (forall o, grads s' = Some o ->
               Forall2 grad_like (linear_layer_stack (model s')) o) /\
    (if reporting_epoch epoch
     then exists line,
         stdout s' = stdout s ++ [line] /\
         reported X y Xt yt epoch (linear_layer_stack (model s))
                  (gd (linear_layer_stack (model s))) line
     else stdout s' = stdout s).
Proof.
  intros Hwf Hg.
  destruct (training_step_spec set_to_none X y s Hwf Hg train_wf)
    as (y_logits & loss & Hlog & Hloss & Hstep).
  unfold epoch_body. rewrite Hstep. cbn [fst snd].
  set (s1 := mkSession _ _ _).
  assert (Hwf1 : wf_model (model s1)).
  { apply gradient_descent_step_wf; [exact Hwf|apply train_wf]. }
  assert (Hg1 : forall o, grads s1 = Some o ->
                          Forall2 grad_like (linear_layer_stack (model s1)) o).
  { intros o Ho. injection Ho as <-.
    destruct train_wf as (_ & _ & HX & _).
    apply grad_like_after_step; apply (gradient_shapes _ _ _ X y Hwf HX). }
  unfold reporting_epoch. destruct (epoch mod 100 =? 0)%nat.
  - destruct (testing_step_spec Xt yt epoch loss s1 Hwf1 test_wf)
      as (test_logits & test_loss & Htl & Htloss & Htest).
    rewrite Htest. eexists. split; [reflexivity|].
    split; [reflexivity|]. split; [exact Hg1|].
    exists (epoch, loss, test_loss). split; [reflexivity|].
    exists y_logits, test_logits, loss, test_loss.
    repeat split; assumption.
  - exists s1. repeat split. exact Hg1.
Qed.

(** The state after the first [k] epochs. *)
Lemma for_range_prefix k :
  exists s,
    for_range k body (mkSession m0 None []) = Some s /\
    linear_layer_stack (model s) = Nat.iter k gd stack0 /\
    (forall o, grads s = Some o ->
               Forall2 grad_like (linear_layer_stack (model s)) o) /\
    Forall2 (fun e line =>
               reported X y Xt yt e (Nat.iter e gd stack0)
                        (Nat.iter (S e) gd stack0) line)
            (filter reporting_epoch (seq 0 k)) (stdout s).
Proof.
  induction k as [|k (s & Hs & Hstack & Hg & Hout)].
  - exists (mkSession m0 None []). repeat split.
    + intros o Ho. discriminate Ho.
    + constructor.
  - assert (Hwf : wf_model (model s)).
    { unfold wf_model. rewrite Hstack. apply iterate_wf. }
    destruct (epoch_body_spec k s Hwf Hg) as (s' & Hbody & Hstack' & Hg' & Hline).
    exists s'. rewrite for_range_S, Hs. split; [exact Hbody|].
    split; [rewrite Hstack', Hstack; reflexivity|]. split; [exact Hg'|].
    rewrite seq_S, filter_app. cbn [filter Nat.add].
    unfold reporting_epoch at 2. unfold reporting_epoch in Hline.
    destruct (k mod 100 =? 0)%nat.
    + destruct Hline as (line & Hl & Hrep). rewrite Hl.
      apply Forall2_app; [exact Hout|]. constructor; [|constructor].
      rewrite Hstack in Hrep. exact Hrep.
    + rewrite Hline, app_nil_r. exact Hout.
Qed.

End Loop.

End FitFacts.

(** ** Entries of the updated parameters, and the printed epochs *)

Module UpdateFacts.
Import TensorFacts.
Local Open Scope R_scope.

Lemma nth_error_vadd u v i :
  nth_error (vadd u v) i
  = match nth_error u i, nth_error v i with
    | Some a, Some b => Some (a + b)
    | _, _ => None
    end.
Proof.
  revert v i. induction u as [|a u IH]; intros [|b v] [|i]; simpl;
    try reflexivity.
  - destruct (nth_error u i); reflexivity.
  - apply IH.
Qed.

Lemma nth_error_madd A B i :
  nth_error (madd A B) i
  = match nth_error A i, nth_error B i with
    | Some a, Some b => Some (vadd a b)
    | _, _ => None
    end.
Proof.
  revert B i. induction A as [|a A IH]; intros [|b B] [|i]; simpl;
    try reflexivity.
  - destruct (nth_error A i); reflexivity.
  - apply IH.
Qed.

(** Entry by entry, the update is [p - lr * grad]. *)
Lemma entry_update lr W G i j w dw :
  entry W i j = Some w -> entry G i j = Some dw ->
  entry (madd W (mscale (- lr) G)) i j = Some (w - lr * dw).
Proof.
  unfold entry, mscale, vscale. rewrite nth_error_madd, nth_error_map.
  destruct (nth_error W i) as [r|]; [|discriminate].
  destruct (nth_error G i) as [g|]; [|discriminate].
  intros Hw Hg. cbn [option_map].
  rewrite nth_error_vadd, nth_error_map, Hw, Hg. cbn [option_map].
  f_equal. ring.
Qed.

Lemma bias_update lr (b g : vec) i x dx :
  nth_error b i = Some x -> nth_error g i = Some dx ->
  nth_error (vadd b (vscale (- lr) g)) i = Some (x - lr * dx).
Proof.
  intros Hb Hg. unfold vscale.
  rewrite nth_error_vadd, nth_error_map, Hb, Hg. cbn [option_map].
  f_equal. ring.
Qed.

Lemma nth_error_SGD_step lr m gs k l g :
  nth_error m k = Some l -> nth_error gs k = Some g ->
  nth_error (SGD_step lr m gs) k = Some (update_layer lr l g).
Proof.
  revert gs k. induction m as [|l' m IH]; intros [|g' gs] [|k] Hm Hg;
    simpl in *; try discriminate.
  - congruence.
  - apply IH; assumption.
Qed.

Lemma seq_from a n : seq a n = map (fun i => (a + i)%nat) (seq 0 n).
Proof.
  revert a. induction n as [|n IH]; intros a; [reflexivity|].
  cbn [seq map]. rewrite Nat.add_0_r. f_equal.
  rewrite <- (seq_shift n 0), map_map, (IH (S a)).
  apply map_ext. intros i. lia.
Qed.

(** Among the first [100 * q] epochs, [q] are reporting epochs. *)
Lemma reporting_epochs_block q :
  filter reporting_epoch (seq (100 * q) 100) = [(100 * q)%nat].
Proof.
  replace (seq (100 * q) 100) with (map (fun i => (100 * q + i)%nat) (seq 0 100)).
  - assert (H : forall l,
      filter reporting_epoch (map (fun i => (100 * q + i)%nat) l)
      = map (fun i => (100 * q + i)%nat) (filter reporting_epoch l)).
    { induction l as [|i l IH]; [reflexivity|]. cbn [map filter].
      assert (E : reporting_epoch (100 * q + i) = reporting_epoch i).
      { unfold reporting_epoch. f_equal.
        rewrite Nat.add_comm, Nat.mul_comm. apply Nat.Div0.mod_add. }
      rewrite E. destruct (reporting_epoch i); cbn [map]; rewrite IH; reflexivity. }
    rewrite H.
    replace (filter reporting_epoch (seq 0 100)) with [0%nat] by reflexivity.
    cbn [map]. f_equal. lia.
  - symmetry. apply seq_from.
Qed.

Lemma reporting_epochs_count q :
  length (filter reporting_epoch (seq 0 (100 * q))) = q.
Proof.
  induction q as [|q IH]; [reflexivity|].
  replace (100 * S q)%nat with (100 * q + 100)%nat by lia.
  rewrite seq_app, filter_app, length_app, IH. cbn [Nat.add].
  rewrite reporting_epochs_block. cbn [length]. lia.
Qed.

Lemma NUM_EPOCHS_blocks : N.to_nat NUM_EPOCHS = (100 * 1500)%nat.
Proof. unfold NUM_EPOCHS. lia. Qed.


(** The printed lines carry, in order, the epochs they report. *)
Lemma reported_epochs X y Xt yt (before after : nat -> Sequential) es lines :
  Forall2 (fun e line => reported X y Xt yt e (before e) (after e) line) es lines ->
  map (fun line : nat * R * R => fst (fst line)) lines = es.
Proof.
  induction 1 as [|e line es lines Hrep _ IH]; [reflexivity|].
  destruct Hrep as (? & ? & ? & ? & _ & _ & _ & _ & ->).
  cbn [map fst]. f_equal. exact IH.
Qed.

End UpdateFacts.

(** ** The backward pass computes the gradient of the loss *)

Module GradientFacts.
Import TensorFacts ModelFacts SoftmaxFacts ShapeFacts LossFacts UpdateFacts.
Local Open Scope R_scope.

Lemma derivable_pt_lim_eq (f g : R -> R) x l :
  (forall t, f t = g t) -> derivable_pt_lim f x l -> derivable_pt_lim g x l.
Proof.
  intros E H eps Heps. destruct (H eps Heps) as [delta Hd].
  exists delta. intros h Hh Hlt. rewrite <- !E. apply Hd; assumption.
Qed.

(** An affine function of the parameter. *)
Lemma derivable_affine a b t0 t :
  derivable_pt_lim (fun t => a + (t - t0) * b) t b.
Proof.
  intros eps Heps. exists (mkposreal 1 Rlt_0_1). intros h Hh _.
  replace ((a + (t + h - t0) * b - (a + (t - t0) * b)) / h - b) with 0
    by (field; exact Hh).
  rewrite Rabs_R0. exact Heps.
Qed.

Lemma vadd_vscale_zero (z d : vec) :
  length z = length d -> vadd z (vscale 0 d) = z.
Proof.
  revert d. induction z as [|a z IH]; intros [|b d] H; simpl in *;
    try discriminate; [reflexivity|].
  f_equal; [ring|apply IH; lia].
Qed.

(** The sum of exponentials along a line through [z] in direction [d]. *)
Lemma derivable_sum_exp (z d : vec) t0 :
  length z = length d ->
  derivable_pt_lim (fun t => vsum (map exp (vadd z (vscale (t - t0) d)))) t0
                   (dot (map exp z) d).
Proof.
  revert d. induction z as [|a z IH]; intros [|b d] H; simpl in *;
    try discriminate.
  - apply derivable_pt_lim_const.
  - apply (derivable_pt_lim_plus
             (fun t => exp (a + (t - t0) * b))
             (fun t => vsum (map exp (vadd z (vscale (t - t0) d))))).
    + replace (exp a * b) with (exp (a + (t0 - t0) * b) * b)
        by (f_equal; f_equal; ring).
      apply (derivable_pt_lim_comp (fun t => a + (t - t0) * b) exp).
      * apply derivable_affine.
      * apply derivable_pt_lim_exp.
    + apply IH. lia.
Qed.

Lemma nth_vadd_vscale (z d : vec) s t :
  length z = length d ->
  nth t (vadd z (vscale s d)) 0 = nth t z 0 + s * nth t d 0.
Proof.
  revert d t. induction z as [|a z IH]; intros [|b d] t H; simpl in *;
    try discriminate.
  - destruct t; ring.
  - destruct t as [|t]; [reflexivity|]. apply IH. lia.
Qed.

Lemma dot_comm u v : dot u v = dot v u.
Proof.
  revert v. induction u as [|a u IH]; intros [|b v]; simpl; try reflexivity.
  rewrite IH. ring.
Qed.

Lemma dot_map_div (f : R -> R) c z d :
  dot (map (fun x => f x / c) z) d = dot (map f z) d / c.
Proof.
  revert d. induction z as [|a z IH]; intros [|b d]; simpl;
    try (unfold Rdiv; ring).
  rewrite IH. unfold Rdiv. ring.
Qed.

Lemma dot_onehot_from s n t d :
  length d = n ->
  dot (map (fun j => if (j =? t)%nat then 1 else 0) (seq s n)) d
  = if ((s <=? t) && (t <? s + n))%nat then nth (t - s) d 0 else 0.
Proof.
  revert s d. induction n as [|n IH]; intros s [|b d] H; simpl in H;
    try discriminate.
  - simpl. destruct (Nat.leb_spec s t), (Nat.ltb_spec t (s + 0)); cbn [andb];
      try reflexivity; lia.
  - cbn [seq map dot]. rewrite (IH (S s) d) by lia.
    destruct (Nat.eqb_spec s t) as [E|E];
      destruct (Nat.leb_spec (S s) t), (Nat.ltb_spec t (S s + n)),
               (Nat.leb_spec s t), (Nat.ltb_spec t (s + S n));
      cbn [andb]; try lia;
      first [ ring
            | subst t; rewrite Nat.sub_diag; simpl; ring
            | replace (t - s)%nat with (S (t - S s)) by lia; simpl; ring ].
Qed.

Lemma dot_onehot n t d :
  length d = n -> (t < n)%nat -> dot (onehot n t) d = nth t d 0.
Proof.
  intros Hd Ht. unfold onehot. rewrite (dot_onehot_from 0 n t d Hd).
  replace (t <? 0 + n)%nat with true by (symmetry; apply Nat.ltb_lt; lia).
  simpl. rewrite Nat.sub_0_r. reflexivity.
Qed.

(** The loss of one sample along a line of logits: its derivative is the
    softmax minus the one-hot label, paired with the direction. *)
Lemma derivable_sample_loss (z d : vec) t t0 :
  length z = length d -> (t < length z)%nat ->
  derivable_pt_lim (fun s => sample_loss (vadd z (vscale (s - t0) d)) t) t0
                   (dot (vsub (softmax z) (onehot (length z) t)) d).
Proof.
  intros Hl Ht. unfold sample_loss.
  assert (Hz : z <> []) by (intros ->; simpl in Ht; lia).
  pose proof (vsum_exp_pos z Hz) as Hpos.
  replace (dot (vsub (softmax z) (onehot (length z) t)) d)
    with (/ vsum (map exp z) * dot (map exp z) d - nth t d 0).
  - apply (derivable_pt_lim_minus
             (fun s => ln (vsum (map exp (vadd z (vscale (s - t0) d)))))
             (fun s => nth t (vadd z (vscale (s - t0) d)) 0)).
    + apply (derivable_pt_lim_comp
               (fun s => vsum (map exp (vadd z (vscale (s - t0) d)))) ln).
      * apply derivable_sum_exp, Hl.
      * replace (t0 - t0) with 0 by ring. rewrite vadd_vscale_zero by exact Hl.
        apply derivable_pt_lim_ln, Hpos.
    + apply (derivable_pt_lim_eq (fun s => nth t z 0 + (s - t0) * nth t d 0)).
      * intros s. symmetry. apply nth_vadd_vscale, Hl.
      * apply derivable_affine.
  - unfold vsub. rewrite dot_vadd_l.
    + rewrite dot_vscale_l, dot_onehot by (try lia; congruence).
      unfold softmax. rewrite (dot_map_div exp). unfold Rdiv. ring.
    + rewrite length_vscale, length_softmax, length_onehot. reflexivity.
Qed.

Lemma length_shift A s D : length A = length D -> length (shift A s D) = length A.
Proof. apply MetricFacts.zip_with_length. Qed.

Lemma Forall_shift n A s D :
  Forall (fun a => length a = n) A -> Forall (fun d => length d = n) D ->
  Forall (fun a => length a = n) (shift A s D).
Proof.
  intros HA. revert D. induction HA as [|a A Ha _ IH]; intros D HD.
  - constructor.
  - destruct HD as [|d D Hd HD]; simpl; constructor.
    + rewrite length_vadd, length_vscale, Ha, Hd. apply Nat.min_id.
    + apply IH, HD.
Qed.

(** The loss in closed form: the mean of the per-sample losses. *)
Lemma nll_terms_closed n Z y :
  length Z = length y ->
  Forall (fun z => length z = n) Z -> Forall (fun t => (t < n)%nat) y ->
  nll_terms (map log_softmax Z) y = Some (zip_with sample_loss Z y).
Proof.
  intros Hl HZ. revert y Hl. induction HZ as [|z Z Hz _ IH];
    intros [|t y] Hl Hy; simpl in Hl; try discriminate; [reflexivity|].
  inversion Hy as [|? ? Ht Hy']; subst.
  cbn [map nll_terms zip_with]. rewrite (IH y) by (try lia; assumption).
  unfold log_softmax at 1. rewrite nth_error_map.
  destruct (nth_error z t) as [x|] eqn:E.
  - cbn [option_map]. f_equal. f_equal. unfold sample_loss.
    rewrite (nth_error_nth _ _ 0 E). ring.
  - apply nth_error_None in E. lia.
Qed.

Lemma CrossEntropyLoss_closed n Z y :
  Z <> [] -> length Z = length y ->
  Forall (fun z => length z = n) Z -> Forall (fun t => (t < n)%nat) y ->
  CrossEntropyLoss Z y
  = Some (vsum (zip_with sample_loss Z y) / INR (length Z)).
Proof.
  intros Hne Hl HZ Hy. unfold CrossEntropyLoss.
  rewrite (nll_terms_closed n Z y Hl HZ Hy).
  pose proof (MetricFacts.zip_with_length sample_loss Z y Hl) as Hlen.
  destruct (zip_with sample_loss Z y) as [|a terms] eqn:E.
  - destruct Z; [contradiction|discriminate].
  - rewrite Hlen. reflexivity.
Qed.

(** The sum of the per-sample losses, each weighted by [c], along a line
    of logit batches. *)
Lemma derivable_batch_loss n c Z D y t0 :
  length Z = length D -> length Z = length y ->
  Forall (fun z => length z = n) Z -> Forall (fun d => length d = n) D ->
  Forall (fun t => (t < n)%nat) y ->
  derivable_pt_lim
    (fun s => vsum (zip_with (fun z t => c * sample_loss z t)
                             (shift Z (s - t0) D) y)) t0
    (vsum (zip_with dot
             (zip_with (fun z t => vscale c (vsub (softmax z) (onehot (length z) t)))
                       Z y) D)).
Proof.
  intros HlD Hly HZ. revert D y HlD Hly.
  induction HZ as [|z Z Hz _ IH]; intros [|d D] [|t y] HlD Hly HD Hy;
    simpl in HlD, Hly; try discriminate.
  - simpl. apply derivable_pt_lim_const.
  - inversion HD as [|? ? Hd HD']; inversion Hy as [|? ? Ht Hy']; subst.
    cbn [shift zip_with vsum fold_right].
    apply (derivable_pt_lim_plus
             (fun s => c * sample_loss (vadd z (vscale (s - t0) d)) t)
             (fun s => vsum (zip_with (fun z t => c * sample_loss z t)
                                      (shift Z (s - t0) D) y))).
    + rewrite dot_vscale_l.
      apply (derivable_pt_lim_scal
               (fun s => sample_loss (vadd z (vscale (s - t0) d)) t)).
      apply derivable_sample_loss; [congruence|lia].
    + apply IH; try assumption; lia.
Qed.

Lemma vsum_zip_scale {A B : Type} (f : A -> B -> R) c la lb :
  vsum (zip_with (fun a b => c * f a b) la lb) = c * vsum (zip_with f la lb).
Proof.
  revert lb. induction la as [|a la IH]; intros [|b lb]; simpl; try ring.
  rewrite IH. ring.
Qed.

Lemma loss_value_nil n (Z : list vec) y :
  Z <> [] -> length Z = length y ->
  Forall (fun z => length z = n) Z -> Forall (fun t => (t < n)%nat) y ->
  loss_value [] Z y = vsum (zip_with sample_loss Z y) / INR (length Z).
Proof.
  intros Hne Hl HZ Hy. unfold loss_value.
  assert (E : mapM (Sequential_forward []) Z = Some Z).
  { clear. induction Z as [|z Z IH]; [reflexivity|].
    cbn [mapM]. rewrite IH. reflexivity. }
  rewrite E, (CrossEntropyLoss_closed n Z y Hne Hl HZ Hy). reflexivity.
Qed.

Lemma mapM_forward_cons l m X :
  Forall (fun x => length x = in_features l) X ->
  mapM (Sequential_forward (l :: m)) X
  = mapM (Sequential_forward m) (map (Linear_apply l) X).
Proof.
  induction 1 as [|x X Hx _ IH]; [reflexivity|].
  cbn [mapM map]. rewrite IH. cbn [Sequential_forward].
  unfold Linear_forward at 1. rewrite Hx, Nat.eqb_refl. reflexivity.
Qed.

Lemma loss_value_cons l m X y :
  Forall (fun x => length x = in_features l) X ->
  loss_value (l :: m) X y = loss_value m (map (Linear_apply l) X) y.
Proof.
  intros H. unfold loss_value. rewrite (mapM_forward_cons l m X H). reflexivity.
Qed.

Lemma dot_vscale_r c u v : dot u (vscale c v) = c * dot u v.
Proof. rewrite dot_comm, dot_vscale_l, dot_comm. reflexivity. Qed.

Lemma mat_vec_vscale W s d : mat_vec W (vscale s d) = vscale s (mat_vec W d).
Proof.
  unfold mat_vec, vscale. rewrite map_map. apply map_ext.
  intros row. apply dot_vscale_r.
Qed.

Lemma vadd_swap u v b : vadd (vadd u v) b = vadd (vadd u b) v.
Proof.
  revert v b. induction u as [|a u IH]; intros [|c v] [|e b]; simpl;
    try reflexivity.
  f_equal; [ring|apply IH].
Qed.

(** A linear layer maps a line of inputs to a line of outputs. *)
Lemma Linear_apply_shift l a s d :
  length a = length d ->
  Linear_apply l (vadd a (vscale s d))
  = vadd (Linear_apply l a) (vscale s (mat_vec (weight l) d)).
Proof.
  intros H. unfold Linear_apply.
  rewrite mat_vec_vadd by (rewrite length_vscale; exact H).
  rewrite mat_vec_vscale. apply vadd_swap.
Qed.

Lemma map_Linear_apply_shift n l A s D :
  Forall (fun a => length a = n) A -> Forall (fun d => length d = n) D ->
  map (Linear_apply l) (shift A s D)
  = shift (map (Linear_apply l) A) s (map (mat_vec (weight l)) D).
Proof.
  intros HA. revert D. induction HA as [|a A Ha _ IH]; intros D HD.
  - reflexivity.
  - destruct HD as [|d D Hd HD]; [reflexivity|].
    cbn [shift zip_with map]. f_equal.
    + apply Linear_apply_shift. congruence.
    + apply IH, HD.
Qed.

Lemma Sequential_backward_cons l m A dloss :
  let A' := map (Linear_apply l) A in
  let G := snd (Sequential_backward m A' dloss) in
  Sequential_backward (l :: m) A dloss
  = (fst (Linear_backward l A G) :: fst (Sequential_backward m A' dloss),
     map (fun g => vec_mat (in_features l) g (weight l)) G).
Proof.
  intros A' G. subst A' G. cbn [Sequential_backward].
  destruct (Sequential_backward m (map (Linear_apply l) A) dloss) as [gs G].
  reflexivity.
Qed.

(** Transposition under the sum over the batch. *)
Lemma vsum_dot_vec_mat n W G D :
  Forall (fun r => length r = n) W ->
  vsum (zip_with dot (map (fun g => vec_mat n g W) G) D)
  = vsum (zip_with dot G (map (mat_vec W) D)).
Proof.
  intros HW. revert D. induction G as [|g G IH]; intros [|d D]; simpl;
    try reflexivity.
  rewrite IH, (dot_vec_mat n g W d HW). reflexivity.
Qed.

(** The loss along a line of input batches: its derivative pairs the
    input gradients of the backward pass with the direction. *)
Lemma loss_along_inputs m :
  forall n_in n_out A D y t0,
    wf_stack n_in n_out m ->
    A <> [] -> length A = length D -> length A = length y ->
    Forall (fun a => length a = n_in) A ->
    Forall (fun d => length d = n_in) D ->
    Forall (fun t => (t < n_out)%nat) y ->
    derivable_pt_lim
      (fun t => loss_value m (shift A (t - t0) D) y) t0
      (vsum (zip_with dot
               (snd (Sequential_backward m A
                       (fun Z => CrossEntropyLoss_backward Z y))) D)).
Proof.
  induction m as [|l m IH]; intros n_in n_out A D y t0 Hwf Hne HlD Hly HA HD Hy.
  - cbn [wf_stack] in Hwf. subst n_out. cbn [Sequential_backward snd].
    unfold CrossEntropyLoss_backward.
    apply (derivable_pt_lim_eq
             (fun s => vsum (zip_with (fun z t => / INR (length A) * sample_loss z t)
                                      (shift A (s - t0) D) y))).
    + intros s. rewrite (loss_value_nil n_in).
      * rewrite vsum_zip_scale, length_shift by exact HlD. apply Rmult_comm.
      * intros E. apply (f_equal (@length vec)) in E.
        rewrite length_shift in E by exact HlD.
        destruct A; [contradiction|discriminate].
      * rewrite length_shift by exact HlD. exact Hly.
      * apply Forall_shift; assumption.
      * exact Hy.
    + apply (derivable_batch_loss n_in); assumption.
  - cbn [wf_stack] in Hwf. destruct Hwf as (Hin & Hl & Hm).
    rewrite Sequential_backward_cons. cbn [snd].
    destruct Hl as [[HWl HWr] Hb].
    rewrite (vsum_dot_vec_mat (in_features l)) by exact HWr.
    apply (derivable_pt_lim_eq
             (fun t => loss_value m
                         (shift (map (Linear_apply l) A) (t - t0)
                                (map (mat_vec (weight l)) D)) y)).
    + intros t. rewrite loss_value_cons.
      * rewrite (map_Linear_apply_shift n_in); [reflexivity|assumption|assumption].
      * rewrite Hin. apply Forall_shift; assumption.
    + apply (IH (out_features l) n_out).
      * exact Hm.
      * intros E. apply map_eq_nil in E. contradiction.
      * rewrite !length_map. exact HlD.
      * rewrite length_map. exact Hly.
      * apply Forall_forall. intros x Hx. apply in_map_iff in Hx as (a & <- & _).
        apply length_Linear_apply. split; [split|]; assumption.
      * apply Forall_forall. intros x Hx. apply in_map_iff in Hx as (d & <- & _).
        rewrite length_mat_vec. exact HWl.
      * exact Hy.
Qed.

Lemma map_set_nth {A B : Type} (f : A -> B) i a l :
  map f (set_nth i a l) = set_nth i (f a) (map f l).
Proof.
  revert i. induction l as [|x l IH]; intros [|i]; simpl; try reflexivity.
  f_equal. apply IH.
Qed.

Lemma length_set_nth {A : Type} i (a : A) l : length (set_nth i a l) = length l.
Proof.
  revert i. induction l as [|x l IH]; intros [|i]; simpl; try reflexivity.
  f_equal. apply IH.
Qed.

(** Changing one coefficient of a row changes the dot product by the
    change times the matching entry of the other vector. *)
Lemma dot_set_nth row j t w x :
  nth_error row j = Some w ->
  dot (set_nth j t row) x = dot row x + (t - w) * nth j x 0.
Proof.
  revert j x. induction row as [|a row IH]; intros [|j] [|b x] H; simpl in *;
    try discriminate; try ring.
  - injection H as ->. ring.
  - rewrite (IH j x H). ring.
Qed.

Lemma map_const_seq {A : Type} (c : A) s n :
  map (fun _ => c) (seq s n) = repeat c n.
Proof.
  revert s. induction n as [|n IH]; intros s; [reflexivity|].
  cbn [seq map repeat]. f_equal. apply IH.
Qed.

Lemma onehot_S_O n : onehot (S n) 0 = 1 :: zeros n.
Proof.
  unfold onehot, zeros. cbn [seq map Nat.eqb]. f_equal.
  rewrite <- seq_shift, map_map. cbn [Nat.eqb]. apply map_const_seq.
Qed.

Lemma onehot_S_S n i : onehot (S n) (S i) = 0 :: onehot n i.
Proof.
  unfold onehot. cbn [seq map Nat.eqb]. f_equal.
  rewrite <- seq_shift, map_map. reflexivity.
Qed.

Lemma vadd_vscale_zeros (v : vec) c : vadd v (vscale c (zeros (length v))) = v.
Proof.
  induction v as [|a v IH]; simpl; [reflexivity|].
  f_equal; [ring|exact IH].
Qed.

(** Adding [delta] at position [i] adds [delta] times the unit vector. *)
Lemma set_nth_plus_onehot (v : vec) i vi delta :
  nth_error v i = Some vi ->
  set_nth i (vi + delta) v = vadd v (vscale delta (onehot (length v) i)).
Proof.
  revert i. induction v as [|a v IH]; intros [|i] H; simpl in H;
    try discriminate.
  - injection H as ->. cbn [length]. rewrite onehot_S_O.
    cbn [set_nth vscale map vadd]. f_equal; [ring|].
    symmetry. apply vadd_vscale_zeros.
  - cbn [length]. rewrite onehot_S_S.
    cbn [set_nth vscale map vadd]. f_equal; [ring|].
    apply IH, H.
Qed.

Lemma vscale_vscale a b v : vscale a (vscale b v) = vscale (a * b) v.
Proof.
  unfold vscale. rewrite map_map. apply map_ext. intros x. ring.
Qed.

(** One weight entry moved from [w] to [t]: the output of the layer moves
    along the unit vector of the row, by [t - w] times the input entry. *)
Lemma Linear_apply_set_weight_entry l i j w t x :
  wf_linear l -> entry (weight l) i j = Some w ->
  Linear_apply (set_weight_entry i j t l) x
  = vadd (Linear_apply l x)
         (vscale (t - w) (vscale (nth j x 0) (onehot (out_features l) i))).
Proof.
  intros [[HWl _] _] He. unfold Linear_apply, set_weight_entry, set_entry, entry in *.
  cbn [weight bias].
  destruct (nth_error (weight l) i) as [row|] eqn:Er; [|discriminate].
  unfold mat_vec. rewrite map_set_nth, (dot_set_nth row j t w x He).
  rewrite (set_nth_plus_onehot _ i (dot row x)).
  - rewrite length_map, HWl, vscale_vscale. apply vadd_swap.
  - rewrite nth_error_map, Er. reflexivity.
Qed.

Lemma Linear_apply_set_bias_entry l i b t x :
  wf_linear l -> nth_error (bias l) i = Some b ->
  Linear_apply (set_bias_entry i t l) x
  = vadd (Linear_apply l x) (vscale (t - b) (onehot (out_features l) i)).
Proof.
  intros [_ Hb] He. unfold Linear_apply, set_bias_entry. cbn [weight bias].
  replace t with (b + (t - b)) at 1 by ring.
  rewrite (set_nth_plus_onehot _ i b _ He), Hb. symmetry. apply vadd_assoc.
Qed.

(** Entries of the weight and bias gradients: sums over the batch. *)
Lemma entry_madd A B i j :
  entry (madd A B) i j
  = match entry A i j, entry B i j with
    | Some a, Some b => Some (a + b)
    | _, _ => None
    end.
Proof.
  unfold entry. rewrite nth_error_madd.
  destruct (nth_error A i) as [r|], (nth_error B i) as [s|]; try reflexivity.
  - apply nth_error_vadd.
  - destruct (nth_error r j); reflexivity.
Qed.

Lemma entry_outer g x i j :
  entry (outer g x) i j
  = match nth_error g i, nth_error x j with
    | Some a, Some b => Some (a * b)
    | _, _ => None
    end.
Proof.
  unfold entry, outer, vscale. rewrite nth_error_map.
  destruct (nth_error g i) as [a|]; [|reflexivity]. cbn [option_map].
  rewrite nth_error_map. destruct (nth_error x j); reflexivity.
Qed.

Lemma entry_mzeros r c i j x : entry (mzeros r c) i j = Some x -> x = 0.
Proof.
  unfold entry, mzeros, zeros.
  destruct (nth_error _ i) as [row|] eqn:E; [|intros H'; discriminate H'].
  apply nth_error_In, repeat_spec in E. subst row.
  intros H. apply nth_error_In, repeat_spec in H. exact H.
Qed.

Lemma entry_weight_gradient r c G X i j dw :
  entry (fold_right madd (mzeros r c) (zip_with outer G X)) i j = Some dw ->
  dw = vsum (zip_with (fun g x => nth i g 0 * nth j x 0) G X).
Proof.
  revert X dw. induction G as [|g G IH]; intros [|x X] dw; cbn [zip_with fold_right];
    try apply entry_mzeros.
  rewrite entry_madd, entry_outer.
  destruct (nth_error g i) as [a|] eqn:Eg; [|intros H'; discriminate H'].
  destruct (nth_error x j) as [b|] eqn:Ex; [|intros H'; discriminate H'].
  destruct (entry _ i j) as [rest|] eqn:Er; [|intros H'; discriminate H'].
  intros H. injection H as <-. cbn [vsum fold_right].
  rewrite (nth_error_nth _ _ 0 Eg), (nth_error_nth _ _ 0 Ex).
  f_equal. apply IH, Er.
Qed.

Lemma entry_bias_gradient n G i db :
  nth_error (fold_right vadd (zeros n) G) i = Some db ->
  db = vsum (map (fun g => nth i g 0) G).
Proof.
  revert db. induction G as [|g G IH]; intros db; cbn [fold_right map].
  - intros H. apply nth_error_In, repeat_spec in H. exact H.
  - rewrite nth_error_vadd.
    destruct (nth_error g i) as [a|] eqn:Eg; [|intros H'; discriminate H'].
    destruct (nth_error _ i) as [rest|] eqn:Er; [|intros H'; discriminate H'].
    intros H. injection H as <-. cbn [vsum fold_right].
    rewrite (nth_error_nth _ _ 0 Eg). f_equal. apply IH. reflexivity.
Qed.

Lemma zip_with_map_r {A B B' C : Type} (f : A -> B -> C) (h : B' -> B) la lb :
  zip_with f la (map h lb) = zip_with (fun a b => f a (h b)) la lb.
Proof.
  revert lb. induction la as [|a la IH]; intros [|b lb]; simpl; try reflexivity.
  f_equal. apply IH.
Qed.

Lemma zip_with_ext_Forall {A B C : Type} (P : A -> Prop) (f f' : A -> B -> C) la lb :
  (forall a b, P a -> f a b = f' a b) -> Forall P la ->
  zip_with f la lb = zip_with f' la lb.
Proof.
  intros E H. revert lb. induction H as [|a la Ha _ IH]; intros [|b lb]; simpl;
    try reflexivity.
  rewrite (E a b Ha), IH. reflexivity.
Qed.

Lemma zip_with_const_r {A B C : Type} (f : A -> C) (la : list A) (lb : list B) :
  length la = length lb ->
  zip_with (fun a _ => f a) la lb = map f la.
Proof.
  revert lb. induction la as [|a la IH]; intros [|b lb] H; simpl in *;
    try discriminate; [reflexivity|].
  f_equal. apply IH. lia.
Qed.

Lemma length_input_gradient m y :
  forall A, length A = length y ->
    length (snd (Sequential_backward m A (fun Z => CrossEntropyLoss_backward Z y)))
    = length A.
Proof.
  induction m as [|l m IH]; intros A H.
  - cbn [Sequential_backward snd]. unfold CrossEntropyLoss_backward.
    apply MetricFacts.zip_with_length, H.
  - rewrite Sequential_backward_cons. cbn [snd].
    rewrite length_map, IH, length_map; [reflexivity|].
    rewrite length_map. exact H.
Qed.

Section FirstLayer.

Variables (l : Linear) (m : Sequential) (n_out : nat).
Variables (X : list vec) (y : list nat).
Hypothesis l_wf : wf_linear l.
Hypothesis m_wf : wf_stack (out_features l) n_out m.
Hypothesis X_nonempty : X <> [].
Hypothesis X_y : length X = length y.
Hypothesis X_wf : Forall (fun x => length x = in_features l) X.
Hypothesis y_wf : Forall (fun t => (t < n_out)%nat) y.

Local Abbreviation A := (map (Linear_apply l) X).
Local Abbreviation G :=
  (snd (Sequential_backward m A (fun Z => CrossEntropyLoss_backward Z y))).

Lemma A_wf : Forall (fun a => length a = out_features l) A.
Proof.
  apply Forall_forall. intros a Ha. apply in_map_iff in Ha as (x & <- & _).
  apply length_Linear_apply, l_wf.
Qed.

Lemma G_wf : Forall (fun g => length g = out_features l) G.
Proof.
  apply (Sequential_backward_shapes m (out_features l) n_out); try assumption.
  - apply A_wf.
  - intros Z HZ. apply CrossEntropyLoss_backward_shapes, HZ.
Qed.

Lemma loss_along_first_layer D t0 :
  length D = length X -> Forall (fun d => length d = out_features l) D ->
  derivable_pt_lim (fun t => loss_value m (shift A (t - t0) D) y) t0
                   (vsum (zip_with dot G D)).
Proof.
  intros HD HDw.
  apply (loss_along_inputs m (out_features l) n_out); try assumption.
  - intros E. apply map_eq_nil in E. contradiction.
  - rewrite length_map. symmetry. exact HD.
  - rewrite length_map. exact X_y.
  - apply A_wf.
Qed.

Lemma first_layer_weight i j w dw :
  entry (weight l) i j = Some w ->
  entry (fst (fst (Linear_backward l X G))) i j = Some dw ->
  derivable_pt_lim (fun t => loss_value (set_weight_entry i j t l :: m) X y) w dw.
Proof.
  intros Hw Hdw. cbn [Linear_backward fst] in Hdw.
  apply entry_weight_gradient in Hdw.
  assert (Hi : (i < out_features l)%nat).
  { destruct l_wf as [[HWl _] _]. rewrite <- HWl. apply nth_error_Some.
    unfold entry in Hw. destruct (nth_error (weight l) i); [discriminate|].
    discriminate Hw. }
  set (D := map (fun x => vscale (nth j x 0) (onehot (out_features l) i)) X).
  replace dw with (vsum (zip_with dot G D)).
  - apply (derivable_pt_lim_eq (fun t => loss_value m (shift A (t - w) D) y)).
    + intros t. rewrite loss_value_cons by exact X_wf.
      f_equal. unfold shift, D. rewrite MetricFacts.zip_with_map_same.
      apply map_ext. intros x. symmetry.
      apply Linear_apply_set_weight_entry; assumption.
    + apply loss_along_first_layer.
      * unfold D. apply length_map.
      * apply Forall_forall. intros d Hd. apply in_map_iff in Hd as (x & <- & _).
        rewrite length_vscale. apply length_onehot.
  - rewrite Hdw. unfold D. rewrite zip_with_map_r. f_equal.
    apply (zip_with_ext_Forall (fun g => length g = out_features l));
      [|apply G_wf].
    intros g x Hg. rewrite dot_vscale_r, dot_comm, dot_onehot by assumption.
    ring.
Qed.

Lemma first_layer_bias i b db :
  nth_error (bias l) i = Some b ->
  nth_error (snd (fst (Linear_backward l X G))) i = Some db ->
  derivable_pt_lim (fun t => loss_value (set_bias_entry i t l :: m) X y) b db.
Proof.
  intros Hb Hdb. cbn [Linear_backward fst snd] in Hdb.
  apply entry_bias_gradient in Hdb.
  assert (Hi : (i < out_features l)%nat).
  { destruct l_wf as [_ Hbl]. rewrite <- Hbl. apply nth_error_Some. congruence. }
  set (D := map (fun _ : vec => onehot (out_features l) i) X).
  replace db with (vsum (zip_with dot G D)).
  - apply (derivable_pt_lim_eq (fun t => loss_value m (shift A (t - b) D) y)).
    + intros t. rewrite loss_value_cons by exact X_wf.
      f_equal. unfold shift, D. rewrite MetricFacts.zip_with_map_same.
      apply map_ext. intros x. symmetry.
      apply Linear_apply_set_bias_entry; assumption.
    + apply loss_along_first_layer.
      * unfold D. apply length_map.
      * apply Forall_forall. intros d Hd. apply in_map_iff in Hd as (x & <- & _).
        apply length_onehot.
  - rewrite Hdb. unfold D. rewrite zip_with_map_r.
    rewrite (zip_with_ext_Forall (fun g => length g = out_features l)
               _ (fun g _ => nth i g 0)).
    + f_equal. apply zip_with_const_r.
      rewrite length_input_gradient; rewrite length_map; [reflexivity|exact X_y].
    + intros g x Hg. rewrite dot_comm. apply dot_onehot; assumption.
    + apply G_wf.
Qed.

End FirstLayer.

Lemma map_layer_S k f l m : map_layer (S k) f (l :: m) = l :: map_layer k f m.
Proof.
  unfold map_layer. cbn [nth_error]. destruct (nth_error m k); reflexivity.
Qed.

Lemma gradient_cons l m X y :
  gradient (l :: m) X y
  = fst (Linear_backward l X
           (snd (Sequential_backward m (map (Linear_apply l) X)
                   (fun Z => CrossEntropyLoss_backward Z y))))
    :: gradient m (map (Linear_apply l) X) y.
Proof. unfold gradient. rewrite Sequential_backward_cons. reflexivity. Qed.

(** Every entry of the gradient the backward pass computes is the
    derivative of the loss with respect to the matching parameter entry. *)
Lemma gradient_is_derivative m :
  forall n_in n_out X y k l g,
    wf_stack n_in n_out m ->
    X <> [] -> length X = length y ->
    Forall (fun x => length x = n_in) X ->
    Forall (fun t => (t < n_out)%nat) y ->
    nth_error m k = Some l ->
    nth_error (gradient m X y) k = Some g ->
    (forall i j w dw,
        entry (weight l) i j = Some w -> entry (fst g) i j = Some dw ->
        derivable_pt_lim
          (fun t => loss_value (map_layer k (set_weight_entry i j t) m) X y) w dw) /\
    (forall i b db,
        nth_error (bias l) i = Some b -> nth_error (snd g) i = Some db ->
        derivable_pt_lim
          (fun t => loss_value (map_layer k (set_bias_entry i t) m) X y) b db).
Proof.
  induction m as [|l0 m IH]; intros n_in n_out X y k l g Hwf Hne Hlen HX Hy Hl Hg.
  - destruct k; discriminate Hl.
  - cbn [wf_stack] in Hwf. destruct Hwf as (Hin & Hl0 & Hm).
    rewrite gradient_cons in Hg. rewrite <- Hin in HX.
    destruct k as [|k]; cbn [nth_error] in Hl, Hg.
    + injection Hl as <-. injection Hg as <-. split.
      * intros i j w dw Hw Hdw.
        apply (first_layer_weight l0 m n_out X y); assumption.
      * intros i b db Hb Hdb.
        apply (first_layer_bias l0 m n_out X y); assumption.
    + assert (HX' : Forall (fun x => length x = out_features l0)
                           (map (Linear_apply l0) X)).
      { apply Forall_forall. intros a Ha. apply in_map_iff in Ha as (x & <- & _).
        apply length_Linear_apply, Hl0. }
      assert (Hne' : map (Linear_apply l0) X <> []).
      { intros E. apply map_eq_nil in E. contradiction. }
      assert (Hlen' : length (map (Linear_apply l0) X) = length y).
      { rewrite length_map. exact Hlen. }
      destruct (IH (out_features l0) n_out (map (Linear_apply l0) X) y k l g
                   Hm Hne' Hlen' HX' Hy Hl Hg) as [IHw IHb].
      split.
      * intros i j w dw Hw Hdw.
        apply (derivable_pt_lim_eq
                 (fun t => loss_value (map_layer k (set_weight_entry i j t) m)
                                      (map (Linear_apply l0) X) y)).
        -- intros t. rewrite map_layer_S, loss_value_cons by exact HX. reflexivity.
        -- apply IHw; assumption.
      * intros i b db Hb Hdb.
        apply (derivable_pt_lim_eq
                 (fun t => loss_value (map_layer k (set_bias_entry i t) m)
                                      (map (Linear_apply l0) X) y)).
        -- intros t. rewrite map_layer_S, loss_value_cons by exact HX. reflexivity.
        -- apply IHb; assumption.
Qed.

(** Writing back the value an entry already has changes nothing. *)
Lemma set_nth_same {A : Type} i (x : A) l :
  nth_error l i = Some x -> set_nth i x l = l.
Proof.
  revert i. induction l as [|a l IH]; intros [|i] H; simpl in *;
    try discriminate.
  - injection H as ->. reflexivity.
  - f_equal. apply IH, H.
Qed.

Lemma map_layer_same_weight m k l i j w :
  nth_error m k = Some l -> entry (weight l) i j = Some w ->
  map_layer k (set_weight_entry i j w) m = m.
Proof.
  intros Hl Hw. unfold map_layer. rewrite Hl. apply set_nth_same.
  rewrite Hl. f_equal. unfold set_weight_entry, set_entry, entry in *.
  destruct (nth_error (weight l) i) as [row|] eqn:E; [|discriminate].
  destruct l as [n_in n_out W b]. cbn [weight bias in_features out_features] in *.
  f_equal. rewrite (set_nth_same j w row Hw). symmetry. apply set_nth_same, E.
Qed.

Lemma map_layer_same_bias m k l i b :
  nth_error m k = Some l -> nth_error (bias l) i = Some b ->
  map_layer k (set_bias_entry i b) m = m.
Proof.
  intros Hl Hb. unfold map_layer. rewrite Hl. apply set_nth_same.
  rewrite Hl. f_equal. unfold set_bias_entry.
  destruct l as [n_in n_out W c]. cbn [weight bias in_features out_features] in *.
  f_equal. symmetry. apply set_nth_same, Hb.
Qed.

(** Matrices of one shape have entries at the same positions. *)
Lemma entry_exists r c A B i j w :
  has_rows r c A -> has_rows r c B -> entry A i j = Some w ->
  exists dw, entry B i j = Some dw.
Proof.
  intros [HA1 HA2] [HB1 HB2]. unfold entry.
  destruct (nth_error A i) as [ra|] eqn:Ea; [|discriminate].
  intros Hw.
  assert (Hi : (i < length B)%nat).
  { rewrite HB1, <- HA1. apply nth_error_Some. congruence. }
  destruct (nth_error B i) as [rb|] eqn:Eb;
    [|apply nth_error_None in Eb; lia].
  rewrite Forall_forall in HA2, HB2.
  pose proof (HA2 ra (nth_error_In _ _ Ea)) as Hra.
  pose proof (HB2 rb (nth_error_In _ _ Eb)) as Hrb.
  destruct (nth_error rb j) as [dw|] eqn:Ej; [exists dw; reflexivity|].
  apply nth_error_None in Ej.
  assert (j < length ra)%nat by (apply nth_error_Some; congruence). lia.
Qed.

Lemma nth_error_exists {A : Type} (u v : list A) i x :
  length u = length v -> nth_error u i = Some x ->
  exists y, nth_error v i = Some y.
Proof.
  intros Hl Hx. destruct (nth_error v i) as [y|] eqn:E; [exists y; reflexivity|].
  apply nth_error_None in E.
  assert (i < length u)%nat by (apply nth_error_Some; congruence). lia.
Qed.

Lemma Forall2_nth_error {A B : Type} (P : A -> B -> Prop) la lb k a :
  Forall2 P la lb -> nth_error la k = Some a ->
  exists b, nth_error lb k = Some b /\ P a b.
Proof.
  intros H. revert k. induction H as [|a' b' la lb Hab _ IH]; intros [|k] Hk;
    simpl in Hk; try discriminate.
  - injection Hk as <-. exists b'. split; [reflexivity|exact Hab].
  - apply IH, Hk.
Qed.

Lemma wf_stack_nth_error m :
  forall n_in n_out k l,
    wf_stack n_in n_out m -> nth_error m k = Some l -> wf_linear l.
Proof.
  induction m as [|l0 m IH]; intros n_in n_out [|k] l Hwf Hl; simpl in Hl;
    try discriminate; destruct Hwf as (_ & Hl0 & Hm).
  - injection Hl as <-. exact Hl0.
  - apply (IH _ _ k l Hm Hl).
Qed.

(** When the loss is a number, [loss_value] is that number. *)
Lemma loss_value_defined m X y logits loss :
  mapM (Sequential_forward m) X = Some logits ->
  CrossEntropyLoss logits y = Some loss ->
  loss_value m X y = loss.
Proof. intros H1 H2. unfold loss_value. rewrite H1, H2. reflexivity. Qed.

End GradientFacts.

Module ToyFacts.

Lemma toy_train_wf : wf_batch toy_X_train toy_y_train.
Proof.
  unfold wf_batch, toy_X_train, toy_y_train, NUM_FEATURES, NUM_CLASSES.
  repeat split; try discriminate; repeat constructor.
Qed.

Lemma toy_test_wf : wf_batch toy_X_test toy_y_test.
Proof.
  unfold wf_batch, toy_X_test, toy_y_test, NUM_FEATURES, NUM_CLASSES.
  repeat split; try discriminate; repeat constructor.
Qed.

End ToyFacts.

(** C2: one training iteration runs the model on the whole training
    set, takes the mean cross-entropy of the logits against the labels,
    and stores, whatever the buffers held before, the gradient of that
    loss: for every layer and every entry p of its weight and of its bias
    there is a gradient entry, it is the derivative of the loss with
    respect to p, and the iteration replaces p by
    p - LEARNING_RATE * that entry, with LEARNING_RATE = 0.05.  The loop
    returns, and the parameters it leaves are those of exactly 150000
    such iterations applied to the initial parameters. *)
Theorem training_loop_is_gradient_descent (set_to_none : bool) (m0 : BlobModel)
    (X_blob_train : list vec) (y_blob_train : list nat)
    (X_blob_test : list vec) (y_blob_test : list nat) :
  wf_model m0 ->
  wf_batch X_blob_train y_blob_train -> wf_batch X_blob_test y_blob_test ->
  let step := gradient_descent_step LEARNING_RATE X_blob_train y_blob_train in
  let loss_of := fun m => loss_value m X_blob_train y_blob_train in
  LEARNING_RATE = (5 / 100)%R /\ NUM_EPOCHS = 150000%N /\
  (forall s,
     wf_model (model s) ->
     (forall o, grads s = Some o ->
                Forall2 grad_like (linear_layer_stack (model s)) o) ->
     exists y_logits loss s',
       training_step set_to_none X_blob_train y_blob_train s = Some (s', loss) /\
       mapM (Sequential_forward (linear_layer_stack (model s))) X_blob_train
         = Some y_logits /\
       length y_logits = length X_blob_train /\
       CrossEntropyLoss y_logits y_blob_train = Some loss /\
       loss = loss_of (linear_layer_stack (model s)) /\
       grads s'
         = Some (gradient (linear_layer_stack (model s)) X_blob_train y_blob_train) /\
       linear_layer_stack (model s') = step (linear_layer_stack (model s))) /\
  (forall m k l,
     wf_stack NUM_FEATURES NUM_CLASSES m -> nth_error m k = Some l ->
     exists g l',
       nth_error (gradient m X_blob_train y_blob_train) k = Some g /\
       nth_error (step m) k = Some l' /\
       (forall i j w,
          entry (weight l) i j = Some w ->
          exists dw,
            entry (fst g) i j = Some dw /\
            derivable_pt_lim
              (fun t => loss_of (map_layer k (set_weight_entry i j t) m)) w dw /\
            entry (weight l') i j = Some (w - LEARNING_RATE * dw)%R) /\
       (forall i b,
          nth_error (bias l) i = Some b ->
          exists db,
            nth_error (snd g) i = Some db /\
            derivable_pt_lim
              (fun t => loss_of (map_layer k (set_bias_entry i t) m)) b db /\
            nth_error (bias l') i = Some (b - LEARNING_RATE * db)%R)) /\
  exists s,
    fit set_to_none m0 X_blob_train y_blob_train X_blob_test y_blob_test = Some s /\
    linear_layer_stack (model s) = N.iter NUM_EPOCHS step (linear_layer_stack m0).
Proof.
  intros Hm Htr Hte step loss_of. split; [reflexivity|]. split; [reflexivity|].
  split; [|split].
  - intros s Hwf Hg.
    destruct (TrainFacts.training_step_spec set_to_none _ _ s Hwf Hg Htr)
      as (y_logits & loss & H1 & H2 & H3).
    exists y_logits, loss. eexists. split; [exact H3|].
    repeat split; try assumption.
    + apply (ModelFacts.mapM_length _ _ _ H1).
    + symmetry. apply (GradientFacts.loss_value_defined _ _ _ _ _ H1 H2).
  - intros m k l Hwf Hl.
    destruct Htr as (Hne & Hlen & HX & Hy).
    pose proof (ShapeFacts.gradient_shapes m _ _ X_blob_train y_blob_train Hwf HX)
      as Hshape.
    destruct (GradientFacts.Forall2_nth_error _ _ _ _ _ Hshape Hl)
      as (g & Hg & [Hgw Hgb]).
    exists g, (update_layer LEARNING_RATE l g).
    split; [exact Hg|]. split.
    { apply UpdateFacts.nth_error_SGD_step; assumption. }
    pose proof (GradientFacts.wf_stack_nth_error m _ _ k l Hwf Hl) as Hlwf.
    destruct (GradientFacts.gradient_is_derivative m _ _ _ _ k l g
                Hwf Hne Hlen HX Hy Hl Hg) as [Dw Db].
    split.
    + intros i j w Hw.
      destruct (GradientFacts.entry_exists _ _ _ _ i j w (proj1 Hlwf) Hgw Hw)
        as [dw Hdw].
      exists dw. split; [exact Hdw|]. split.
      * apply (Dw i j w dw Hw Hdw).
      * apply UpdateFacts.entry_update; assumption.
    + intros i b Hb.
      destruct (GradientFacts.nth_error_exists (bias l) (snd g) i b) as [db Hdb].
      { rewrite Hgb. apply Hlwf. }
      { exact Hb. }
      exists db. split; [exact Hdb|]. split.
      * apply (Db i b db Hb Hdb).
      * apply UpdateFacts.bias_update; assumption.
  - destruct (FitFacts.for_range_prefix set_to_none _ _ _ _ m0 Hm Htr Hte
                (N.to_nat NUM_EPOCHS)) as (s & Hs & Hstack & _).
    exists s. split; [exact Hs|].
    rewrite Hstack. symmetry. apply N2Nat.inj_iter.
Qed.

Lemma training_loop_is_gradient_descent_witness :
  exists s,
    fit false (model_4 zero_draws) toy_X_train toy_y_train toy_X_test toy_y_test
      = Some s /\
    linear_layer_stack (model s)
      = N.iter NUM_EPOCHS
          (gradient_descent_step LEARNING_RATE toy_X_train toy_y_train)
          (linear_layer_stack (model_4 zero_draws)).
Proof.
  apply (training_loop_is_gradient_descent false (model_4 zero_draws)
           toy_X_train toy_y_train toy_X_test toy_y_test).
  - apply ModelFacts.model_4_wf.
  - apply ToyFacts.toy_train_wf.
  - apply ToyFacts.toy_test_wf.
Defined.

(** C8: the loop prints exactly at the epochs that are multiples of 100
    (1500 lines for the 150000 epochs), in order; the line of epoch e
    holds e, the training loss (mean cross-entropy of the model before
    the update of epoch e on the training set) and the test loss (mean
    cross-entropy of the model after that update on the test set).  The
    evaluation block changes no parameter and no gradient buffer, only
    the mode flag and the output; the parameters the loop leaves are those
    of the training steps alone. *)
Theorem evaluation_every_100_epochs (set_to_none : bool) (m0 : BlobModel)
    (X_blob_train : list vec) (y_blob_train : list nat)
    (X_blob_test : list vec) (y_blob_test : list nat) :
  wf_model m0 ->
  wf_batch X_blob_train y_blob_train -> wf_batch X_blob_test y_blob_test ->
  let step := gradient_descent_step LEARNING_RATE X_blob_train y_blob_train in
  let epochs := N.to_nat NUM_EPOCHS in
  (forall epoch, reporting_epoch epoch = true <-> (epoch mod 100 = 0)%nat) /\
  (forall epoch loss s s',
     testing_step X_blob_test y_blob_test epoch loss s = Some s' ->
     linear_layer_stack (model s') = linear_layer_stack (model s) /\
     grads s' = grads s /\
     training (model s') = false /\
     exists test_loss, stdout s' = stdout s ++ [(epoch, loss, test_loss)]) /\
  exists s,
    fit set_to_none m0 X_blob_train y_blob_train X_blob_test y_blob_test = Some s /\
    map (fun line => fst (fst line)) (stdout s)
      = filter reporting_epoch (seq 0 epochs) /\
    length (stdout s) = 1500%nat /\
    Forall2 (fun epoch line =>
               reported X_blob_train y_blob_train X_blob_test y_blob_test epoch
                        (Nat.iter epoch step (linear_layer_stack m0))
                        (Nat.iter (S epoch) step (linear_layer_stack m0)) line)
            (filter reporting_epoch (seq 0 epochs)) (stdout s) /\
    linear_layer_stack (model s) = Nat.iter epochs step (linear_layer_stack m0).
Proof.
  intros Hm Htr Hte step epochs. split; [|split].
  - intros epoch. unfold reporting_epoch. apply Nat.eqb_eq.
  - intros epoch loss s s'. unfold testing_step.
    destruct (BlobModel_call _ _) as [test_logits|]; [|discriminate].
    destruct (argmax_rows _) as [test_pred|]; [|discriminate].
    destruct (loss_fn _ _) as [test_loss|]; [|discriminate].
    intros H. injection H as <-. cbn [model grads stdout].
    repeat split. exists test_loss. reflexivity.
  - destruct (FitFacts.for_range_prefix set_to_none _ _ _ _ m0 Hm Htr Hte epochs)
      as (s & Hs & Hstack & _ & Hout).
    exists s. split; [exact Hs|].
    pose proof (UpdateFacts.reported_epochs _ _ _ _
                  (fun e => Nat.iter e step (linear_layer_stack m0))
                  (fun e => Nat.iter (S e) step (linear_layer_stack m0))
                  _ _ Hout) as Hepochs.
    split; [exact Hepochs|]. split; [|split; [exact Hout|exact Hstack]].
    rewrite <- (length_map (fun line : nat * R * R => fst (fst line))), Hepochs.
    subst epochs. rewrite UpdateFacts.NUM_EPOCHS_blocks.
    apply UpdateFacts.reporting_epochs_count.
Qed.

Lemma evaluation_every_100_epochs_witness :
  exists s,
    fit false (model_4 zero_draws) toy_X_train toy_y_train toy_X_test toy_y_test
      = Some s /\
    length (stdout s) = 1500%nat.
Proof.
  destruct (evaluation_every_100_epochs false (model_4 zero_draws)
              toy_X_train toy_y_train toy_X_test toy_y_test
              (ModelFacts.model_4_wf zero_draws)
              ToyFacts.toy_train_wf ToyFacts.toy_test_wf)
    as (_ & _ & s & Hs & _ & Hlen & _).
  exists s. split; [exact Hs|exact Hlen].
Defined.



(** ** The cells in sequence *)

Module PipelineFacts.
Import sklearn.

Lemma train_test_split_gathers {A B : Type} (X : list A) (y : list B)
    ts perm Xtr Xte ytr yte :
  train_test_split X y ts perm = Some (Xtr, Xte, ytr, yte) ->
  exists train test,
    safe_indexing X train = Some Xtr /\ safe_indexing X test = Some Xte /\
    safe_indexing y train = Some ytr /\ safe_indexing y test = Some yte.
Proof.
  unfold train_test_split.
  destruct (negb _); [discriminate|].
  destruct (validate_shuffle_split _ _) as [[n_train n_test]|]; [|discriminate].
  destruct (shuffle_split_indices n_train n_test perm) as [train test].
  destruct (safe_indexing X train) as [a|] eqn:E1; [|discriminate].
  destruct (safe_indexing X test) as [b|] eqn:E2; [|discriminate].
  destruct (safe_indexing y train) as [c|] eqn:E3; [|discriminate].
  destruct (safe_indexing y test) as [d|] eqn:E4; [|discriminate].
  intros H. injection H as <- <- <- <-.
  exists train, test. repeat split; assumption.
Qed.

(** Data of the shape [make_blobs] produces for the notebook's arguments
    (NUM_SAMPLES points with NUM_FEATURES coordinates, labels below
    NUM_CLASSES) is split into two well-shaped batches, and the training
    cell runs to its end on them. *)
Lemma notebook_runs (set_to_none : bool) (g : Generator)
    (X_blob : list vec) (y_blob : list nat) (perm : list nat) :
  length X_blob = NUM_SAMPLES -> length y_blob = NUM_SAMPLES ->
  Forall (fun x => length x = NUM_FEATURES) X_blob ->
  Forall (fun t => (t < NUM_CLASSES)%nat) y_blob ->
  Permutation perm (seq 0 NUM_SAMPLES) ->
  exists X_blob_train X_blob_test y_blob_train y_blob_test s,
    blob_split X_blob y_blob perm
      = Some (X_blob_train, X_blob_test, y_blob_train, y_blob_test) /\
    wf_batch X_blob_train y_blob_train /\
    wf_batch X_blob_test y_blob_test /\
    fit set_to_none (model_4 g) X_blob_train y_blob_train
        X_blob_test y_blob_test = Some s.
Proof.
  intros HlX Hly HX Hy Hp.
  destruct (SplitFacts.train_test_split_succeeds X_blob y_blob TEST_SIZE perm
              3200 800) as (Xtr & Xte & ytr & yte & Hs & L1 & L2 & L3 & L4).
  { congruence. }
  { rewrite HlX. exact Hp. }
  { rewrite HlX. exact SplitFacts.validate_4000. }
  destruct (train_test_split_gathers _ _ _ _ _ _ _ _ Hs)
    as (train & test & G1 & G2 & G3 & G4).
  assert (Wtr : wf_batch Xtr ytr).
  { repeat split.
    - intros ->. discriminate L1.
    - congruence.
    - apply (SplitFacts.safe_indexing_Forall _ _ _ _ HX G1).
    - apply (SplitFacts.safe_indexing_Forall _ _ _ _ Hy G3). }
  assert (Wte : wf_batch Xte yte).
  { repeat split.
    - intros ->. discriminate L2.
    - congruence.
    - apply (SplitFacts.safe_indexing_Forall _ _ _ _ HX G2).
    - apply (SplitFacts.safe_indexing_Forall _ _ _ _ Hy G4). }
  destruct (FitFacts.for_range_prefix set_to_none _ _ _ _ (model_4 g)
              (ModelFacts.model_4_wf g) Wtr Wte (N.to_nat NUM_EPOCHS))
    as (s & Hfit & _).
  exists Xtr, Xte, ytr, yte, s. repeat split; try assumption; apply Wtr || apply Wte.
Qed.

End PipelineFacts.

(** * Further properties of the cells *)

(** ** The training loop: failures, and what the result depends on *)

Module LoopFacts.
Import TensorFacts ModelFacts ShapeFacts LossFacts TrainFacts.

Lemma fold_left_raised (body : nat -> Session -> option Session) epochs :
  fold_left (fun acc epoch => s' <- acc ;; body epoch s') epochs None = None.
Proof. induction epochs as [|e epochs IH]; [reflexivity|exact IH]. Qed.

(** An exception in the first pass ends the loop. *)
Lemma for_range_raises_at_first body n s :
  body 0%nat s = None -> for_range (S n) body s = None.
Proof.
  intros H. unfold for_range. cbn [seq fold_left]. rewrite H.
  apply fold_left_raised.
Qed.

Lemma epochs_positive : exists n, N.to_nat NUM_EPOCHS = S n.
Proof.
  exists (100 * 1500 - 1)%nat. rewrite UpdateFacts.NUM_EPOCHS_blocks. lia.
Qed.

Lemma mapM_raises {A B : Type} (f : A -> option B) l :
  Exists (fun a => f a = None) l -> mapM f l = None.
Proof.
  induction 1 as [a l Ha|a l _ IH]; simpl.
  - rewrite Ha. reflexivity.
  - rewrite IH. destruct (f a); reflexivity.
Qed.

Lemma wf_model_first_layer m :
  wf_model m ->
  exists l rest, linear_layer_stack m = l :: rest /\ in_features l = NUM_FEATURES.
Proof.
  unfold wf_model. destruct (linear_layer_stack m) as [|l rest]; simpl.
  - intros H. discriminate H.
  - intros (Hin & _). exists l, rest. split; [reflexivity|exact Hin].
Qed.

(** A batch with a sample of the wrong width makes the forward pass raise. *)
Lemma forward_batch_raises m X :
  wf_model m -> Exists (fun x => length x <> NUM_FEATURES) X ->
  mapM (Sequential_forward (linear_layer_stack m)) X = None.
Proof.
  intros Hwf HX. destruct (wf_model_first_layer m Hwf) as (l & rest & E & Hin).
  rewrite E. apply mapM_raises.
  apply Exists_exists in HX as (x & Hx & Hlen). apply Exists_exists.
  exists x. split; [exact Hx|]. cbn [Sequential_forward]. unfold Linear_forward.
  rewrite Hin. destruct (Nat.eqb_spec (length x) NUM_FEATURES); [contradiction|].
  reflexivity.
Qed.

(** A label that is not a class index makes the loss raise. *)
Lemma nll_terms_raises n Z y :
  Forall (fun z => length z = n) Z -> Exists (fun t => (n <= t)%nat) y ->
  nll_terms (map log_softmax Z) y = None.
Proof.
  intros HZ. revert y. induction HZ as [|z Z Hz _ IH]; intros y Hy.
  - destruct Hy; reflexivity.
  - destruct y as [|t y]; [reflexivity|]. cbn [map nll_terms].
    inversion Hy as [? ? Ht|? ? Hrest]; subst.
    + assert (E : nth_error (log_softmax z) t = None).
      { apply nth_error_None. rewrite length_log_softmax. lia. }
      rewrite E. reflexivity.
    + rewrite (IH y Hrest). destruct (nth_error (log_softmax z) t); reflexivity.
Qed.

Lemma no_buffers_yet (m : BlobModel) :
  forall o, grads (mkSession m None []) = Some o ->
            Forall2 grad_like (linear_layer_stack (model (mkSession m None []))) o.
Proof. intros o H. discriminate H. Qed.

Lemma training_step_set_to_none X y s :
  wf_model (model s) ->
  (forall o, grads s = Some o -> Forall2 grad_like (linear_layer_stack (model s)) o) ->
  wf_batch X y ->
  training_step true X y s = training_step false X y s.
Proof.
  intros Hwf Hg Hb.
  destruct (training_step_spec true X y s Hwf Hg Hb) as (l1 & x1 & A1 & B1 & C1).
  destruct (training_step_spec false X y s Hwf Hg Hb) as (l2 & x2 & A2 & B2 & C2).
  rewrite C1, C2. assert (l1 = l2) by congruence. subst l2.
  assert (x1 = x2) by congruence. subst x2. reflexivity.
Qed.

(** The layer shapes are those the model was built with, whatever the
    gradients. *)
Lemma SGD_step_shapes lr m gs : map shape (SGD_step lr m gs) = map shape m.
Proof.
  revert gs. induction m as [|l m IH]; intros [|g gs]; simpl; try reflexivity.
  f_equal. apply IH.
Qed.

Lemma iterate_shapes lr X y k m :
  map shape (Nat.iter k (gradient_descent_step lr X y) m) = map shape m.
Proof.
  induction k as [|k IH]; [reflexivity|].
  cbn [Nat.iter nat_rect]. unfold gradient_descent_step at 1.
  rewrite SGD_step_shapes. exact IH.
Qed.

End LoopFacts.

(** X1: the held-out data never reaches the parameters: trained on the
    same training set, the loop leaves the same parameters whatever
    (well-shaped) test set it evaluates on. *)
Theorem parameters_do_not_depend_on_test_set (set_to_none : bool) (m0 : BlobModel)
    (X_blob_train : list vec) (y_blob_train : list nat)
    (X_test1 : list vec) (y_test1 : list nat)
    (X_test2 : list vec) (y_test2 : list nat) :
  wf_model m0 -> wf_batch X_blob_train y_blob_train ->
  wf_batch X_test1 y_test1 -> wf_batch X_test2 y_test2 ->
  exists s1 s2,
    fit set_to_none m0 X_blob_train y_blob_train X_test1 y_test1 = Some s1 /\
    fit set_to_none m0 X_blob_train y_blob_train X_test2 y_test2 = Some s2 /\
    linear_layer_stack (model s1) = linear_layer_stack (model s2).
Proof.
  intros Hm Htr H1 H2.
  destruct (FitFacts.for_range_prefix set_to_none _ _ _ _ m0 Hm Htr H1
              (N.to_nat NUM_EPOCHS)) as (s1 & Hs1 & Hstack1 & _).
  destruct (FitFacts.for_range_prefix set_to_none _ _ _ _ m0 Hm Htr H2
              (N.to_nat NUM_EPOCHS)) as (s2 & Hs2 & Hstack2 & _).
  exists s1, s2. split; [exact Hs1|]. split; [exact Hs2|].
  rewrite Hstack1, Hstack2. reflexivity.
Qed.

Lemma parameters_do_not_depend_on_test_set_witness :
  exists s1 s2,
    fit false (model_4 zero_draws) toy_X_train toy_y_train toy_X_test toy_y_test
      = Some s1 /\
    fit false (model_4 zero_draws) toy_X_train toy_y_train toy_X_train toy_y_train
      = Some s2 /\
    linear_layer_stack (model s1) = linear_layer_stack (model s2).
Proof.
  apply (parameters_do_not_depend_on_test_set false (model_4 zero_draws)).
  - apply ModelFacts.model_4_wf.
  - apply ToyFacts.toy_train_wf.
  - apply ToyFacts.toy_test_wf.
  - apply ToyFacts.toy_train_wf.
Defined.

(** X2: the loop does the same whether [zero_grad] drops the gradient
    buffers or fills them with zeros: the whole session it returns
    (parameters, buffers, printed lines) is the same. *)
Theorem fit_same_for_both_zero_grad_modes (m0 : BlobModel)
    (X_blob_train : list vec) (y_blob_train : list nat)
    (X_blob_test : list vec) (y_blob_test : list nat) :
  wf_model m0 ->
  wf_batch X_blob_train y_blob_train -> wf_batch X_blob_test y_blob_test ->
  fit true m0 X_blob_train y_blob_train X_blob_test y_blob_test
  = fit false m0 X_blob_train y_blob_train X_blob_test y_blob_test.
Proof.
  intros Hm Htr Hte. unfold fit. generalize (N.to_nat NUM_EPOCHS). intros k.
  induction k as [|k IH]; [reflexivity|].
  rewrite !FitFacts.for_range_S, IH.
  destruct (FitFacts.for_range_prefix false _ _ _ _ m0 Hm Htr Hte k)
    as (s & Hs & Hstack & Hg & _).
  rewrite Hs. unfold epoch_body.
  rewrite LoopFacts.training_step_set_to_none; [reflexivity| |exact Hg|exact Htr].
  unfold wf_model. rewrite Hstack. apply (FitFacts.iterate_wf _ _ m0 Hm Htr).
Qed.

Lemma fit_same_for_both_zero_grad_modes_witness :
  fit true (model_4 zero_draws) toy_X_train toy_y_train toy_X_test toy_y_test
  = fit false (model_4 zero_draws) toy_X_train toy_y_train toy_X_test toy_y_test.
Proof.
  apply (fit_same_for_both_zero_grad_modes (model_4 zero_draws)).
  - apply ModelFacts.model_4_wf.
  - apply ToyFacts.toy_train_wf.
  - apply ToyFacts.toy_test_wf.
Defined.

(** X3: a training sample whose width is not NUM_FEATURES makes the
    training cell raise, in the forward pass of the first epoch. *)
Theorem fit_raises_on_wrong_width (set_to_none : bool) (m0 : BlobModel)
    (X_blob_train : list vec) (y_blob_train : list nat)
    (X_blob_test : list vec) (y_blob_test : list nat) :
  wf_model m0 ->
  Exists (fun x => length x <> NUM_FEATURES) X_blob_train ->
  training_step set_to_none X_blob_train y_blob_train (mkSession m0 None []) = None /\
  fit set_to_none m0 X_blob_train y_blob_train X_blob_test y_blob_test = None.
Proof.
  intros Hm HX.
  assert (Hstep : training_step set_to_none X_blob_train y_blob_train
                    (mkSession m0 None []) = None).
  { unfold training_step, BlobModel_call. cbn [model].
    change (BlobModel_forward (BlobModel_train m0))
      with (Sequential_forward (linear_layer_stack m0)).
    rewrite (LoopFacts.forward_batch_raises m0 _ Hm HX). reflexivity. }
  split; [exact Hstep|].
  unfold fit. destruct LoopFacts.epochs_positive as [n ->].
  apply LoopFacts.for_range_raises_at_first.
  unfold epoch_body. rewrite Hstep. reflexivity.
Qed.

Lemma fit_raises_on_wrong_width_witness :
  fit false (model_4 zero_draws) [[1; 2; 3]]%R [0%nat] toy_X_test toy_y_test = None.
Proof.
  apply (fit_raises_on_wrong_width false (model_4 zero_draws) [[1; 2; 3]]%R [0%nat]).
  - apply ModelFacts.model_4_wf.
  - constructor. discriminate.
Defined.

(** X4: a training label that is not below NUM_CLASSES makes the
    training cell raise, when the loss of the first epoch is computed. *)
Theorem fit_raises_on_label_out_of_range (set_to_none : bool) (m0 : BlobModel)
    (X_blob_train : list vec) (y_blob_train : list nat)
    (X_blob_test : list vec) (y_blob_test : list nat) :
  wf_model m0 ->
  Forall (fun x => length x = NUM_FEATURES) X_blob_train ->
  Exists (fun t => (NUM_CLASSES <= t)%nat) y_blob_train ->
  (exists y_logits,
      BlobModel_call (BlobModel_train m0) X_blob_train = Some y_logits /\
      loss_fn y_logits y_blob_train = None) /\
  fit set_to_none m0 X_blob_train y_blob_train X_blob_test y_blob_test = None.
Proof.
  intros Hm HX Hy.
  destruct (ModelFacts.mapM_total (Sequential_forward (linear_layer_stack m0))
              (fun x => length x = NUM_FEATURES)
              (fun z => length z = NUM_CLASSES) X_blob_train)
    as (Z & HZ & Hlen & Hshape); [|exact HX|].
  { intros x Hx. apply (ModelFacts.Sequential_forward_total _ _ _ _ Hm Hx). }
  assert (Hloss : loss_fn Z y_blob_train = None).
  { unfold loss_fn, CrossEntropyLoss.
    rewrite (LoopFacts.nll_terms_raises NUM_CLASSES Z _ Hshape Hy). reflexivity. }
  split; [exists Z; split; [exact HZ|exact Hloss]|].
  unfold fit. destruct LoopFacts.epochs_positive as [n ->].
  apply LoopFacts.for_range_raises_at_first.
  unfold epoch_body, training_step, BlobModel_call. cbn [model].
  change (BlobModel_forward (BlobModel_train m0))
    with (Sequential_forward (linear_layer_stack m0)).
  rewrite HZ. destruct (argmax_rows (softmax_rows Z)); [|reflexivity].
  rewrite Hloss. reflexivity.
Qed.

Lemma fit_raises_on_label_out_of_range_witness :
  fit false (model_4 zero_draws) toy_X_train [0; 10]%nat toy_X_test toy_y_test = None.
Proof.
  apply (fit_raises_on_label_out_of_range false (model_4 zero_draws) toy_X_train
           [0; 10]%nat).
  - apply ModelFacts.model_4_wf.
  - apply ToyFacts.toy_train_wf.
  - right. left. unfold NUM_CLASSES. lia.
Defined.

(** X5: the first evaluation happens in epoch 0, so a test sample of the
    wrong width makes the training cell raise after one parameter update
    and before anything is printed, however good the training data. *)
Theorem fit_raises_on_wrong_test_width (set_to_none : bool) (m0 : BlobModel)
    (X_blob_train : list vec) (y_blob_train : list nat)
    (X_blob_test : list vec) (y_blob_test : list nat) :
  wf_model m0 -> wf_batch X_blob_train y_blob_train ->
  Exists (fun x => length x <> NUM_FEATURES) X_blob_test ->
  (exists s1 loss,
      training_step set_to_none X_blob_train y_blob_train (mkSession m0 None [])
        = Some (s1, loss) /\
      testing_step X_blob_test y_blob_test 0 loss s1 = None) /\
  fit set_to_none m0 X_blob_train y_blob_train X_blob_test y_blob_test = None.
Proof.
  intros Hm Htr HX.
  destruct (TrainFacts.training_step_spec set_to_none _ _ (mkSession m0 None [])
              Hm (LoopFacts.no_buffers_yet m0) Htr)
    as (Z & loss & _ & _ & Hstep).
  match type of Hstep with _ = Some (?s, _) => set (s1 := s) in * end.
  assert (Hwf1 : wf_model (model s1)).
  { apply ShapeFacts.gradient_descent_step_wf; [exact Hm|apply Htr]. }
  assert (Htest : testing_step X_blob_test y_blob_test 0 loss s1 = None).
  { unfold testing_step, BlobModel_call.
    change (BlobModel_forward (BlobModel_eval (model s1)))
      with (Sequential_forward (linear_layer_stack (model s1))).
    rewrite (LoopFacts.forward_batch_raises _ _ Hwf1 HX). reflexivity. }
  split; [exists s1, loss; split; [exact Hstep|exact Htest]|].
  unfold fit. destruct LoopFacts.epochs_positive as [n ->].
  apply LoopFacts.for_range_raises_at_first.
  unfold epoch_body. rewrite Hstep. cbn [fst snd Nat.modulo Nat.eqb].
  exact Htest.
Qed.

Lemma fit_raises_on_wrong_test_width_witness :
  fit false (model_4 zero_draws) toy_X_train toy_y_train [[1]]%R [0%nat] = None.
Proof.
  apply (fit_raises_on_wrong_test_width false (model_4 zero_draws)
           toy_X_train toy_y_train [[1]]%R [0%nat]).
  - apply ModelFacts.model_4_wf.
  - apply ToyFacts.toy_train_wf.
  - constructor. discriminate.
Defined.

(** X6: training changes numbers, not the architecture: the model the
    loop leaves has the layer shapes of the model it started from, and is
    still well-shaped. *)
Theorem training_keeps_the_architecture (set_to_none : bool) (m0 : BlobModel)
    (X_blob_train : list vec) (y_blob_train : list nat)
    (X_blob_test : list vec) (y_blob_test : list nat) :
  wf_model m0 ->
  wf_batch X_blob_train y_blob_train -> wf_batch X_blob_test y_blob_test ->
  exists s,
    fit set_to_none m0 X_blob_train y_blob_train X_blob_test y_blob_test = Some s /\
    layer_shapes (model s) = layer_shapes m0 /\
    wf_model (model s).
Proof.
  intros Hm Htr Hte.
  destruct (FitFacts.for_range_prefix set_to_none _ _ _ _ m0 Hm Htr Hte
              (N.to_nat NUM_EPOCHS)) as (s & Hs & Hstack & _).
  exists s. split; [exact Hs|]. unfold layer_shapes, wf_model. rewrite Hstack.
  split; [apply LoopFacts.iterate_shapes|].
  apply (FitFacts.iterate_wf _ _ m0 Hm Htr).
Qed.

Lemma training_keeps_the_architecture_witness :
  exists s,
    fit false (model_4 zero_draws) toy_X_train toy_y_train toy_X_test toy_y_test
      = Some s /\
    layer_shapes (model s) = layer_shapes (model_4 zero_draws) /\
    wf_model (model s).
Proof.
  apply (training_keeps_the_architecture false (model_4 zero_draws)).
  - apply ModelFacts.model_4_wf.
  - apply ToyFacts.toy_train_wf.
  - apply ToyFacts.toy_test_wf.
Defined.

(** ** Softmax, log-softmax and the loss *)

Module CrossEntropyFacts.
Import TensorFacts SoftmaxFacts LossFacts.
Local Open Scope R_scope.


End CrossEntropyFacts.



Module UniformFacts.
Import TensorFacts SoftmaxFacts LossFacts.
Local Open Scope R_scope.




End UniformFacts.



(** ** Predictions *)

Module PredictionFacts.
Import ModelFacts SoftmaxFacts.

Lemma argmax_in_range v i : argmax v = Some i -> (i < length v)%nat.
Proof.
  intros H. destruct (argmax_first_max v i H) as (x & Hx & _).
  apply nth_error_Some. congruence.
Qed.

Lemma make_predictions_returns m X :
  wf_model m -> Forall (fun x => length x = NUM_FEATURES) X ->
  exists y_logits y_preds,
    make_predictions m X = Some (y_logits, softmax_rows y_logits, y_preds) /\
    mapM (Sequential_forward (linear_layer_stack m)) X = Some y_logits /\
    Forall (fun z => length z = NUM_CLASSES) y_logits /\
    mapM argmax (map softmax y_logits) = Some y_preds.
Proof.
  intros Hwf HX. unfold make_predictions, BlobModel_call.
  change (BlobModel_forward (BlobModel_eval m))
    with (Sequential_forward (linear_layer_stack m)).
  destruct (mapM_total (Sequential_forward (linear_layer_stack m))
              (fun x => length x = NUM_FEATURES)
              (fun z => length z = NUM_CLASSES) X)
    as (y_logits & Hlog & _ & Hz); [|exact HX|].
  { intros x Hx. apply (Sequential_forward_total _ _ _ _ Hwf Hx). }
  rewrite Hlog. unfold argmax_rows, softmax_rows.
  destruct (mapM_total argmax (fun p => p <> []) (fun _ => True)
              (map softmax y_logits)) as (y_preds & Hpred & _).
  { intros p Hp. destruct (argmax_total p Hp) as [i Hi].
    exists i. split; [exact Hi|exact I]. }
  { apply Forall_forall. intros p Hp.
    apply in_map_iff in Hp as (z & <- & Hin).
    rewrite Forall_forall in Hz. specialize (Hz z Hin).
    intros E. apply (f_equal (@length R)) in E.
    rewrite length_softmax, Hz in E. discriminate E. }
  rewrite Hpred. exists y_logits, y_preds. repeat split; assumption.
Qed.

End PredictionFacts.

(** X11: every predicted label is a class index: it is below
    NUM_CLASSES, so it can be compared with the true labels. *)
Theorem predicted_labels_are_classes (m : BlobModel) (X_blob_test : list vec) :
  wf_model m -> Forall (fun x => length x = NUM_FEATURES) X_blob_test ->
  exists y_logits y_pred_probs y_preds,
    make_predictions m X_blob_test = Some (y_logits, y_pred_probs, y_preds) /\
    Forall (fun label => (label < NUM_CLASSES)%nat) y_preds.
Proof.
  intros Hwf HX.
  destruct (PredictionFacts.make_predictions_returns m _ Hwf HX)
    as (y_logits & y_preds & Hp & _ & Hz & Hpred).
  exists y_logits, (softmax_rows y_logits), y_preds. split; [exact Hp|].
  apply Forall_forall. intros label Hl.
  apply In_nth_error in Hl as [n Hn].
  destruct (ModelFacts.mapM_nth_error _ _ _ _ _ Hpred Hn) as (p & Hpn & Ha).
  apply nth_error_In, in_map_iff in Hpn as (z & <- & Hin).
  apply PredictionFacts.argmax_in_range in Ha.
  rewrite SoftmaxFacts.length_softmax in Ha.
  rewrite Forall_forall in Hz. rewrite (Hz z Hin) in Ha. exact Ha.
Qed.

Lemma predicted_labels_are_classes_witness :
  exists y_logits y_pred_probs y_preds,
    make_predictions (model_4 zero_draws) toy_X_test
      = Some (y_logits, y_pred_probs, y_preds) /\
    Forall (fun label => (label < NUM_CLASSES)%nat) y_preds.
Proof.
  apply (predicted_labels_are_classes (model_4 zero_draws) toy_X_test).
  - apply ModelFacts.model_4_wf.
  - apply ToyFacts.toy_test_wf.
Defined.

(** ** The model: parameters, forward pass, mode *)

Module InitFacts.

Lemma map_seq_from {A : Type} (f : nat -> A) a m :
  map (fun j => f (a + j)%nat) (seq 0 m) = map f (seq a m).
Proof.
  revert a. induction m as [|m IH]; intros a; [reflexivity|].
  cbn [seq map]. rewrite Nat.add_0_r. f_equal.
  rewrite <- seq_shift, map_map, <- IH. apply map_ext. intros j.
  f_equal. lia.
Qed.

Lemma draw_vec_seq g pos n : draw_vec g pos n = map g (seq pos n).
Proof. apply (map_seq_from g). Qed.

Lemma concat_draw_mat g pos rows cols :
  concat (draw_mat g pos rows cols) = map g (seq pos (rows * cols)).
Proof.
  unfold draw_mat. induction rows as [|rows IH]; [reflexivity|].
  rewrite seq_S, map_app, concat_app, IH. cbn [map concat Nat.add].
  rewrite app_nil_r, draw_vec_seq, <- map_app, <- seq_app. f_equal. f_equal. lia.
Qed.

Lemma Linear_parameters_init i o g pos :
  Linear_parameters (fst (Linear_init i o g pos)) = map g (seq pos (o * i + o)) /\
  snd (Linear_init i o g pos) = (pos + (o * i + o))%nat.
Proof.
  unfold Linear_init, Linear_parameters. cbn [fst snd weight bias]. split; [|lia].
  rewrite concat_draw_mat, draw_vec_seq, <- map_app, <- seq_app. reflexivity.
Qed.

End InitFacts.

(** X13: [model.parameters()] of a fresh model is the generator stream
    read in order, each draw used once: with hidden width h the model has
    (h*i + h) + 3 (h*h + h) + (o*h + o) parameters, and they are the first
    that many draws; the model of the notebook has 122. *)
Theorem parameters_are_consecutive_draws (input_features output_features : nat)
    (hidden_units : option nat) (g : Generator) :
  let h := match hidden_units with Some h => h | None => 8%nat end in
  let n := ((h * input_features + h) + 3 * (h * h + h)
            + (output_features * h + output_features))%nat in
  parameters (linear_layer_stack
                (BlobModel_init input_features output_features hidden_units g))
    = map g (seq 0 n) /\
  length (parameters (linear_layer_stack (model_4 g))) = 122%nat.
Proof.
  assert (H : forall i o hu,
    let h := match hu with Some h => h | None => 8%nat end in
    parameters (linear_layer_stack (BlobModel_init i o hu g))
    = map g (seq 0 ((h * i + h) + 3 * (h * h + h) + (o * h + o)))).
  { intros i o hu h. unfold BlobModel_init. fold h.
    pose proof (InitFacts.Linear_parameters_init i h g 0) as [E1 P1].
    destruct (Linear_init i h g 0) as [l1 p1]. cbn [fst snd] in *.
    pose proof (InitFacts.Linear_parameters_init h h g p1) as [E2 P2].
    destruct (Linear_init h h g p1) as [l2 p2]. cbn [fst snd] in *.
    pose proof (InitFacts.Linear_parameters_init h h g p2) as [E3 P3].
    destruct (Linear_init h h g p2) as [l3 p3]. cbn [fst snd] in *.
    pose proof (InitFacts.Linear_parameters_init h h g p3) as [E4 P4].
    destruct (Linear_init h h g p3) as [l4 p4]. cbn [fst snd] in *.
    pose proof (InitFacts.Linear_parameters_init h o g p4) as [E5 P5].
    destruct (Linear_init h o g p4) as [l5 p5]. cbn [fst snd] in *.
    unfold parameters. cbn [linear_layer_stack map concat].
    rewrite E1, E2, E3, E4, E5, app_nil_r, <- !map_app. f_equal.
    subst p1 p2 p3 p4.
    rewrite <- !seq_app. f_equal. lia. }
  intros h n. split; [apply H|].
  unfold model_4. rewrite H, length_map, length_seq. reflexivity.
Qed.

Module CallFacts.

Lemma Forall_or_Exists_width n (X : list vec) :
  Forall (fun x => length x = n) X \/ Exists (fun x => length x <> n) X.
Proof.
  induction X as [|x X [IH|IH]].
  - left. constructor.
  - destruct (Nat.eq_dec (length x) n) as [E|E].
    + left. constructor; assumption.
    + right. apply Exists_cons_hd, E.
  - right. apply Exists_cons_tl, IH.
Qed.

Lemma epoch_body_mode set_to_none X y Xt yt epoch s s' :
  epoch_body set_to_none X y Xt yt epoch s = Some s' ->
  training (model s') = negb (reporting_epoch epoch).
Proof.
  unfold epoch_body, reporting_epoch.
  destruct (training_step set_to_none X y s) as [[s1 loss]|] eqn:Hstep;
    [|discriminate].
  cbn [fst snd]. unfold training_step in Hstep.
  destruct (BlobModel_call _ X) as [y_logits|]; [|discriminate].
  destruct (argmax_rows _) as [y_pred|]; [|discriminate].
  destruct (loss_fn _ _) as [l|]; [|discriminate].
  injection Hstep as <- _.
  destruct (epoch mod 100 =? 0)%nat.
  - unfold testing_step.
    destruct (BlobModel_call _ Xt) as [test_logits|]; [|discriminate].
    destruct (argmax_rows _) as [test_pred|]; [|discriminate].
    destruct (loss_fn _ _) as [tl|]; [|discriminate].
    intros H. injection H as <-. reflexivity.
  - intros H. injection H as <-. reflexivity.
Qed.

Lemma last_epoch_does_not_report :
  exists n, N.to_nat NUM_EPOCHS = S n /\ reporting_epoch n = false.
Proof.
  exists (100 * 1499 + 99)%nat. split.
  - rewrite UpdateFacts.NUM_EPOCHS_blocks. lia.
  - unfold reporting_epoch. apply Nat.eqb_neq.
    rewrite <- (Nat.mod_unique (100 * 1499 + 99) 100 1499 99); lia.
Qed.

End CallFacts.

(** X14: the forward pass on a batch returns exactly when every sample has
    NUM_FEATURES coordinates, and then gives one row of NUM_CLASSES logits
    per sample; a single sample of another width makes the whole call
    raise. *)
Theorem forward_pass_checks_the_width (m : BlobModel) (X : list vec) :
  wf_model m ->
  (Forall (fun x => length x = NUM_FEATURES) X <->
   exists y_logits,
     BlobModel_call m X = Some y_logits /\ length y_logits = length X /\
     Forall (fun z => length z = NUM_CLASSES) y_logits) /\
  (Exists (fun x => length x <> NUM_FEATURES) X <-> BlobModel_call m X = None).
Proof.
  intros Hwf.
  assert (Hok : Forall (fun x => length x = NUM_FEATURES) X ->
                exists y_logits,
                  BlobModel_call m X = Some y_logits /\
                  length y_logits = length X /\
                  Forall (fun z => length z = NUM_CLASSES) y_logits).
  { intros HX. unfold BlobModel_call.
    apply (ModelFacts.mapM_total (BlobModel_forward m)
             (fun x => length x = NUM_FEATURES)
             (fun z => length z = NUM_CLASSES)); [|exact HX].
    intros x Hx. apply (ModelFacts.Sequential_forward_total _ _ _ _ Hwf Hx). }
  assert (Hbad : Exists (fun x => length x <> NUM_FEATURES) X ->
                 BlobModel_call m X = None).
  { apply (LoopFacts.forward_batch_raises m X Hwf). }
  split; split.
  - exact Hok.
  - intros (Z & HZ & _).
    destruct (CallFacts.Forall_or_Exists_width NUM_FEATURES X) as [H|H];
      [exact H|].
    rewrite (Hbad H) in HZ. discriminate HZ.
  - exact Hbad.
  - intros HN.
    destruct (CallFacts.Forall_or_Exists_width NUM_FEATURES X) as [H|H];
      [|exact H].
    destruct (Hok H) as (Z & HZ & _). rewrite HZ in HN. discriminate HN.
Qed.

Lemma forward_pass_checks_the_width_witness :
  (Forall (fun x => length x = NUM_FEATURES) toy_X_train <->
   exists y_logits,
     BlobModel_call (model_4 zero_draws) toy_X_train = Some y_logits /\
     length y_logits = length toy_X_train /\
     Forall (fun z => length z = NUM_CLASSES) y_logits) /\
  (Exists (fun x => length x <> NUM_FEATURES) toy_X_train <->
   BlobModel_call (model_4 zero_draws) toy_X_train = None).
Proof.
  apply (forward_pass_checks_the_width (model_4 zero_draws) toy_X_train).
  apply ModelFacts.model_4_wf.
Defined.

(** X15: the loop leaves the model in training mode: [model_4.eval()]
    is called in the reporting epochs only, every pass starts with
    [model_4.train()], and the last epoch, 149999, does not report. *)
Theorem loop_leaves_training_mode (set_to_none : bool) (m0 : BlobModel)
    (X_blob_train : list vec) (y_blob_train : list nat)
    (X_blob_test : list vec) (y_blob_test : list nat) :
  wf_model m0 ->
  wf_batch X_blob_train y_blob_train -> wf_batch X_blob_test y_blob_test ->
  exists s,
    fit set_to_none m0 X_blob_train y_blob_train X_blob_test y_blob_test = Some s /\
    training (model s) = true.
Proof.
  intros Hm Htr Hte.
  destruct (FitFacts.for_range_prefix set_to_none _ _ _ _ m0 Hm Htr Hte
              (N.to_nat NUM_EPOCHS)) as (s & Hs & _).
  exists s. split; [exact Hs|].
  destruct CallFacts.last_epoch_does_not_report as (n & En & Hn).
  rewrite En, FitFacts.for_range_S in Hs.
  destruct (for_range n _ _) as [s'|]; [|discriminate].
  rewrite (CallFacts.epoch_body_mode _ _ _ _ _ _ _ _ Hs), Hn. reflexivity.
Qed.

Lemma loop_leaves_training_mode_witness :
  exists s,
    fit false (model_4 zero_draws) toy_X_train toy_y_train toy_X_test toy_y_test
      = Some s /\
    training (model s) = true.
Proof.
  apply (loop_leaves_training_mode false (model_4 zero_draws)).
  - apply ModelFacts.model_4_wf.
  - apply ToyFacts.toy_train_wf.
  - apply ToyFacts.toy_test_wf.
Defined.

(** ** The accuracy of the predictions *)

Module AccuracyFacts.
Import metrics.

Lemma count_true_cons b l :
  count_true (b :: l) = ((if b then 1 else 0) + count_true l)%nat.
Proof. unfold count_true. destruct b; reflexivity. Qed.

Lemma count_true_le l : (count_true l <= length l)%nat.
Proof.
  induction l as [|b l IH]; [apply Nat.le_refl|].
  rewrite count_true_cons. destruct b; simpl; lia.
Qed.

Lemma count_true_all l :
  count_true l = length l <-> Forall (fun b => b = true) l.
Proof.
  induction l as [|b l IH].
  - split; [constructor|reflexivity].
  - rewrite count_true_cons. pose proof (count_true_le l) as Hle.
    destruct b; simpl; split; intros H.
    + constructor; [reflexivity|]. apply IH. lia.
    + inversion H; subst. f_equal. apply IH. assumption.
    + lia.
    + inversion H; subst. discriminate.
Qed.

Lemma count_true_none l :
  count_true l = 0%nat <-> Forall (fun b => b = false) l.
Proof.
  induction l as [|b l IH].
  - split; [constructor|reflexivity].
  - rewrite count_true_cons. destruct b; simpl; split; intros H.
    + discriminate.
    + inversion H; subst. discriminate.
    + constructor; [reflexivity|]. apply IH, H.
    + inversion H; subst. apply IH. assumption.
Qed.

Lemma all_equal (a b : list nat) :
  length a = length b ->
  Forall (fun c => c = true) (zip_with Nat.eqb a b) <-> a = b.
Proof.
  revert b. induction a as [|x a IH]; intros [|z b] Hl; simpl in Hl;
    try discriminate.
  - split; [reflexivity|constructor].
  - cbn [zip_with]. split; intros H.
    + inversion H as [|? ? Hx Ha]; subst. apply Nat.eqb_eq in Hx.
      f_equal; [exact Hx|]. apply IH; [lia|exact Ha].
    + injection H as -> ->. constructor; [apply Nat.eqb_refl|].
      apply IH; [lia|reflexivity].
Qed.

Lemma none_equal (a b : list nat) :
  length a = length b ->
  Forall (fun c => c = false) (zip_with Nat.eqb a b)
  <-> Forall2 (fun x z => x <> z) a b.
Proof.
  revert b. induction a as [|x a IH]; intros [|z b] Hl; simpl in Hl;
    try discriminate.
  - split; constructor.
  - cbn [zip_with]. split; intros H.
    + inversion H as [|? ? Hx Ha]; subst. apply Nat.eqb_neq in Hx.
      constructor; [exact Hx|]. apply IH; [lia|exact Ha].
    + inversion H; subst. constructor; [apply Nat.eqb_neq; assumption|].
      apply IH; [lia|assumption].
Qed.

Lemma fraction_facts (c n : nat) :
  (0 < n)%nat -> (c <= n)%nat ->
  let q := (Z.of_nat c # Pos.of_nat n) in
  (0 <= q <= 1)%Q /\ ((q == 1)%Q <-> c = n) /\ ((q == 0)%Q <-> c = 0%nat).
Proof.
  intros Hn Hc q.
  assert (Hp : Z.pos (Pos.of_nat n) = Z.of_nat n).
  { rewrite <- positive_nat_Z, Nat2Pos.id by lia. reflexivity. }
  subst q. unfold Qle, Qeq. cbn [Qnum Qden]. rewrite Hp. repeat split; lia.
Qed.

Lemma accuracy_score_facts (a b : list nat) :
  length a = length b -> a <> [] ->
  exists q,
    accuracy_score a b = Some q /\
    (0 <= q <= 1)%Q /\
    ((q == 1)%Q <-> a = b) /\
    ((q == 0)%Q <-> Forall2 (fun p t => p <> t) a b).
Proof.
  intros Hl Hne. unfold accuracy_score.
  rewrite Hl, Nat.eqb_refl. cbn [negb].
  pose proof (MetricFacts.zip_with_length Nat.eqb a b Hl) as Hlen.
  set (score := zip_with Nat.eqb a b) in *.
  assert (Hpos : (0 < length score)%nat).
  { rewrite Hlen. destruct a; [contradiction|simpl; lia]. }
  destruct score as [|c score'] eqn:E; [simpl in Hpos; lia|].
  rewrite <- E in *. clear E c score'.
  destruct (fraction_facts (count_true score) (length score)
              Hpos (count_true_le score)) as (Hr & H1 & H0).
  eexists. split; [reflexivity|]. split; [exact Hr|]. split.
  - rewrite H1, count_true_all. apply all_equal, Hl.
  - rewrite H0, count_true_none. apply none_equal, Hl.
Qed.

End AccuracyFacts.

(** X16: on predictions and labels of the same, non-zero length the
    accuracy is a fraction between 0 and 1; it is 1 exactly when every
    prediction equals its label, and 0 exactly when none does. *)
Theorem accuracy_range_and_extremes (y_preds y_blob_test : list nat) :
  length y_preds = length y_blob_test -> y_preds <> [] ->
  exists q,
    sk_acc y_preds y_blob_test = Some q /\
    (0 <= q <= 1)%Q /\
    ((q == 1)%Q <-> y_preds = y_blob_test) /\
    ((q == 0)%Q <-> Forall2 (fun p t => p <> t) y_preds y_blob_test).
Proof. apply AccuracyFacts.accuracy_score_facts. Qed.

Lemma accuracy_range_and_extremes_witness :
  exists q,
    sk_acc [3; 1; 4]%nat [3; 5; 4]%nat = Some q /\
    (0 <= q <= 1)%Q /\
    ((q == 1)%Q <-> [3; 1; 4]%nat = [3; 5; 4]%nat) /\
    ((q == 0)%Q <-> Forall2 (fun p t => p <> t) [3; 1; 4]%nat [3; 5; 4]%nat).
Proof.
  apply (accuracy_range_and_extremes [3; 1; 4]%nat [3; 5; 4]%nat).
  - reflexivity.
  - discriminate.
Defined.

(** ** More on the split *)

Module PairingFacts.
Import sklearn SplitFacts.

Lemma nth_error_combine {A B : Type} (a : list A) (b : list B) i x z :
  nth_error a i = Some x -> nth_error b i = Some z ->
  nth_error (combine a b) i = Some (x, z).
Proof.
  revert a b. induction i as [|i IH]; intros [|x' a] [|z' b] Ha Hb;
    simpl in *; try discriminate.
  - congruence.
  - apply IH; assumption.
Qed.

Lemma safe_indexing_combine {A B : Type} (a : list A) (b : list B) idx r1 r2 :
  safe_indexing a idx = Some r1 -> safe_indexing b idx = Some r2 ->
  safe_indexing (combine a b) idx = Some (combine r1 r2).
Proof.
  revert r1 r2. induction idx as [|i idx IH]; intros r1 r2 H1 H2; simpl in *.
  - injection H1 as <-. injection H2 as <-. reflexivity.
  - destruct (nth_error a i) as [x|] eqn:Ea; [|discriminate].
    destruct (safe_indexing a idx) as [ra|]; [|discriminate].
    destruct (nth_error b i) as [z|] eqn:Eb; [|discriminate].
    destruct (safe_indexing b idx) as [rb|]; [|discriminate].
    injection H1 as <-. injection H2 as <-.
    rewrite (nth_error_combine _ _ _ _ _ Ea Eb), (IH ra rb eq_refl eq_refl).
    reflexivity.
Qed.

Lemma validate_shuffle_split_small n ts :
  (n < 2)%nat -> validate_shuffle_split n ts = None.
Proof.
  intros Hn. destruct (validate_shuffle_split n ts) as [[n_train n_test]|] eqn:E;
    [|reflexivity].
  apply validate_shuffle_split_sizes in E. lia.
Qed.

End PairingFacts.

(** X17: the split keeps every sample with its own label: the training
    features and labels have the same length, so have the test ones, and
    the (sample, label) pairs of the two parts together are a rearrangement
    of the pairs of the original data. *)
Theorem train_test_split_keeps_pairs {A B : Type} (X : list A) (y : list B)
    (test_size : float) (perm : list nat) Xtr Xte ytr yte :
  Permutation perm (seq 0 (length X)) ->
  sklearn.train_test_split X y test_size perm = Some (Xtr, Xte, ytr, yte) ->
  length Xtr = length ytr /\ length Xte = length yte /\
  Permutation (combine Xtr ytr ++ combine Xte yte) (combine X y).
Proof.
  intros Hp H. unfold sklearn.train_test_split in H.
  destruct (length X =? length y)%nat eqn:Hy; [|discriminate].
  apply Nat.eqb_eq in Hy. cbn [negb] in H.
  destruct (sklearn.validate_shuffle_split _ _) as [[n_train n_test]|] eqn:Hv;
    [|discriminate].
  pose proof (SplitFacts.validate_shuffle_split_sizes _ _ _ _ Hv) as (_ & _ & Hsum).
  pose proof (Permutation_length Hp) as Hl. rewrite length_seq in Hl.
  pose proof (SplitFacts.shuffle_split_indices_app n_train n_test perm) as Hs.
  destruct (sklearn.shuffle_split_indices n_train n_test perm) as [train test].
  destruct Hs as (Happ & _ & _); [lia|].
  destruct (sklearn.safe_indexing X train) as [a|] eqn:E1; [|discriminate].
  destruct (sklearn.safe_indexing X test) as [b|] eqn:E2; [|discriminate].
  destruct (sklearn.safe_indexing y train) as [c|] eqn:E3; [|discriminate].
  destruct (sklearn.safe_indexing y test) as [d|] eqn:E4; [|discriminate].
  injection H as <- <- <- <-.
  split.
  { rewrite (SplitFacts.safe_indexing_length _ _ _ E1),
            (SplitFacts.safe_indexing_length _ _ _ E3). reflexivity. }
  split.
  { rewrite (SplitFacts.safe_indexing_length _ _ _ E2),
            (SplitFacts.safe_indexing_length _ _ _ E4). reflexivity. }
  apply (perm_trans (Permutation_app_comm _ _)).
  apply (SplitFacts.safe_indexing_permutation (combine X y) (test ++ train)).
  - rewrite Happ, length_combine, <- Hy, Nat.min_id. exact Hp.
  - apply SplitFacts.safe_indexing_app;
      apply PairingFacts.safe_indexing_combine; assumption.
Qed.

Lemma train_test_split_keeps_pairs_witness :
  length [20; 30; 40; 50]%nat = length [true; true; false; false] /\
  length [10]%nat = length [false] /\
  Permutation (combine [20; 30; 40; 50]%nat [true; true; false; false]
               ++ combine [10]%nat [false])
              (combine [10; 20; 30; 40; 50]%nat [false; true; true; false; false]).
Proof.
  apply (train_test_split_keeps_pairs
           [10; 20; 30; 40; 50]%nat [false; true; true; false; false]
           TEST_SIZE [0; 1; 2; 3; 4]%nat).
  - apply Permutation_refl.
  - vm_compute. reflexivity.
Defined.

(** X19: what the split refuses: arrays of different lengths, fewer than
    two samples (one of the parts would be empty), and a test fraction that
    is not strictly between 0 and 1. *)
Theorem train_test_split_refuses {A B : Type} (X : list A) (y : list B)
    (test_size : float) (perm : list nat) :
  length X <> length y \/ (length X < 2)%nat \/
  PrimFloat.leb test_size 0 = true \/ PrimFloat.leb 1 test_size = true ->
  sklearn.train_test_split X y test_size perm = None.
Proof.
  intros H. unfold sklearn.train_test_split.
  destruct (Nat.eqb_spec (length X) (length y)) as [E|E]; [|reflexivity].
  cbn [negb].
  destruct H as [H|[H|H]]; [contradiction| |].
  - rewrite (PairingFacts.validate_shuffle_split_small _ _ H). reflexivity.
  - unfold sklearn.validate_shuffle_split.
    destruct H as [-> | ->]; [reflexivity|].
    rewrite orb_true_r. reflexivity.
Qed.

Lemma train_test_split_refuses_witness :
  sklearn.train_test_split [1%nat] [true] TEST_SIZE [0%nat] = None.
Proof.
  apply (train_test_split_refuses [1%nat] [true] TEST_SIZE [0%nat]).
  right. left. simpl. lia.
Defined.

(** ** The generated data *)

Module BlobFacts.
Import sklearn datasets SplitFacts.

Ltac decide_bounds :=
  repeat match goal with
         | |- context [Nat.leb ?a ?b] => destruct (Nat.leb_spec a b)
         | |- context [Nat.ltb ?a ?b] => destruct (Nat.ltb_spec a b)
         end;
  simpl; lia.

Lemma nth_map_seq (f : nat -> nat) c i :
  (i < c)%nat -> nth i (map f (seq 0 c)) 0%nat = f i.
Proof.
  intros Hi.
  rewrite (nth_indep _ 0%nat (f 0%nat))
    by (rewrite length_map, length_seq; exact Hi).
  rewrite map_nth, seq_nth by exact Hi. reflexivity.
Qed.

Lemma blob_labels_blocks n c :
  blob_labels n c = concat (map (fun i => repeat i (samples_of_center n c i)) (seq 0 c)).
Proof.
  unfold blob_labels. f_equal. apply map_ext_in. intros i Hi.
  apply in_seq in Hi. unfold n_samples_per_center.
  rewrite (nth_map_seq _ c i) by lia. reflexivity.
Qed.

Lemma length_blocks (f : nat -> nat) a c :
  length (concat (map (fun i => repeat i (f i)) (seq a c)))
  = list_sum (map f (seq a c)).
Proof.
  revert a. induction c as [|c IH]; intros a; [reflexivity|].
  cbn [seq map concat list_sum fold_right]. rewrite length_app, repeat_length.
  f_equal. apply IH.
Qed.

Lemma sum_shares q r c :
  list_sum (map (fun i => q + (if i <? r then 1 else 0)) (seq 0 c))%nat
  = (c * q + Nat.min r c)%nat.
Proof.
  induction c as [|c IH]; [simpl; lia|].
  rewrite seq_S, map_app, list_sum_app, IH. cbn [map list_sum fold_right Nat.add].
  destruct (Nat.ltb_spec c r); lia.
Qed.

Lemma length_blob_labels n c : c <> 0%nat -> length (blob_labels n c) = n.
Proof.
  intros Hc. rewrite blob_labels_blocks, length_blocks. unfold samples_of_center.
  rewrite sum_shares.
  pose proof (Nat.mod_upper_bound n c Hc). pose proof (Nat.div_mod_eq n c). lia.
Qed.

Lemma blob_labels_in_range n c : Forall (fun t => (t < c)%nat) (blob_labels n c).
Proof.
  rewrite blob_labels_blocks. apply Forall_forall. intros t Ht.
  apply in_concat in Ht as (block & Hb & Ht).
  apply in_map_iff in Hb as (i & <- & Hi). apply in_seq in Hi.
  apply repeat_spec in Ht. lia.
Qed.

Lemma count_occ_blocks (f : nat -> nat) k a c :
  count_occ Nat.eq_dec (concat (map (fun i => repeat i (f i)) (seq a c))) k
  = if ((a <=? k) && (k <? a + c))%nat then f k else 0%nat.
Proof.
  revert a. induction c as [|c IH]; intros a.
  - cbn [seq map concat count_occ]. decide_bounds.
  - cbn [seq map concat]. rewrite count_occ_app, IH.
    destruct (Nat.eq_dec a k) as [->|Hak].
    + rewrite count_occ_repeat_eq by reflexivity. decide_bounds.
    + rewrite count_occ_repeat_neq
        by (intros E; apply Hak; symmetry; exact E).
      decide_bounds.
Qed.

Lemma count_occ_blob_labels n c k :
  (k < c)%nat -> count_occ Nat.eq_dec (blob_labels n c) k = samples_of_center n c k.
Proof.
  intros Hk. rewrite blob_labels_blocks, count_occ_blocks. decide_bounds.
Qed.

Lemma length_blob_point nf std d s c : length (blob_point nf std d s c) = nf.
Proof. unfold blob_point. rewrite length_map, length_seq. reflexivity. Qed.

Lemma Forall_combine_Forall2 {A B : Type} (P : A -> B -> Prop) (a : list A) (b : list B) :
  length a = length b ->
  Forall (fun p => P (fst p) (snd p)) (combine a b) -> Forall2 P a b.
Proof.
  revert b. induction a as [|x a IH]; intros [|z b] Hl H; simpl in Hl;
    try discriminate; [constructor|].
  cbn [combine] in H. inversion H; subst.
  constructor; [assumption|]. apply IH; [lia|assumption].
Qed.

Lemma points_of_labels (g : nat -> nat -> vec) a (y0 : list nat) :
  Forall (fun p => exists s, (a <= s < a + length y0)%nat /\ fst p = g s (snd p))
    (combine (map (fun sc => g (fst sc) (snd sc)) (combine (seq a (length y0)) y0))
             y0).
Proof.
  revert a. induction y0 as [|t y0 IH]; intros a; [constructor|].
  cbn [length seq combine map]. constructor.
  - exists a. split; [lia|reflexivity].
  - eapply Forall_impl; [|apply (IH (S a))].
    intros p (s & Hs & E). exists s. split; [lia|exact E].
Qed.

Lemma make_blobs_returns n nf c std d :
  c <> 0%nat ->
  Permutation (shuffle_draw d) (seq 0 n) ->
  exists X y,
    make_blobs n nf c std d = Some (X, y) /\
    length X = n /\ length y = n /\
    Forall (fun x => length x = nf) X /\
    Forall (fun t => (t < c)%nat) y /\
    (forall k, (k < c)%nat ->
               count_occ Nat.eq_dec y k = samples_of_center n c k) /\
    Forall2 (fun x t => exists s, (s < n)%nat /\ x = blob_point nf std d s t) X y.
Proof.
  intros Hc Hp. unfold make_blobs.
  destruct (Nat.eqb_spec c 0) as [E|_]; [contradiction|].
  set (y0 := blob_labels n c).
  set (X0 := map (fun sc => blob_point nf std d (fst sc) (snd sc))
                 (combine (seq 0 (length y0)) y0)).
  assert (Hly : length y0 = n) by (apply length_blob_labels, Hc).
  assert (HlX : length X0 = n).
  { unfold X0. rewrite length_map, length_combine, length_seq, Nat.min_id.
    exact Hly. }
  pose proof (permutation_indices_in_range _ _ Hp) as Hrange.
  destruct (safe_indexing_total X0 (shuffle_draw d)) as [X HX];
    [rewrite HlX; exact Hrange|].
  destruct (safe_indexing_total y0 (shuffle_draw d)) as [y Hy];
    [rewrite Hly; exact Hrange|].
  rewrite HX, Hy. exists X, y. split; [reflexivity|].
  assert (PX : Permutation X X0).
  { apply (safe_indexing_permutation X0 (shuffle_draw d));
      [rewrite HlX; exact Hp|exact HX]. }
  assert (Py : Permutation y y0).
  { apply (safe_indexing_permutation y0 (shuffle_draw d));
      [rewrite Hly; exact Hp|exact Hy]. }
  split; [rewrite (Permutation_length PX); exact HlX|].
  split; [rewrite (Permutation_length Py); exact Hly|].
  split.
  { apply (safe_indexing_Forall (fun x => length x = nf) X0 (shuffle_draw d));
      [|exact HX].
    apply Forall_forall. intros x Hx. apply in_map_iff in Hx as (sc & <- & _).
    apply length_blob_point. }
  split.
  { apply (safe_indexing_Forall _ y0 _ _ (blob_labels_in_range n c) Hy). }
  split.
  { intros k Hk. rewrite (proj1 (Permutation_count_occ Nat.eq_dec y y0) Py k).
    apply count_occ_blob_labels, Hk. }
  apply Forall_combine_Forall2.
  { rewrite (safe_indexing_length _ _ _ HX), (safe_indexing_length _ _ _ Hy).
    reflexivity. }
  apply (safe_indexing_Forall _ (combine X0 y0) (shuffle_draw d)).
  - unfold X0. rewrite <- Hly.
    eapply Forall_impl; [|apply (points_of_labels (blob_point nf std d) 0 y0)].
    intros p (s & Hs & E). exists s. split; [lia|exact E].
  - apply PairingFacts.safe_indexing_combine; assumption.
Qed.

End BlobFacts.




(** ** From the data cell to the accuracy *)

(** X21: the cells of the notebook run to the end, whatever the random
    draws: the data cell generates 4000 points, 400 of each of the 10
    classes, the split gives 3200 training and 800 test samples, the
    training loop returns, the trained model yields one predicted label
    per test sample, and the accuracy of these predictions is a fraction
    between 0 and 1. *)
Theorem notebook_runs_end_to_end (set_to_none : bool) (g : nn.Generator)
    (d : datasets.BlobDraws) (perm : list nat) :
  Permutation (datasets.shuffle_draw d) (seq 0 NUM_SAMPLES) ->
  Permutation perm (seq 0 NUM_SAMPLES) ->
  exists X_blob y_blob X_blob_train X_blob_test y_blob_train y_blob_test
         s y_logits y_pred_probs y_preds acc,
    blob_data d = Some (X_blob, y_blob) /\
    (forall k, (k < NUM_CLASSES)%nat ->
               count_occ Nat.eq_dec y_blob k = 400%nat) /\
    blob_split X_blob y_blob perm
      = Some (X_blob_train, X_blob_test, y_blob_train, y_blob_test) /\
    length X_blob_train = 3200%nat /\ length X_blob_test = 800%nat /\
    fit set_to_none (model_4 g) X_blob_train y_blob_train
        X_blob_test y_blob_test = Some s /\
    make_predictions (model s) X_blob_test
      = Some (y_logits, y_pred_probs, y_preds) /\
    length y_preds = 800%nat /\
    sk_acc y_preds y_blob_test = Some acc /\
    (0 <= acc <= 1)%Q.
Proof.
  intros Hshuffle Hp.
  destruct (BlobFacts.make_blobs_returns NUM_SAMPLES NUM_FEATURES NUM_CLASSES
              CLUSTER_STD d) as (X & y & Hblob & HlX & Hly & HX & Hy & Hcount & _);
    [discriminate|exact Hshuffle|].
  destruct (PipelineFacts.notebook_runs set_to_none g X y perm HlX Hly HX Hy Hp)
    as (Xtr & Xte & ytr & yte & _ & Hsplit & Wtr & Wte & _).
  destruct (SplitFacts.train_test_split_succeeds X y TEST_SIZE perm 3200 800)
    as (Xtr' & Xte' & ytr' & yte' & Hs' & L1 & L2 & L3 & L4).
  { congruence. }
  { rewrite HlX. exact Hp. }
  { rewrite HlX. exact SplitFacts.validate_4000. }
  unfold blob_split in Hsplit. rewrite Hs' in Hsplit.
  injection Hsplit as -> -> -> ->.
  destruct (FitFacts.for_range_prefix set_to_none _ _ _ _ (model_4 g)
              (ModelFacts.model_4_wf g) Wtr Wte (N.to_nat NUM_EPOCHS))
    as (s & Hfit & Hstack & _).
  assert (Hwf : wf_model (model s)).
  { unfold wf_model. rewrite Hstack.
    apply (FitFacts.iterate_wf _ _ (model_4 g) (ModelFacts.model_4_wf g) Wtr). }
  destruct Wte as (Hne & Hlen & HXte & Hyte).
  destruct (PredictionFacts.make_predictions_returns (model s) Xte Hwf HXte)
    as (y_logits & y_preds & Hpred & Hlogits & _ & Hargmax).
  assert (Hlp : length y_preds = length Xte).
  { rewrite (ModelFacts.mapM_length _ _ _ Hargmax), length_map.
    apply (ModelFacts.mapM_length _ _ _ Hlogits). }
  destruct (AccuracyFacts.accuracy_score_facts y_preds yte)
    as (acc & Hacc & Hrange & _).
  { congruence. }
  { intros ->. rewrite L2 in Hlp. discriminate Hlp. }
  exists X, y, Xtr, Xte, ytr, yte, s, y_logits, (torch.softmax_rows y_logits),
    y_preds, acc.
  split; [exact Hblob|]. split.
  { intros k Hk. rewrite (Hcount k Hk). unfold datasets.samples_of_center.
    replace (NUM_SAMPLES mod NUM_CLASSES)%nat with 0%nat by (vm_compute; reflexivity).
    replace (NUM_SAMPLES / NUM_CLASSES)%nat with 400%nat by (vm_compute; reflexivity).
    reflexivity. }
  split; [exact Hs'|]. split; [exact L1|]. split; [exact L2|].
  split; [exact Hfit|]. split; [exact Hpred|]. split; [congruence|].
  split; [exact Hacc|exact Hrange].
Qed.

Lemma notebook_runs_end_to_end_witness :
  exists X_blob y_blob X_blob_train X_blob_test y_blob_train y_blob_test
         s y_logits y_pred_probs y_preds acc,
    blob_data (datasets.mkBlobDraws (fun _ _ => 0%R) (fun _ _ => 0%R)
                                    (seq 0 NUM_SAMPLES)) = Some (X_blob, y_blob) /\
    (forall k, (k < NUM_CLASSES)%nat ->
               count_occ Nat.eq_dec y_blob k = 400%nat) /\
    blob_split X_blob y_blob (seq 0 NUM_SAMPLES)
      = Some (X_blob_train, X_blob_test, y_blob_train, y_blob_test) /\
    length X_blob_train = 3200%nat /\ length X_blob_test = 800%nat /\
    fit false (model_4 zero_draws) X_blob_train y_blob_train
        X_blob_test y_blob_test = Some s /\
    make_predictions (model s) X_blob_test
      = Some (y_logits, y_pred_probs, y_preds) /\
    length y_preds = 800%nat /\
    sk_acc y_preds y_blob_test = Some acc /\
    (0 <= acc <= 1)%Q.
Proof.
  apply (notebook_runs_end_to_end false zero_draws
           (datasets.mkBlobDraws (fun _ _ => 0%R) (fun _ _ => 0%R)
                                 (seq 0 NUM_SAMPLES))
           (seq 0 NUM_SAMPLES)).
  - apply Permutation_refl.
  - apply Permutation_refl.
Defined.

(** ** The spiral data of the exercises *)

Module SpiralFacts.
Import spiral.
Local Open Scope R_scope.

Lemma nth_error_zip_with {A B C : Type} (f : A -> B -> C) a b k x z :
  nth_error a k = Some x -> nth_error b k = Some z ->
  nth_error (zip_with f a b) k = Some (f x z).
Proof.
  revert a b. induction k as [|k IH]; intros [|x' a] [|z' b] Ha Hb;
    simpl in *; try discriminate.
  - congruence.
  - apply IH; assumption.
Qed.

Lemma nth_error_map_seq {A : Type} (f : nat -> A) n k :
  (k < n)%nat -> nth_error (map f (seq 0 n)) k = Some (f k).
Proof.
  intros Hk. rewrite nth_error_map.
  rewrite (nth_error_nth' (seq 0 n) 0%nat) by (rewrite length_seq; exact Hk).
  rewrite seq_nth by exact Hk. reflexivity.
Qed.

Lemma nth_error_linspace a b n k :
  (k < n)%nat ->
  nth_error (linspace a b n) k = Some (a + INR k * ((b - a) / INR (n - 1))).
Proof.
  intros Hk. unfold linspace.
  apply (nth_error_map_seq (fun i => a + INR i * ((b - a) / INR (n - 1))) n k Hk).
Qed.

(** Point [k] of a class: at radius [k / (N - 1)], at some angle. *)
Lemma class_points_nth n j randn k :
  (k < n)%nat ->
  exists t,
    nth_error (class_points n j randn) k
    = Some [INR k / INR (n - 1) * sin t; INR k / INR (n - 1) * cos t].
Proof.
  intros Hk. unfold class_points.
  set (theta := vadd _ _).
  assert (Ht : exists t, nth_error theta k = Some t).
  { unfold theta. rewrite UpdateFacts.nth_error_vadd.
    rewrite (nth_error_linspace _ _ n k Hk), (nth_error_map_seq _ n k Hk).
    eexists. reflexivity. }
  destruct Ht as [t Ht]. exists t.
  assert (Hr : nth_error (linspace 0 1 n) k = Some (INR k / INR (n - 1))).
  { rewrite (nth_error_linspace _ _ n k Hk). f_equal. unfold Rdiv. ring. }
  apply (nth_error_zip_with (fun a b => [a; b]) _ _ k
           (INR k / INR (n - 1) * sin t) (INR k / INR (n - 1) * cos t)).
  - apply (nth_error_zip_with Rmult _ _ k _ (sin t) Hr).
    rewrite nth_error_map, Ht. reflexivity.
  - apply (nth_error_zip_with Rmult _ _ k _ (cos t) Hr).
    rewrite nth_error_map, Ht. reflexivity.
Qed.

Lemma length_linspace a b n : length (linspace a b n) = n.
Proof. unfold linspace. rewrite length_map, length_seq. reflexivity. Qed.

Lemma length_zip_with_eq {A B C : Type} (f : A -> B -> C) a b n :
  length a = n -> length b = n -> length (zip_with f a b) = n.
Proof.
  intros Ha Hb. rewrite MetricFacts.zip_with_length; [exact Ha|congruence].
Qed.

Lemma length_class_points n j randn : length (class_points n j randn) = n.
Proof.
  unfold class_points.
  assert (Ht : length (vadd (linspace (INR (j * 4)) (INR ((j + 1) * 4)) n)
                            (map (fun k => randn k * (2 / 10)) (seq 0 n))) = n).
  { rewrite TensorFacts.length_vadd, length_linspace, length_map, length_seq.
    apply Nat.min_id. }
  repeat apply length_zip_with_eq; try apply length_linspace;
    rewrite length_map; exact Ht.
Qed.

Lemma nth_error_blocks {A : Type} (f : nat -> list A) n :
  (forall i, length (f i) = n) ->
  forall c a j k,
    (j < c)%nat -> (k < n)%nat ->
    nth_error (concat (map f (seq a c))) (n * j + k) = nth_error (f (a + j)%nat) k.
Proof.
  intros Hf. induction c as [|c IH]; intros a j k Hj Hk; [lia|].
  cbn [seq map concat]. destruct j as [|j].
  - rewrite Nat.mul_0_r, Nat.add_0_r. cbn [Nat.add].
    apply nth_error_app1. rewrite Hf. exact Hk.
  - rewrite nth_error_app2 by (rewrite Hf; nia).
    rewrite Hf. replace (n * S j + k - n)%nat with (n * j + k)%nat by nia.
    rewrite (IH (S a) j k) by lia. f_equal. f_equal. lia.
Qed.

Lemma length_concat_blocks {A : Type} (f : nat -> list A) n :
  (forall i, length (f i) = n) ->
  forall c a, length (concat (map f (seq a c))) = (n * c)%nat.
Proof.
  intros Hf. induction c as [|c IH]; intros a; [simpl; lia|].
  cbn [seq map concat]. rewrite length_app, Hf, IH. lia.
Qed.

Lemma radius_range n k :
  (k < n)%nat -> 0 <= INR k / INR (n - 1) <= 1.
Proof.
  intros Hk. destruct (Nat.eq_dec (n - 1) 0) as [E|E].
  - assert (k = 0%nat) by lia. subst k. unfold Rdiv.
    change (INR 0) with 0. rewrite Rmult_0_l. lra.
  - assert (Hpos : 0 < INR (n - 1)) by (apply lt_0_INR; lia).
    assert (Hle : INR k <= INR (n - 1)) by (apply le_INR; lia).
    pose proof (pos_INR k) as Hk0.
    split.
    + apply Rmult_le_pos; [exact Hk0|]. left. apply Rinv_0_lt_compat, Hpos.
    + apply (Rmult_le_reg_r (INR (n - 1))); [exact Hpos|].
      unfold Rdiv. rewrite Rmult_assoc, Rinv_l, Rmult_1_r, Rmult_1_l; lra.
Qed.

Lemma on_circle r t : (r * sin t) * (r * sin t) + (r * cos t) * (r * cos t) = r * r.
Proof.
  pose proof (sin2_cos2 t) as H. unfold Rsqr in H.
  replace ((r * sin t) * (r * sin t) + (r * cos t) * (r * cos t))
    with (r * r * (sin t * sin t + cos t * cos t)) by ring.
  rewrite H. ring.
Qed.

End SpiralFacts.

(** X24: the spiral data of the exercises.  With at most 256 classes the
    snippet builds [N*K] points and as many labels; rows [N*j .. N*j+N-1]
    carry the label [j]; point [k] of a class lies on the circle of radius
    [k / (N - 1)] around the origin, because the noise is added to the
    angle only; so every point lies in the unit disk. *)
Theorem spiral_points_lie_on_circles (N K : nat) (randn : nat -> nat -> R) :
  (K <= 256)%nat ->
  exists X y,
    spiral.dataset N K randn = (X, y) /\
    length X = (N * K)%nat /\ length y = (N * K)%nat /\
    (forall j k, (j < K)%nat -> (k < N)%nat ->
       exists a b,
         nth_error X (N * j + k) = Some [a; b] /\
         nth_error y (N * j + k) = Some j /\
         (a * a + b * b = (INR k / INR (N - 1)) * (INR k / INR (N - 1)))%R) /\
    Forall (fun p => exists a b, p = [a; b] /\ (a * a + b * b <= 1)%R) X.
Proof.
  intros Hc. unfold spiral.dataset. eexists. eexists. split; [reflexivity|].
  split.
  { apply SpiralFacts.length_concat_blocks. intros i.
    apply SpiralFacts.length_class_points. }
  split; [apply SpiralFacts.length_concat_blocks; intros i; apply repeat_length|].
  split.
  - intros j k Hj Hk.
    destruct (SpiralFacts.class_points_nth N j (randn j) k Hk) as [t Ht].
    eexists. eexists. split; [|split].
    + rewrite (SpiralFacts.nth_error_blocks
                 (fun j => spiral.class_points N j (randn j)) N)
        by (intros i; apply SpiralFacts.length_class_points) || assumption.
      cbn [Nat.add]. exact Ht.
    + rewrite (SpiralFacts.nth_error_blocks (fun j => repeat (j mod 256)%nat N) N)
        by (intros i; apply repeat_length) || assumption.
      cbn [Nat.add]. rewrite Nat.mod_small by lia.
      apply nth_error_repeat, Hk.
    + apply SpiralFacts.on_circle.
  - apply Forall_forall. intros p Hp.
    apply in_concat in Hp as (block & Hb & Hp).
    apply in_map_iff in Hb as (j & <- & _).
    apply In_nth_error in Hp as (k & Hk).
    assert (Hlt : (k < N)%nat).
    { rewrite <- (SpiralFacts.length_class_points N j (randn j)).
      apply nth_error_Some. congruence. }
    destruct (SpiralFacts.class_points_nth N j (randn j) k Hlt) as [t Ht].
    rewrite Ht in Hk. injection Hk as <-.
    eexists. eexists. split; [reflexivity|].
    rewrite SpiralFacts.on_circle.
    pose proof (SpiralFacts.radius_range N k Hlt) as [H0 H1].
    nra.
Qed.

Lemma spiral_points_lie_on_circles_witness :
  exists X y,
    spiral.spiral_data (fun _ _ => 0%R) = (X, y) /\
    length X = (spiral.N * spiral.K)%nat /\ length y = (spiral.N * spiral.K)%nat /\
    (forall j k, (j < spiral.K)%nat -> (k < spiral.N)%nat ->
       exists a b,
         nth_error X (spiral.N * j + k) = Some [a; b] /\
         nth_error y (spiral.N * j + k) = Some j /\
         (a * a + b * b
          = (INR k / INR (spiral.N - 1)) * (INR k / INR (spiral.N - 1)))%R) /\
    Forall (fun p => exists a b, p = [a; b] /\ (a * a + b * b <= 1)%R) X.
Proof.
  apply (spiral_points_lie_on_circles spiral.N spiral.K (fun _ _ => 0%R)).
  unfold spiral.K. lia.
Defined.

(** * Where rounding decides

    The statements below are about the float32 values the code computes. *)

(** ** Rounding of the exponential *)

Module RoundingFacts.
Import float32.
Local Open Scope R_scope.


Lemma Zfloor_eq x n : IZR n <= x -> x < IZR n + 1 -> Zfloor x = n.
Proof.
  intros H1 H2. unfold Zfloor.
  rewrite <- (tech_up x (n + 1)); [lia| |]; rewrite plus_IZR; lra.
Qed.


(** The special values of [exp] and [log] are those of the rounded real
    functions. *)
Lemma round_exp_0 : round (Rtrigo_def.exp 0) = one.
Proof.
  rewrite exp_0. unfold round.
  destruct (Req_EM_T 1 0) as [E|_]; [lra|].
  rewrite (Rabs_pos_eq 1) by lra.
  assert (Hmag : mag 1 = 1%Z).
  { unfold mag. rewrite ln_1. unfold Rdiv. rewrite Rmult_0_l.
    rewrite (Zfloor_eq 0 0); [reflexivity|lra|lra]. }
  rewrite Hmag.
  change (fexp prec emax 1) with (-23)%Z. change (- -23)%Z with 23%Z.
  assert (Hp : powerRZ 2 23 = IZR 8388608).
  { cbn [powerRZ]. rewrite pow_IZR. reflexivity. }
  rewrite Hp, Rmult_1_l, (Zfloor_eq (IZR 8388608) 8388608) by lra.
  replace (IZR 8388608 - IZR 8388608) with 0 by lra.
  replace (Rcompare 0 0) with Eq
    by (destruct (Rcompare_spec 0 0); [reflexivity|lra|lra]).
  destruct (Rlt_dec 1 0) as [H|_]; [lra|].
  vm_compute. reflexivity.
Qed.

Lemma round_ln_1 : round (ln 1) = zero.
Proof.
  rewrite ln_1. unfold round.
  destruct (Req_EM_T 0 0) as [_|E]; [reflexivity|contradiction].
Qed.


End RoundingFacts.

(** ** Comparisons and [argmax] on float32 rows *)

Module Float32Facts.
Import float32.

(** *** The order of the comparisons *)











(** *** The scan of [argmax] *)

Import torch_float32.







End Float32Facts.

(** ** Predicted labels *)

Module KernelFacts.
Import float32 torch_float32.


End KernelFacts.




(** ** The test loss *)


(** ** The two accuracy values *)

(** C10, the claim as stated fails: with two of three predictions right,
    torchmetrics returns the binary32 nearest to 2/3 and sklearn the
    binary64 nearest to 2/3, two different numbers. *)
Lemma accuracy_values_differ :
  exists a b qa qb,
    tm_acc [0; 1; 2]%nat [0; 1; 0]%nat = Some a /\
    sk_acc_float [0; 1; 2]%nat [0; 1; 0]%nat = Some b /\
    float32.to_Q a = Some qa /\
    float32.to_Q (Prim2SF b) = Some qb /\
    ~ (qa == qb)%Q.
Proof.
  eexists. eexists. eexists. eexists.
  split; [vm_compute; reflexivity|].
  split; [vm_compute; reflexivity|].
  split; [vm_compute; reflexivity|].
  split; [vm_compute; reflexivity|].
  unfold Qeq. vm_compute. discriminate.
Qed.

(** C10: on predictions and labels of the same, non-zero length both
    metrics divide the same two integers, the number of positions at which
    prediction and label agree and the number of samples, whose quotient
    is the exact-match fraction: torchmetrics in float32, [accuracy_score]
    in float64.  Neither changes when its two arguments are swapped, so
    the order the notebook passes them in is harmless. *)
Theorem accuracy_metrics_divide_the_same_counts (y_preds y_blob_test : list nat) :
  length y_preds = length y_blob_test -> y_preds <> [] ->
  let matches := metrics.count_true (zip_with Nat.eqb y_preds y_blob_test) in
  let n := length y_preds in
  sk_acc y_preds y_blob_test = Some (Z.of_nat matches # Pos.of_nat n) /\
  tm_acc y_preds y_blob_test
    = Some (float32.div (float32.of_nat matches) (float32.of_nat n)) /\
  sk_acc_float y_preds y_blob_test
    = Some (PrimFloat.div (sklearn.float_of_nat matches) (sklearn.float_of_nat n)) /\
  float_metrics.Accuracy y_blob_test y_preds = tm_acc y_preds y_blob_test /\
  float_metrics.accuracy_score y_blob_test y_preds = sk_acc_float y_preds y_blob_test.
Proof.
  intros Hl Hne matches n.
  pose proof (MetricFacts.zip_with_length Nat.eqb y_preds y_blob_test Hl) as Hz.
  assert (Htm : forall a b, length a = length b -> a <> [] ->
            float_metrics.Accuracy a b
            = Some (float32.div
                      (float32.of_nat (metrics.count_true (zip_with Nat.eqb a b)))
                      (float32.of_nat (length a)))).
  { intros a b Hab Ha. unfold float_metrics.Accuracy.
    rewrite Hab, Nat.eqb_refl. cbn [negb].
    destruct a as [|p ps] eqn:E; [contradiction|]. rewrite <- E in *.
    destruct (MetricFacts.labels_below_num_classes a b) as [F1 F2].
    pose proof (MetricFacts.stat_scores_micro _ a b Hab F1 F2) as H.
    destruct (metrics.stat_scores _ _) as [[[tp fp] tn] fn].
    destruct H as [H1 H2]. rewrite H2, H1, Hab. reflexivity. }
  assert (Hsk : forall a b, length a = length b ->
            float_metrics.accuracy_score a b
            = Some (PrimFloat.div
                      (sklearn.float_of_nat (metrics.count_true (zip_with Nat.eqb a b)))
                      (sklearn.float_of_nat (length a)))).
  { intros a b Hab. unfold float_metrics.accuracy_score.
    rewrite Hab, Nat.eqb_refl. cbn [negb].
    rewrite (MetricFacts.zip_with_length Nat.eqb a b Hab), Hab. reflexivity. }
  split.
  { unfold sk_acc, metrics.accuracy_score. rewrite Hl, Nat.eqb_refl. cbn [negb].
    fold matches.
    destruct (zip_with Nat.eqb y_preds y_blob_test) as [|b score] eqn:E.
    - destruct y_preds; [contradiction|discriminate].
    - subst matches n. rewrite <- Hz. reflexivity. }
  split; [apply (Htm _ _ Hl Hne)|].
  split; [apply (Hsk _ _ Hl)|].
  assert (Hl' : length y_blob_test = length y_preds) by (symmetry; exact Hl).
  assert (Hne' : y_blob_test <> []).
  { intros ->. destruct y_preds; [contradiction|discriminate Hl]. }
  split.
  - unfold tm_acc. rewrite (Htm _ _ Hl Hne), (Htm _ _ Hl' Hne').
    rewrite (MetricFacts.zip_with_eqb_sym y_blob_test y_preds), Hl.
    reflexivity.
  - unfold sk_acc_float. rewrite (Hsk _ _ Hl), (Hsk _ _ Hl').
    rewrite (MetricFacts.zip_with_eqb_sym y_blob_test y_preds), Hl.
    reflexivity.
Qed.

Lemma accuracy_metrics_divide_the_same_counts_witness :
  sk_acc [0; 1; 2]%nat [0; 1; 0]%nat = Some (2 # 3) /\
  tm_acc [0; 1; 2]%nat [0; 1; 0]%nat
    = Some (float32.div (float32.of_nat 2) (float32.of_nat 3)) /\
  sk_acc_float [0; 1; 2]%nat [0; 1; 0]%nat
    = Some (PrimFloat.div (sklearn.float_of_nat 2) (sklearn.float_of_nat 3)) /\
  float_metrics.Accuracy [0; 1; 0]%nat [0; 1; 2]%nat
    = tm_acc [0; 1; 2]%nat [0; 1; 0]%nat /\
  float_metrics.accuracy_score [0; 1; 0]%nat [0; 1; 2]%nat
    = sk_acc_float [0; 1; 2]%nat [0; 1; 0]%nat.
Proof.
  apply (accuracy_metrics_divide_the_same_counts [0; 1; 2]%nat [0; 1; 0]%nat).
  - reflexivity.
  - discriminate.
Defined.
